(** * Document ingestion and vector retrieval: a shallow embedding

    The development follows the TypeScript sources of the application:
    - [lib/supabase-vector-store.ts]: [cosineSimilarity], [search],
      [searchWithDirectQuery], [getAllDocuments], [getCount],
      [addDocuments], [clear];
    - [lib/document-processor.ts]: [splitTextIntoChunks], [processPDF];
    - [lib/embeddings.ts]: [generateEmbedding], [generateEmbeddings];
    - [app/api/chat/route.ts]: [POST].

    JavaScript numbers are IEEE 754 binary64 values, which is what the
    kernel's primitive floats are, so numeric code is embedded on
    [PrimFloat.float] with the operations of the source in the order of
    the source.  Part I holds the embedding, Part II the properties. *)

From Stdlib Require Import String Ascii DecimalString.
From Stdlib Require Import ZArith List Bool Lia Permutation Sorted.
From Stdlib Require Import Floats.
From Stdlib Require Uint63.
Import ListNotations.

(** * Part I: the embedding *)

(** ** Values a JavaScript function can produce *)

Module Js.

(** What a [catch] clause receives: an [Error] object, whose [message]
    the handlers read, or any other thrown value. *)
Inductive thrown : Type :=
| ErrorObject (message : string)
| NonError.

(** [error instanceof Error ? error.message : fallback] *)
Definition messageOr (fallback : string) (e : thrown) : string :=
  match e with
  | ErrorObject message => message
  | NonError => fallback
  end.

(** The completion of a call or of an awaited promise. *)
Inductive outcome (A : Type) : Type :=
| Returned (value : A)
| Threw (e : thrown).

Arguments Returned {A}.
Arguments Threw {A}.

Definition bind {A B : Type} (m : outcome A) (k : A -> outcome B) : outcome B :=
  match m with
  | Returned v => k v
  | Threw e => Threw e
  end.

(** [try { body } catch (error) { handler }] *)
Definition tryCatch {A : Type} (body : outcome A) (handler : thrown -> outcome A)
  : outcome A :=
  match body with
  | Returned v => Returned v
  | Threw e => handler e
  end.

(** [throw new Error(message)] *)
Definition throwError {A : Type} (message : string) : outcome A :=
  Threw (ErrorObject message).

(** [Array.prototype.slice] and [String.prototype.slice]: a negative
    index counts from the end, and both ends are clamped. *)
Definition relativeIndex (len i : Z) : Z :=
  if (i <? 0)%Z then Z.max (len + i) 0 else Z.min i len.

Definition slice {A : Type} (l : list A) (from to : Z) : list A :=
  let len := Z.of_nat (List.length l) in
  let k := relativeIndex len from in
  let final := relativeIndex len to in
  firstn (Z.to_nat (final - k)) (skipn (Z.to_nat k) l).

(** A stable insertion sort.  [before y x] says that [y] has to come
    strictly before [x]; an element moves past those only. *)
Fixpoint insertBy {A : Type} (before : A -> A -> bool) (x : A) (l : list A)
  : list A :=
  match l with
  | [] => [x]
  | y :: l' => if before y x then y :: insertBy before x l' else x :: l
  end.

Definition sortBy {A : Type} (before : A -> A -> bool) (l : list A) : list A :=
  fold_right (insertBy before) [] l.

(** [Array.prototype.sort(comparefn)]: [a] is placed before [b] when
    [comparefn(a, b) < 0], and a result that is NaN counts as [0], as
    [SortCompare] has it.  The sort is stable (ECMAScript 2019), so when
    [comparefn] read in this way is a consistent comparison the result
    is determined and is this one; for [b.similarity - a.similarity],
    the comparator of this program, that is the case when no similarity
    is NaN.  With a NaN similarity the comparison is not consistent and
    the language leaves the order to the implementation: the definition
    then gives the order of a stable insertion, and the properties that
    speak of the order of a sorted array are stated for similarities
    without NaN. *)
Definition sort {A : Type} (comparefn : A -> A -> float) (l : list A) : list A :=
  sortBy (fun a b => (comparefn a b <? 0)%float) l.

(** Calls to the outside recorded in the order they are made: a
    computation takes the log so far and yields its completion and the
    extended log. *)
Definition traced (E A : Type) : Type := list E -> outcome A * list E.

Definition ret {E A : Type} (v : A) : traced E A := fun log => (Returned v, log).

Definition raise {E A : Type} (e : thrown) : traced E A := fun log => (Threw e, log).

Definition bindT {E A B : Type} (m : traced E A) (k : A -> traced E B)
  : traced E B :=
  fun log =>
    match m log with
    | (Returned v, log') => k v log'
    | (Threw e, log') => (Threw e, log')
    end.

(** An outside call [e] that completes with [result]. *)
Definition call {E A : Type} (e : E) (result : outcome A) : traced E A :=
  fun log => (result, log ++ [e]).

Definition tryCatchT {E A : Type} (body : traced E A)
  (handler : thrown -> traced E A) : traced E A :=
  fun log =>
    match body log with
    | (Returned v, log') => (Returned v, log')
    | (Threw e, log') => handler e log'
    end.

Definition run {E A : Type} (m : traced E A) : outcome A * list E := m [].

End Js.

Declare Scope traced_scope.
Delimit Scope traced_scope with traced.
Notation "x <- m ;; k" := (Js.bindT m (fun x => k))
  (at level 100, m at next level, right associativity) : traced_scope.

(** ** Numbers *)

Module Num.

Local Open Scope float_scope.

(** The one not-a-number value; [0 / 0] evaluates to it. *)
Definition is_nan (x : float) : bool := negb (x =? x).

(** Signed zeros: [x == 0] in JavaScript holds of [+0] and [-0] only. *)
Definition is_zero (x : float) : bool := x =? 0.

(** Zero or not-a-number: the values a sum of products with zeros takes. *)
Definition zero_or_nan (x : float) : Prop :=
  match Prim2SF x with
  | S754_zero _ | S754_nan => True
  | _ => False
  end.

(** [|x - 1| <= tolerance], false of NaN. *)
Definition approx_one (tolerance x : float) : bool :=
  abs (x - 1) <=? tolerance.

(** [-1 <= x && x <= 1], false of NaN. *)
Definition in_unit_range (x : float) : bool := (-1 <=? x) && (x <=? 1).

(** [Number.isFinite(x)]: neither NaN nor an infinity. *)
Definition isFinite (x : float) : bool :=
  match Prim2SF x with
  | S754_zero _ | S754_finite _ _ _ => true
  | S754_infinity _ | S754_nan => false
  end.

(** A vector all of whose components are zeros. *)
Definition all_zero (a : list float) : bool := forallb is_zero a.

End Num.

(** ** Binary64 values as the specification of the kernel has them *)

Module Binary64.

Local Open Scope Z_scope.

(** A key whose lexicographic order is the order of the values that are
    not NaN: the class (negative infinity, negative, zero, positive,
    positive infinity), then exponent and mantissa, negated for negative
    values. *)
Definition key (x : spec_float) : Z * Z * Z :=
  match x with
  | S754_infinity true => (-2, 0, 0)
  | S754_finite true m e => (-1, - e, Zneg m)
  | S754_zero _ => (0, 0, 0)
  | S754_finite false m e => (1, e, Zpos m)
  | S754_infinity false => (2, 0, 0)
  | S754_nan => (3, 0, 0)
  end.

Definition lex3 (a b : Z * Z * Z) : comparison :=
  let '(a1, a2, a3) := a in
  let '(b1, b2, b3) := b in
  match (a1 ?= b1) with
  | Eq => match (a2 ?= b2) with
          | Eq => (a3 ?= b3)
          | c => c
          end
  | c => c
  end.

Definition lex_lt (a b : Z * Z * Z) : Prop :=
  let '(a1, a2, a3) := a in
  let '(b1, b2, b3) := b in
  (a1 < b1 \/ (a1 = b1 /\ (a2 < b2 \/ (a2 = b2 /\ a3 < b3)))).

Definition lex_le (a b : Z * Z * Z) : Prop :=
  let '(a1, a2, a3) := a in
  let '(b1, b2, b3) := b in
  (a1 < b1 \/ (a1 = b1 /\ (a2 < b2 \/ (a2 = b2 /\ a3 <= b3)))).

(** The result of rounding a non-zero number: finite or infinite, with
    the sign of the number. *)
Definition signed (s : bool) (r : spec_float) : Prop :=
  match r with
  | S754_finite s' _ _ | S754_infinity s' => s' = s
  | _ => False
  end.

(** The mantissa of a finite value, signed and aligned to exponent [ez]. *)
Definition aligned (s : bool) (m : positive) (e ez : Z) : Z :=
  cond_Zopp s (Zpos (fst (shl_align m e ez))).

(** Neither NaN nor an infinity, on the specification side. *)
Definition finiteSF (x : spec_float) : Prop :=
  match x with
  | S754_zero _ | S754_finite _ _ _ => True
  | _ => False
  end.

(** A normal number: a mantissa of 53 bits and an exponent in range. *)
Definition normal (m : positive) (e : Z) : Prop :=
  Zpos (digits2_pos m) = prec /\ SpecFloat.emin prec emax <= e <= emax - prec.

(** The binary64 value nearest to an integer, the integer itself when
    its size is below [2^53]. *)
Definition ofZ (z : Z) : spec_float := binary_normalize prec emax z 0 false.

(** Not below zero: a zero, a positive number, [+Infinity] or NaN. *)
Definition notNegative (x : spec_float) : Prop :=
  match x with
  | S754_finite true _ _ | S754_infinity true => False
  | _ => True
  end.

(** The values from [1 - 7 * 2^-53] to [1 + 4 * 2^-52]. *)
Definition nearOne (x : spec_float) : Prop :=
  exists mr er,
    x = S754_finite false mr er /\
    ((er = -53 /\ 2 ^ 53 - 7 <= Zpos mr < 2 ^ 53) \/
     (er = -52 /\ 2 ^ 52 <= Zpos mr <= 2 ^ 52 + 4)).

End Binary64.

(** ** Cosine similarity ([SupabaseVectorStore.cosineSimilarity]) *)

Module Similarity.

(** The arithmetic the function uses: the operations of the source on
    the numbers of the source, binary64 below. *)
Record arith (num : Type) : Type := Arith {
  zero : num;
  add : num -> num -> num;
  mul : num -> num -> num;
  div : num -> num -> num;
  sqrt : num -> num
}.

Arguments Arith {num}.
Arguments zero {num}.
Arguments add {num}.
Arguments mul {num}.
Arguments div {num}.
Arguments sqrt {num}.

Section Cosine.

Variable num : Type.
Variable A : arith num.

(** The three running sums of the [for] loop, in the order of its body. *)
Record sums : Type := Sums {
  dotProduct : num;
  normA : num;
  normB : num
}.

(** One pass of the loop body per index [i < a.length]. *)
Fixpoint accumulate (a b : list num) (s : sums) : sums :=
  match a, b with
  | x :: a', y :: b' =>
      accumulate a' b'
        (Sums (add A (dotProduct s) (mul A x y))
              (add A (normA s) (mul A x x))
              (add A (normB s) (mul A y y)))
  | _, _ => s
  end.

Definition cosineSimilarityOver (a b : list num) : num :=
  if negb (Nat.eqb (List.length a) (List.length b)) then zero A
  else
    let s := accumulate a b (Sums (zero A) (zero A) (zero A)) in
    div A (dotProduct s) (mul A (sqrt A (normA s)) (sqrt A (normB s))).

(** The sum of squares the loop computes for one vector. *)
Fixpoint sumSquares (a : list num) (acc : num) : num :=
  match a with
  | [] => acc
  | x :: a' => sumSquares a' (add A acc (mul A x x))
  end.

Definition swap (s : sums) : sums := Sums (dotProduct s) (normB s) (normA s).

End Cosine.

Arguments Sums {num}.
Arguments dotProduct {num}.
Arguments normA {num}.
Arguments normB {num}.
Arguments accumulate {num}.
Arguments sumSquares {num}.
Arguments cosineSimilarityOver {num}.
Arguments swap {num}.

(** JavaScript's [number]: [+], [*], [/] and [Math.sqrt] on binary64. *)
Definition float64 : arith float :=
  Arith 0%float PrimFloat.add PrimFloat.mul PrimFloat.div PrimFloat.sqrt.

Definition cosineSimilarity (a b : list float) : float :=
  cosineSimilarityOver float64 a b.

End Similarity.

(** ** The vector store ([lib/supabase-vector-store.ts]) *)

Module Store.

Import Js Similarity.

(** A row of the table [document_chunks].  [created_at] is the instant
    of [timestamp.toISOString()], in milliseconds. *)
Record SupabaseRow : Type := Row {
  id : string;
  text : string;
  embedding : list float;
  file_name : string;
  chunk_index : Z;
  created_at : Z;
  user_id : string
}.

Record Metadata : Type := Meta {
  fileName : string;
  chunkIndex : Z;
  timestamp : Z
}.

(** [DocumentChunk], and [Omit<DocumentChunk, 'id'>] for insertion. *)
Record DocumentChunk : Type := Chunk {
  doc_id : string;
  doc_text : string;
  doc_embedding : list float;
  metadata : Metadata
}.

Record NewChunk : Type := NewChunkOf {
  new_text : string;
  new_embedding : list float;
  new_metadata : Metadata
}.

(** How the database answers [rpc('match_documents', ...)]: the function
    is installed, or the call comes back with an error, or the client
    throws. *)
Inductive rpcMode : Type :=
| RpcInstalled
| RpcError (message : string)
| RpcThrows (e : thrown).

(** The backing store as the client sees it: the table, and which
    requests fail, with the message of the failure. *)
Record Supabase : Type := Backend {
  rows : list SupabaseRow;
  rpc_match_documents : rpcMode;
  selectError : option string;
  countError : option string;
  insertError : SupabaseRow -> option string;
  deleteError : option string
}.

(** The [{ data, error }] pair of a request. *)
Record response (A : Type) : Type := Response {
  data : option A;
  error : option string
}.

Arguments Response {A}.
Arguments data {A}.
Arguments error {A}.

Definition succeed {A : Type} (d : A) : response A := Response (Some d) None.
Definition fail {A : Type} (message : string) : response A :=
  Response None (Some message).

(** [.eq('user_id', userId)], [.limit(n)], [.order('created_at',
    { ascending: false })] on a selection of rows. *)
Definition eq_user_id (userId : string) (l : list SupabaseRow) : list SupabaseRow :=
  filter (fun row => String.eqb (user_id row) userId) l.

Definition limit (n : nat) (l : list SupabaseRow) : list SupabaseRow := firstn n l.

Definition order_created_at_desc (l : list SupabaseRow) : list SupabaseRow :=
  sortBy (fun newer older => (created_at older <? created_at newer)%Z) l.

(** [supabase.from(tableName).select('*')] followed by the modifiers [q]. *)
Definition select (db : Supabase) (q : list SupabaseRow -> list SupabaseRow)
  : response (list SupabaseRow) :=
  match selectError db with
  | Some message => fail message
  | None => succeed (q (rows db))
  end.

(** [.select('*', { count: 'exact', head: true })]: the [count] field. *)
Definition selectCount (db : Supabase) (q : list SupabaseRow -> list SupabaseRow)
  : response Z :=
  match countError db with
  | Some message => fail message
  | None => succeed (Z.of_nat (List.length (q (rows db))))
  end.

(** Modelled from the spec: the server-side ranking function
    [match_documents(query_embedding, match_threshold, match_count)],
    which is installed in the database and absent from the sources.  It
    ranks the rows of the table whose cosine similarity to the query
    exceeds the threshold, by descending similarity, and returns the
    first [match_count] of them. *)
Definition match_documents (table : list SupabaseRow)
  (query_embedding : list float) (match_threshold : float) (match_count : Z)
  : list SupabaseRow :=
  let similarity row := cosineSimilarity query_embedding (embedding row) in
  firstn (Z.to_nat match_count)
    (sortBy (fun a b => (similarity b <? similarity a)%float)
       (filter (fun row => (match_threshold <? similarity row)%float) table)).

(** [supabase.rpc('match_documents', ...)]: the response, or a throw. *)
Definition rpc (db : Supabase) (query_embedding : list float)
  (match_threshold : float) (match_count : Z)
  : outcome (response (list SupabaseRow)) :=
  match rpc_match_documents db with
  | RpcInstalled =>
      Returned (succeed (match_documents (rows db) query_embedding
                           match_threshold match_count))
  | RpcError message => Returned (fail message)
  | RpcThrows e => Threw e
  end.

(** The mapping of a row to [DocumentChunk] that every reader applies. *)
Definition toChunk (row : SupabaseRow) : DocumentChunk :=
  Chunk (id row) (text row) (embedding row)
        (Meta (file_name row) (chunk_index row) (created_at row)).

(** [data || []] *)
Definition orEmpty {A : Type} (d : option (list A)) : list A :=
  match d with
  | Some l => l
  | None => []
  end.

(** A row with the similarity [searchWithDirectQuery] attaches to it. *)
Record SimilarityRow : Type := WithSimilarity {
  row : SupabaseRow;
  similarity : float
}.

Definition searchWithDirectQuery (db : Supabase) (queryEmbedding : list float)
  (topK : Z) (userId : string) : outcome (list DocumentChunk) :=
  let r := select db (fun l => limit 500 (eq_user_id userId l)) in
  match error r, data r with
  | None, Some allData =>
      let similarities :=
        map (fun row =>
               WithSimilarity row (cosineSimilarity queryEmbedding (embedding row)))
            allData in
      let similarities :=
        sort (fun a b => (similarity b - similarity a)%float) similarities in
      Returned
        (map (fun item => toChunk (row item))
           (filter (fun item => (0.5 <? similarity item)%float)
              (slice similarities 0 topK)))
  | _, _ => Returned []
  end.

Definition search (db : Supabase) (queryEmbedding : list float) (topK : Z)
  (userId : string) : outcome (list DocumentChunk) :=
  tryCatch
    (bind (rpc db queryEmbedding 0.5%float topK) (fun r =>
       match error r with
       | Some _ => searchWithDirectQuery db queryEmbedding topK userId
       | None =>
           Returned
             (map toChunk
                (filter (fun row => String.eqb (user_id row) userId)
                   (orEmpty (data r))))
       end))
    (fun _ => searchWithDirectQuery db queryEmbedding topK userId).

Definition getAllDocuments (db : Supabase) (userId : string)
  : outcome (list DocumentChunk) :=
  let r := select db (fun l => order_created_at_desc (eq_user_id userId l)) in
  match error r with
  | Some _ => Returned []
  | None => Returned (map toChunk (orEmpty (data r)))
  end.

(** [count || 0] *)
Definition orZero (count : option Z) : Z :=
  match count with
  | Some n => n
  | None => 0
  end.

Definition getCount (db : Supabase) (userId : string) : outcome Z :=
  let r := selectCount db (eq_user_id userId) in
  match error r with
  | Some _ => Returned 0%Z
  | None => Returned (orZero (data r))
  end.

(** [.insert(row)]: the row is appended unless the store refuses it. *)
Definition insert (db : Supabase) (r : SupabaseRow) : response unit * Supabase :=
  match insertError db r with
  | Some message => (fail message, db)
  | None =>
      (succeed tt,
       Backend (rows db ++ [r]) (rpc_match_documents db) (selectError db)
               (countError db) (insertError db) (deleteError db))
  end.

(** The [for] loop of [addDocuments]; [uuidv4 n] is the identifier the
    [n]-th call of [uuidv4()] returns, [ids] the identifiers pushed so
    far.  A failing insert throws and leaves the earlier rows stored. *)
Fixpoint addLoop (db : Supabase) (uuidv4 : nat -> string) (n : nat)
  (chunks : list NewChunk) (userId : string) (ids : list string)
  : outcome (list string) * Supabase :=
  match chunks with
  | [] => (Returned ids, db)
  | chunk :: rest =>
      let id := uuidv4 n in
      let '(r, db') :=
        insert db (Row id (new_text chunk) (new_embedding chunk)
                       (fileName (new_metadata chunk))
                       (chunkIndex (new_metadata chunk))
                       (timestamp (new_metadata chunk)) userId) in
      match error r with
      | Some message =>
          (throwError ("Failed to insert document chunk: " ++ message), db')
      | None => addLoop db' uuidv4 (S n) rest userId (ids ++ [id])
      end
  end.

Definition addDocuments (db : Supabase) (uuidv4 : nat -> string)
  (chunks : list NewChunk) (userId : string)
  : outcome (list string) * Supabase :=
  addLoop db uuidv4 0 chunks userId [].

(** [.delete().eq('user_id', userId)] *)
Definition clear (db : Supabase) (userId : string) : outcome unit * Supabase :=
  match deleteError db with
  | Some message =>
      (throwError ("Failed to clear documents: " ++ message), db)
  | None =>
      (Returned tt,
       Backend (filter (fun row => negb (String.eqb (user_id row) userId)) (rows db))
               (rpc_match_documents db) (selectError db)
               (countError db) (insertError db) (deleteError db))
  end.

(** *** Vocabulary of the properties *)

(** What the readers of the store consult besides the rows. *)
Definition sameService (db db' : Supabase) : Prop :=
  rpc_match_documents db' = rpc_match_documents db /\
  selectError db' = selectError db /\
  countError db' = countError db.

(** Every chunk of [found] is a stored row of [userId]. *)
Definition fromOwner (db : Supabase) (userId : string)
  (found : list DocumentChunk) : Prop :=
  forall c, In c found ->
    exists r, In r (rows db) /\ user_id r = userId /\ c = toChunk r.

(** The similarity of a returned chunk to the query. *)
Definition similarityTo (queryEmbedding : list float) (c : DocumentChunk) : float :=
  cosineSimilarity queryEmbedding (doc_embedding c).

(** Ranked by descending similarity: every chunk is at least as similar
    to the query as all the chunks after it. *)
Definition descending (queryEmbedding : list float)
  (found : list DocumentChunk) : Prop :=
  StronglySorted
    (fun a b =>
       (similarityTo queryEmbedding b <=? similarityTo queryEmbedding a)%float = true)
    found.

(** None of the rows has a NaN similarity to the query. *)
Definition numbers (queryEmbedding : list float) (candidates : list SupabaseRow)
  : Prop :=
  Forall (fun r =>
            Num.is_nan (cosineSimilarity queryEmbedding (embedding r)) = false)
         candidates.

(** Every chunk is strictly above the threshold of the source. *)
Definition aboveThreshold (queryEmbedding : list float)
  (found : list DocumentChunk) : Prop :=
  Forall (fun c => (0.5 <? similarityTo queryEmbedding c)%float = true) found.

End Store.

(** ** The chunker ([splitTextIntoChunks] in [lib/document-processor.ts]) *)

Module Chunker.

Import Js.

(** The loop of [splitTextIntoChunks] as it runs when [chunkSize] and
    [overlap] are integers, character counts, as the defaults 1000 and
    200 are: the cursor is then an integer at every iteration.  The
    parameters are declared [number]; the module [ChunkerNum] below is
    the loop on binary64 values, and
    [ChunkerNumSpec.splitTextIntoChunks_integers] shows that on numbers
    that are integers it computes what this one does on those integers.  A string is its
    sequence of code units; [ascii] stands for a code unit. *)
Definition jsstring : Type := list ascii.

(** The code units [String.prototype.trim] strips (white space and line
    terminators), among those that fit a byte: tab, line feed, vertical
    tab, form feed, carriage return, space and no-break space. *)
Definition isWhiteSpace (c : ascii) : bool :=
  let n := nat_of_ascii c in
  ((9 <=? n) && (n <=? 13) || (n =? 32) || (n =? 160))%nat.

Fixpoint trimStart (s : jsstring) : jsstring :=
  match s with
  | c :: s' => if isWhiteSpace c then trimStart s' else s
  | [] => []
  end.

Definition trimEnd (s : jsstring) : jsstring := rev (trimStart (rev s)).

Definition trim (s : jsstring) : jsstring := trimEnd (trimStart s).

(** [s.lastIndexOf(c)] for a one-character [c]: the scan keeps the last
    index at which [c] occurred, [-1] when there is none. *)
Fixpoint lastIndexFrom (s : jsstring) (c : ascii) (i found : Z) : Z :=
  match s with
  | [] => found
  | x :: s' => lastIndexFrom s' c (i + 1) (if Ascii.eqb x c then i else found)
  end.

Definition lastIndexOf (s : jsstring) (c : ascii) : Z := lastIndexFrom s c 0 (-1).

Definition period : ascii := "."%char.
Definition newline : ascii := "010"%char.

(** The variables of the [while] loop. *)
Record loopState : Type := Loop {
  start : Z;
  chunks : list jsstring
}.

(** [chunks.push(chunk.trim())] when [chunk.trim().length > 0]. *)
Definition pushTrimmed (chunks : list jsstring) (chunk : jsstring) : list jsstring :=
  if (0 <? Z.of_nat (List.length (trim chunk)))%Z then chunks ++ [trim chunk]
  else chunks.

Section Loop.

Variable text : jsstring.
Variables chunkSize overlap : Z.

Definition textLength : Z := Z.of_nat (List.length text).

(** One iteration of the loop body.  [breakPoint > chunkSize * 0.5] is
    [chunkSize < 2 * breakPoint] on integers. *)
Definition step (st : loopState) : loopState :=
  let end_ := Z.min (start st + chunkSize) textLength in
  let chunk := slice text (start st) end_ in
  if (end_ <? textLength)%Z then
    let lastPeriod := lastIndexOf chunk period in
    let lastNewline := lastIndexOf chunk newline in
    let breakPoint := Z.max lastPeriod lastNewline in
    if (chunkSize <? 2 * breakPoint)%Z then
      Loop (start st + (breakPoint + 1))
           (pushTrimmed (chunks st) (slice chunk 0 (breakPoint + 1)))
    else
      Loop (end_ - overlap) (pushTrimmed (chunks st) chunk)
  else
    Loop end_ (pushTrimmed (chunks st) chunk).

(** [while (start < text.length) { ... }] with a bound on the number of
    iterations: [None] when the bound is reached before the loop exits. *)
Fixpoint loop (fuel : nat) (st : loopState) : option (list jsstring) :=
  if (start st <? textLength)%Z then
    match fuel with
    | O => None
    | S fuel' => loop fuel' (step st)
    end
  else Some (chunks st).

End Loop.

Definition splitTextIntoChunks (fuel : nat) (text : jsstring)
  (chunkSize overlap : Z) : option (list jsstring) :=
  loop text chunkSize overlap fuel (Loop 0 []).

(** The default parameters of the source. *)
Definition defaultChunkSize : Z := 1000.
Definition defaultOverlap : Z := 200.

(** *** Vocabulary of the properties *)

Local Open Scope Z_scope.

(** The end of the slice taken at cursor [s], and the break point found
    in it. *)
Definition cutEnd (text : jsstring) (chunkSize s : Z) : Z :=
  Z.min (s + chunkSize) (textLength text).

Definition breakPointAt (text : jsstring) (chunkSize s : Z) : Z :=
  let chunk := slice text s (cutEnd text chunkSize s) in
  Z.max (lastIndexOf chunk period) (lastIndexOf chunk newline).

(** A string of white space only. *)
Definition allWhiteSpace (s : jsstring) : Prop :=
  Forall (fun c => isWhiteSpace c = true) s.

(** [chunk] is [raw] without white space at its two ends. *)
Definition trimmedOf (raw chunk : jsstring) : Prop :=
  exists l r, raw = l ++ chunk ++ r /\ allWhiteSpace l /\ allWhiteSpace r.

(** The chunks kept from a sequence of raw slices: each chunk is a slice
    without the white space at its ends, and a slice that leaves no
    chunk is white space only. *)
Inductive keeps : list jsstring -> list jsstring -> Prop :=
| keeps_nil : keeps [] []
| keeps_drop : forall raw raws chunks,
    allWhiteSpace raw -> keeps raws chunks -> keeps (raw :: raws) chunks
| keeps_chunk : forall raw raws chunk chunks,
    trimmedOf raw chunk -> chunk <> [] -> keeps raws chunks ->
    keeps (raw :: raws) (chunk :: chunks).

(** A piece is a slice of the text together with its offset. *)
Definition isSliceOf (text : jsstring) (piece : Z * jsstring) : Prop :=
  0 <= fst piece /\
  snd piece =
  slice text (fst piece) (fst piece + Z.of_nat (List.length (snd piece))).

(** Concatenation with the overlapping prefixes removed: [covered] is
    the offset up to which the text has been emitted; from each piece
    the part before [covered] is dropped. *)
Fixpoint reassemble (covered : Z) (pieces : list (Z * jsstring)) : jsstring :=
  match pieces with
  | [] => []
  | (offset, raw) :: rest =>
      skipn (Z.to_nat (covered - offset)) raw
      ++ reassemble (Z.max covered (offset + Z.of_nat (List.length raw))) rest
  end.

(** No gap, and no piece repeats more than [overlap] characters. *)
Fixpoint overlapsWithin (overlap covered : Z) (pieces : list (Z * jsstring))
  : Prop :=
  match pieces with
  | [] => True
  | (offset, raw) :: rest =>
      offset <= covered <= offset + overlap /\
      overlapsWithin overlap
        (Z.max covered (offset + Z.of_nat (List.length raw))) rest
  end.

(** A chunk as the loop pushes it: non-empty, and neither its first nor
    its last character is white space. *)
Definition wellTrimmed (chunk : jsstring) : Prop :=
  exists c t,
    chunk = c :: t /\ isWhiteSpace c = false /\
    isWhiteSpace (last chunk c) = false.

End Chunker.

(** ** [splitTextIntoChunks] on numbers *)

(** [chunkSize] and [overlap] are declared [number]: any binary64
    value can be passed.  This module is the loop as it runs on
    numbers: the cursor, the end of the slice and the break point are
    floats, [text.length] and the results of [lastIndexOf] are integers
    converted to floats, and [slice] truncates its arguments.  The
    module [Chunker] above is the same loop on integers, which is how it
    runs when both parameters are integers (the defaults are). *)
Module ChunkerNum.

Import Js Num.
Export Chunker(jsstring, isWhiteSpace, trim, lastIndexOf, period, newline,
               pushTrimmed).

Local Open Scope float_scope.

(** The number that an integer result ([length], [lastIndexOf]) is:
    the conversion is exact below [2^53], where lengths and indices
    are. *)
Definition ofInt (z : Z) : float :=
  if (z <? 0)%Z then - of_uint63 (Uint63.of_Z (- z))
  else of_uint63 (Uint63.of_Z z).

(** [Math.min] and [Math.max]: NaN when an argument is NaN, and [-0]
    below [+0]. *)
Definition mathMin (x y : float) : float :=
  if is_nan x || is_nan y then nan
  else if x <? y then x
  else if y <? x then y
  else if get_sign x then x else y.

Definition mathMax (x y : float) : float :=
  if is_nan x || is_nan y then nan
  else if x <? y then y
  else if y <? x then x
  else if get_sign x then y else x.

(** [ToIntegerOrInfinity], as [slice] applies it to its arguments: NaN
    is 0, the fraction is dropped, and an infinity is beyond every
    index, for which [bound] stands. *)
Definition toInteger (bound : Z) (x : float) : Z :=
  match Prim2SF x with
  | S754_finite s m e =>
      let n := if (0 <=? e)%Z then Z.shiftl (Zpos m) e
               else Z.shiftr (Zpos m) (- e) in
      if s then (- n)%Z else n
  | S754_infinity s => if s then (- bound)%Z else bound
  | _ => 0%Z
  end.

(** [s.slice(from, to)] with numbers for [from] and [to]. *)
Definition sliceNum (s : jsstring) (from to : float) : jsstring :=
  let len := Z.of_nat (List.length s) in
  slice s (toInteger len from) (toInteger len to).

(** The variables of the [while] loop. *)
Record loopState : Type := Loop {
  start : float;
  chunks : list jsstring
}.

Section Loop.

Variable text : jsstring.
Variables chunkSize overlap : float.

Definition textLength : float := ofInt (Z.of_nat (List.length text)).

(** One iteration of the loop body. *)
Definition step (st : loopState) : loopState :=
  let end_ := mathMin (start st + chunkSize) textLength in
  let chunk := sliceNum text (start st) end_ in
  if end_ <? textLength then
    let lastPeriod := ofInt (lastIndexOf chunk period) in
    let lastNewline := ofInt (lastIndexOf chunk newline) in
    let breakPoint := mathMax lastPeriod lastNewline in
    if chunkSize * 0.5 <? breakPoint then
      Loop (start st + (breakPoint + 1))
           (pushTrimmed (chunks st) (sliceNum chunk 0 (breakPoint + 1)))
    else
      Loop (end_ - overlap) (pushTrimmed (chunks st) chunk)
  else
    Loop end_ (pushTrimmed (chunks st) chunk).

(** [while (start < text.length) { ... }] with a bound on the number of
    iterations: [None] when the bound is reached before the loop exits. *)
Fixpoint loop (fuel : nat) (st : loopState) : option (list jsstring) :=
  if start st <? textLength then
    match fuel with
    | O => None
    | S fuel' => loop fuel' (step st)
    end
  else Some (chunks st).

End Loop.

Definition splitTextIntoChunks (fuel : nat) (text : jsstring)
  (chunkSize overlap : float) : option (list jsstring) :=
  loop text chunkSize overlap fuel (Loop 0 []).

(** *** Vocabulary of the properties *)

(** The state of the loop on numbers when the cursor is the integer of
    a state of the loop on integers. *)
Definition inject (st : Chunker.loopState) : loopState :=
  Loop (ofInt (Chunker.start st)) (Chunker.chunks st).

Local Open Scope Z_scope.

(** [Number.isInteger]: a finite number without a fraction. *)
Definition isInteger (x : float) : bool :=
  match Prim2SF x with
  | S754_zero _ => true
  | S754_finite _ m e => (0 <=? e) || (Zpos m mod 2 ^ (- e) =? 0)
  | _ => false
  end.

(** The integer that such a number is. *)
Definition integerOf (x : float) : Z := toInteger 0 x.

(** The states of the loop at the head of an iteration. *)
Inductive reaches (text : jsstring) (chunkSize overlap : float)
  : loopState -> Prop :=
| reaches_start : reaches text chunkSize overlap (Loop 0 [])
| reaches_step : forall st,
    reaches text chunkSize overlap st ->
    (start st <? textLength text)%float = true ->
    reaches text chunkSize overlap (step text chunkSize overlap st).

End ChunkerNum.

(** ** The embedding client ([lib/embeddings.ts]) *)

Module Embeddings.

Import Js.

(** The [embedding] field of the provider's result: an array, an object
    with or without [values], or nothing. *)
Inductive embeddingField : Type :=
| AsArray (vector : list float)
| AsObject (values : option (list float))
| Absent.

(** How the promise of one [model.embedContent(text)] settles. *)
Inductive settled : Type :=
| Fulfilled (embedding : embeddingField)
| Rejected (reason : thrown).

(** A pending call: how it settles and when. *)
Record promise : Type := Promise {
  settles : settled;
  settledAt : nat
}.

(** The rejection [Promise.all] adopts: the first one in time, and of
    two at the same time the one of the earlier promise. *)
Fixpoint earliestRejection (ps : list promise) : option (nat * thrown) :=
  match ps with
  | [] => None
  | p :: rest =>
      let later := earliestRejection rest in
      match settles p with
      | Fulfilled _ => later
      | Rejected e =>
          match later with
          | Some (t, e') =>
              if (t <? settledAt p)%nat then Some (t, e') else Some (settledAt p, e)
          | None => Some (settledAt p, e)
          end
      end
  end.

Fixpoint fulfilments (ps : list promise) : list embeddingField :=
  match ps with
  | [] => []
  | p :: rest =>
      match settles p with
      | Fulfilled r => r :: fulfilments rest
      | Rejected _ => fulfilments rest
      end
  end.

(** [await Promise.all(promises)] *)
Definition promiseAll (ps : list promise) : outcome (list embeddingField) :=
  match earliestRejection ps with
  | Some (_, e) => Threw e
  | None => Returned (fulfilments ps)
  end.

(** The body shared by both functions: read the vector off a result,
    throwing [new Error(missing)] when there is none. *)
Definition vectorOf (missing : string) (result : embeddingField)
  : outcome (list float) :=
  match result with
  | AsArray vector => Returned vector
  | AsObject (Some values) => Returned values
  | AsObject None => throwError missing
  | Absent => throwError missing
  end.

(** [results.map(callback)] with a callback that may throw. *)
Fixpoint mapOutcome {A B : Type} (f : A -> outcome B) (l : list A)
  : outcome (list B) :=
  match l with
  | [] => Returned []
  | x :: rest =>
      bind (f x) (fun y => bind (mapOutcome f rest) (fun ys => Returned (y :: ys)))
  end.

(** [texts.map(text => model.embedContent(text))]: the calls are issued
    in the order of the texts; [embedContent i text] is the [i]-th. *)
Fixpoint issue (embedContent : nat -> string -> promise) (i : nat)
  (texts : list string) : list promise :=
  match texts with
  | [] => []
  | text :: rest => embedContent i text :: issue embedContent (S i) rest
  end.

Definition generateEmbedding (embedContent : string -> settled) (text : string)
  : outcome (list float) :=
  tryCatch
    (match embedContent text with
     | Fulfilled result =>
         vectorOf "No embedding returned from Gemini - unexpected response structure"
                  result
     | Rejected e => Threw e
     end)
    (fun error =>
       throwError ("Failed to generate embedding: " ++ messageOr "Unknown error" error)).

Definition generateEmbeddings (embedContent : nat -> string -> promise)
  (texts : list string) : outcome (list (list float)) :=
  tryCatch
    (bind (promiseAll (issue embedContent 0 texts)) (fun results =>
       mapOutcome (vectorOf "No embedding returned from Gemini") results))
    (fun error =>
       throwError ("Failed to generate embeddings: " ++ messageOr "Unknown error" error)).


(** *** Vocabulary of the properties *)

Definition missing : string := "No embedding returned from Gemini".

Definition rejects (p : promise) : Prop := exists e, settles p = Rejected e.

(** The vector a fulfilled promise carries. *)
Definition carries (p : promise) (v : list float) : Prop :=
  exists r, settles p = Fulfilled r /\ vectorOf missing r = Returned v.



End Embeddings.

(** ** PDF extraction ([processPDF] in [lib/document-processor.ts]) *)

Module Extractor.

Import Js.
Local Open Scope traced_scope.

Definition Buffer : Type := list Byte.byte.

Record ProcessedDocument : Type := Processed {
  text : string;
  fileName : string;
  fileType : string
}.

(** The three extraction methods, in the order of the source. *)
Inductive method : Type :=
| PdfParse
| Pdf2Json
| PdfjsDist.

Section ProcessPDF.

(** [processPDFWithPDFParse], [processPDFWithPDF2JSON] and
    [processPDFWithPDFJSDist]: each wraps a parsing library and either
    returns a document or throws. *)
Variable extractWith : method -> Buffer -> string -> outcome ProcessedDocument.

Definition attempt (m : method) (buffer : Buffer) (fileName : string)
  : traced method ProcessedDocument :=
  call m (extractWith m buffer fileName).

Definition processPDF (buffer : Buffer) (fileName : string)
  : traced method ProcessedDocument :=
  tryCatchT (attempt PdfParse buffer fileName) (fun error1 =>
    tryCatchT (attempt Pdf2Json buffer fileName) (fun error2 =>
      tryCatchT (attempt PdfjsDist buffer fileName) (fun error3 =>
        raise (ErrorObject
          ("Failed to extract text from PDF. Tried 3 different methods. The PDF may be image-based, encrypted, or corrupted. Last error: "
           ++ messageOr "Unknown error" error3))))).

End ProcessPDF.

(** The error [processPDF] throws when the last method threw [error3]. *)
Definition aggregate (error3 : thrown) : thrown :=
  ErrorObject
    ("Failed to extract text from PDF. Tried 3 different methods. The PDF may be image-based, encrypted, or corrupted. Last error: "
     ++ messageOr "Unknown error" error3).

End Extractor.

(** ** The chat route ([POST] in [app/api/chat/route.ts]) *)

Module Chat.

Import Js Store.
Local Open Scope traced_scope.
Local Open Scope string_scope.

(** The [message] field of the request body. *)
Inductive jsonValue : Type :=
| JsonString (s : string)
| JsonOther
| JsonUndefined.

Record Source : Type := SourceOf {
  source_fileName : string;
  source_chunkIndex : Z
}.

(** The bodies the route answers with. *)
Inductive body : Type :=
| ErrorBody (error : string)
| ReplyBody (response : string) (sources : option (list Source)).

Record httpResponse : Type := Http {
  status : Z;
  json : body
}.

(** The calls the route makes to its collaborators. *)
Inductive request : Type :=
| AuthGetUser
| RequestJson
| StoreGetCount (userId : string)
| EmbedContent (text : string)
| StoreSearch (userId : string)
| GenerateContent (prompt : string).

Record Environment : Type := Env {
  getUser : outcome (option string);
  requestMessage : outcome jsonValue;
  database : Supabase;
  embedContent : string -> Embeddings.settled;
  generateContent : string -> outcome string
}.

Definition newline : string := String "010"%char EmptyString.

Definition numberToString (n : nat) : string :=
  NilEmpty.string_of_uint (Nat.to_uint n).

(** [docs.map((doc, index) => ...)] from [index] on. *)
Fixpoint documentBlocks (index : nat) (docs : list DocumentChunk) : list string :=
  match docs with
  | [] => []
  | doc :: rest =>
      ("[Document " ++ numberToString (index + 1) ++ " from "
         ++ fileName (metadata doc) ++ "]:" ++ newline ++ doc_text doc)
      :: documentBlocks (S index) rest
  end.

Definition buildContext (relevantDocs : list DocumentChunk) : string :=
  String.concat (newline ++ newline ++ "---" ++ newline ++ newline)
    (documentBlocks 0 relevantDocs).

Definition buildPrompt (context message : string) : string :=
  "You are a helpful AI assistant that answers questions based on the provided business documents. Use only the information from the documents to answer questions. If the answer is not in the documents, say so politely."
  ++ newline ++ newline ++ "Context from documents:" ++ newline ++ context
  ++ newline ++ newline ++ "User Question: " ++ message
  ++ newline ++ newline ++ "Answer based on the context above:".

Definition guidance : string :=
  "Please upload business documents first before asking questions.".

(** [text || fallback] on strings *)
Definition orElse (text fallback : string) : string :=
  match text with
  | EmptyString => fallback
  | _ => text
  end.

Definition POST (env : Environment) : traced request httpResponse :=
  tryCatchT
    (user <- call AuthGetUser (getUser env) ;;
     match user with
     | None => ret (Http 401 (ErrorBody "Unauthorized. Please sign in."))
     | Some userId =>
         message <- call RequestJson (requestMessage env) ;;
         match message with
         | JsonString (String c rest as message) =>
             documentCount <- call (StoreGetCount userId)
                                   (getCount (database env) userId) ;;
             if (documentCount =? 0)%Z then
               ret (Http 200 (ReplyBody guidance None))
             else
               queryEmbedding <- call (EmbedContent message)
                 (Embeddings.generateEmbedding (embedContent env) message) ;;
               relevantDocs <- call (StoreSearch userId)
                 (search (database env) queryEmbedding 5 userId) ;;
               let prompt := buildPrompt (buildContext relevantDocs) message in
               answer <- call (GenerateContent prompt) (generateContent env prompt) ;;
               ret (Http 200
                      (ReplyBody
                         (orElse answer "Sorry, I could not generate a response.")
                         (Some (map (fun doc =>
                                       SourceOf (fileName (metadata doc))
                                                (chunkIndex (metadata doc)))
                                    relevantDocs))))
         | _ => ret (Http 400 (ErrorBody "Message is required"))
         end
     end)
    (fun error =>
       ret (Http 500 (ErrorBody (messageOr "Failed to process chat message" error)))).

End Chat.

(** ** Sample data for the concrete runs of Part II *)

Module Samples.

Import Js Store.
Local Open Scope string_scope.
Local Open Scope float_scope.

Definition rowOf (id : string) (embedding : list float) (userId : string)
  : SupabaseRow :=
  Row id "text" embedding "handbook.txt" 0 0 userId.

(** Three rows of one owner, in table order: similarity [0.6] to the
    query [[1, 0]], a zero vector, and similarity [1]. *)
Definition r1 : SupabaseRow := rowOf "r1" [3; 4] "u".
Definition r2 : SupabaseRow := rowOf "r2" [0; 0] "u".
Definition r3 : SupabaseRow := rowOf "r3" [1; 0] "u".

(** A database without the server-side function [match_documents]. *)
Definition withoutRpc (table : list SupabaseRow) : Supabase :=
  Backend table (RpcError "function match_documents does not exist")
          None None (fun _ => None) None.

(** A database with the function installed. *)
Definition withRpc (table : list SupabaseRow) : Supabase :=
  Backend table RpcInstalled None None (fun _ => None) None.

(** A database whose reads fail. *)
Definition unreachable (table : list SupabaseRow) : Supabase :=
  Backend table (RpcError "connection refused")
          (Some "connection refused") (Some "connection refused")
          (fun _ => None) None.

Definition uuids (n : nat) : string :=
  "id-" ++ NilEmpty.string_of_uint (Nat.to_uint n).

Definition newChunk : NewChunk :=
  NewChunkOf "text" [1; 0] (Meta "notes.txt" 0 0).

(** A request of a user without documents; both models fail if called. *)
Definition emptyCorpus : Chat.Environment :=
  Chat.Env (Returned (Some "u"))
           (Returned (Chat.JsonString "What are the opening hours?"))
           (withRpc [])
           (fun _ => Embeddings.Rejected NonError)
           (fun _ => Threw NonError).


(** A provider that answers every call, in either shape. *)
Definition answering (i : nat) (text : string) : Embeddings.promise :=
  if Nat.even i
  then Embeddings.Promise (Embeddings.Fulfilled (Embeddings.AsArray [1; 0])) i
  else Embeddings.Promise
         (Embeddings.Fulfilled (Embeddings.AsObject (Some [0; 1]))) 0.

(** A short text for the chunker. *)
Definition sentences : Chunker.jsstring :=
  list_ascii_of_string
    "Hello world. This is a test of the chunker. It has  several sentences.".

End Samples.

(** * Part I, continued: the rest of the code *)

(** ** The vector store: what [addDocuments] builds *)

Module Inserted.

Import Js Store.

(** The row the loop of [addDocuments] inserts for a chunk. *)
Definition rowFor (id : string) (chunk : NewChunk) (userId : string)
  : SupabaseRow :=
  Row id (new_text chunk) (new_embedding chunk)
      (fileName (new_metadata chunk)) (chunkIndex (new_metadata chunk))
      (timestamp (new_metadata chunk)) userId.

(** The rows for a list of chunks, the first with the identifier of the
    [n]-th call of [uuidv4()]. *)
Fixpoint rowsFor (uuidv4 : nat -> string) (n : nat) (chunks : list NewChunk)
  (userId : string) : list SupabaseRow :=
  match chunks with
  | [] => []
  | chunk :: rest =>
      rowFor (uuidv4 n) chunk userId :: rowsFor uuidv4 (S n) rest userId
  end.

(** The chunk a reader gets back for a stored chunk. *)
Definition stored (id : string) (chunk : NewChunk) : DocumentChunk :=
  Chunk id (new_text chunk) (new_embedding chunk) (new_metadata chunk).

End Inserted.

(** ** The in-memory vector store ([VectorStore], the second backend) *)

Module MemoryStore.

Import Js Similarity.

(** The field [documents] of the store. *)
Definition VectorStore : Type := list Store.DocumentChunk.

(** The [for] loop of [addDocuments]: [{ ...chunk, id }] is pushed and
    the identifier recorded. *)
Fixpoint addLoop (documents : VectorStore) (uuidv4 : nat -> string) (n : nat)
  (chunks : list Store.NewChunk) (ids : list string)
  : list string * VectorStore :=
  match chunks with
  | [] => (ids, documents)
  | chunk :: rest =>
      let id := uuidv4 n in
      addLoop (documents ++ [Inserted.stored id chunk]) uuidv4 (S n) rest
              (ids ++ [id])
  end.

Definition addDocuments (documents : VectorStore) (uuidv4 : nat -> string)
  (chunks : list Store.NewChunk) : list string * VectorStore :=
  addLoop documents uuidv4 0 chunks [].

(** An element of [similarities]. *)
Record scored : Type := Scored {
  document : Store.DocumentChunk;
  similarity : float
}.

(** [search]; the private [cosineSimilarity] of this class has the
    body of the Supabase store's, so one definition stands for both. *)
Definition search (documents : VectorStore) (queryEmbedding : list float)
  (topK : Z) : list Store.DocumentChunk :=
  let similarities :=
    map (fun doc =>
           Scored doc (cosineSimilarity queryEmbedding (Store.doc_embedding doc)))
        documents in
  let similarities :=
    sort (fun a b => (similarity b - similarity a)%float) similarities in
  map document
    (filter (fun item => (0.5 <? similarity item)%float)
       (slice similarities 0 topK)).

Definition getAllDocuments (documents : VectorStore) : list Store.DocumentChunk :=
  documents.

Definition clear (documents : VectorStore) : VectorStore := [].

Definition getCount (documents : VectorStore) : Z :=
  Z.of_nat (List.length documents).

(** The chunks [addDocuments] pushes, the first under the identifier of
    the [n]-th call of [uuidv4()]. *)
Fixpoint pushed (uuidv4 : nat -> string) (n : nat)
  (chunks : list Store.NewChunk) : list Store.DocumentChunk :=
  match chunks with
  | [] => []
  | chunk :: rest => Inserted.stored (uuidv4 n) chunk :: pushed uuidv4 (S n) rest
  end.

End MemoryStore.

(** ** The documents route ([GET] and [DELETE] in [app/api/documents/route.ts]) *)

Module Documents.

Import Js Store.
Local Open Scope string_scope.

(** An element of [documentInfo].  [uploadedAt] is read off
    [fileDocs[0]?.metadata.timestamp]. *)
Record DocumentInfo : Type := Info {
  info_fileName : string;
  info_chunks : Z;
  uploadedAt : option Z
}.

(** The bodies the two handlers answer with. *)
Inductive body : Type :=
| ErrorBody (error : string)
| ListBody (documents : list DocumentInfo) (totalChunks : Z)
| ClearedBody (message : string)
| ClearFailedBody (error : string).

Record httpResponse : Type := Http {
  status : Z;
  json : body
}.

(** [set.add(value)]: a value already in the set is not added again,
    and the set keeps the order of insertion. *)
Definition setAdd (set : list string) (value : string) : list string :=
  if existsb (String.eqb value) set then set else set ++ [value].

(** [Array.from(new Set(values))] *)
Definition newSet (values : list string) : list string :=
  fold_left setAdd values [].

(** [documents.filter(doc => doc.metadata.fileName === fileName)] *)
Definition fileDocs (documents : list DocumentChunk) (name : string)
  : list DocumentChunk :=
  filter (fun doc => String.eqb (fileName (metadata doc)) name) documents.

Definition GET (getUser : outcome (option string)) (db : Supabase)
  : outcome httpResponse :=
  tryCatch
    (bind getUser (fun user =>
       match user with
       | None => Returned (Http 401 (ErrorBody "Unauthorized. Please sign in."))
       | Some userId =>
           bind (getAllDocuments db userId) (fun documents =>
             let fileNames :=
               newSet (map (fun doc => fileName (metadata doc)) documents) in
             let documentInfo :=
               map (fun name =>
                      Info name
                           (Z.of_nat (List.length (fileDocs documents name)))
                           (option_map (fun doc => timestamp (metadata doc))
                                       (hd_error (fileDocs documents name))))
                   fileNames in
             Returned (Http 200
                         (ListBody documentInfo
                                   (Z.of_nat (List.length documents)))))
       end))
    (fun _ => Returned (Http 500 (ErrorBody "Failed to fetch documents"))).

(** [DELETE] changes the table, so it returns the table it leaves;
    [failed] is its [catch] clause. *)
Definition DELETE (getUser : outcome (option string)) (db : Supabase)
  : outcome httpResponse * Supabase :=
  let failed (error : thrown) :=
    Returned (Http 500 (ClearFailedBody
                          (messageOr "Failed to clear documents" error))) in
  match getUser with
  | Threw error => (failed error, db)
  | Returned None =>
      (Returned (Http 401 (ErrorBody "Unauthorized. Please sign in.")), db)
  | Returned (Some userId) =>
      match clear db userId with
      | (Returned _, db') =>
          (Returned (Http 200 (ClearedBody "All documents cleared successfully")),
           db')
      | (Threw error, db') => (failed error, db')
      end
  end.

(** *** Vocabulary of the properties *)

(** The rows of [userId] that belong to the file [name]. *)
Definition rowsOfFile (db : Supabase) (userId name : string)
  : list SupabaseRow :=
  filter (fun r => String.eqb (file_name r) name) (eq_user_id userId (rows db)).

Definition total (counts : list Z) : Z := fold_right Z.add 0%Z counts.

(** The elements filed under [name]. *)
Definition withKey {A : Type} (key : A -> string) (name : string) (l : list A)
  : list A :=
  filter (fun x => String.eqb (key x) name) l.

End Documents.

(** ** The document processor (the rest of [lib/document-processor.ts]) *)

Module Processor.

Import Js Chunker Extractor.
Local Open Scope string_scope.
Local Open Scope traced_scope.

(** *** Strings *)

(** [text.trim()] on a string. *)
Definition trimString (text : string) : string :=
  string_of_list_ascii (trim (list_ascii_of_string text)).

(** [!text || text.trim().length === 0] *)
Definition isBlank (text : string) : bool :=
  match text with
  | EmptyString => true
  | _ => (String.length (trimString text) =? 0)%nat
  end.

(** [value || ''] on a string that may be missing. *)
Definition orEmptyString (value : option string) : string :=
  match value with
  | Some text => text
  | None => EmptyString
  end.

Definition newline : string := String "010"%char EmptyString.

(** [s.split(separator)] for a one-character separator: the segments
    between the occurrences, at least one. *)
Fixpoint split (separator : ascii) (s : string) : list string :=
  match s with
  | EmptyString => [EmptyString]
  | String c rest =>
      if Ascii.eqb c separator then EmptyString :: split separator rest
      else
        match split separator rest with
        | segment :: segments => String c segment :: segments
        | [] => [String c EmptyString]
        end
  end.

(** [array.pop()]: the last element, [undefined] on an empty array. *)
Definition pop {A : Type} (array : list A) : option A := hd_error (rev array).

(** [s.toLowerCase()] on code units that fit a byte: the letters [A-Z]
    and the capital letters of Latin-1 move up by 32. *)
Definition lowerUnit (c : ascii) : ascii :=
  let n := nat_of_ascii c in
  if ((65 <=? n) && (n <=? 90)
      || (192 <=? n) && (n <=? 222) && negb (n =? 215))%nat
  then ascii_of_nat (n + 32)
  else c.

Fixpoint toLowerCase (s : string) : string :=
  match s with
  | EmptyString => EmptyString
  | String c rest => String (lowerUnit c) (toLowerCase rest)
  end.

(** *** Method 1: pdf-parse *)

(** What the library does with a buffer: [getText()] completes with the
    [text] field of its result or throws (and so do the import and the
    constructor before it); [destroy()] completes or throws. *)
Record PdfParseRun : Type := PdfParseOf {
  getText : outcome (option string);
  destroy : outcome unit
}.

Definition processPDFWithPDFParse (pdfParse : Buffer -> PdfParseRun)
  (buffer : Buffer) (fileName : string) : outcome ProcessedDocument :=
  bind (getText (pdfParse buffer)) (fun textResult =>
  bind (destroy (pdfParse buffer)) (fun _ =>
    let text := orEmptyString textResult in
    if isBlank text then throwError "pdf-parse extracted empty text"
    else Returned (Processed (trimString text) fileName "pdf"))).

(** *** Method 2: pdf2json *)

Record TextRun : Type := RunOf { T : option string }.
Record PDF2JSONTextItem : Type := ItemOf { R : option (list TextRun) }.
Record PDF2JSONPage : Type := PageOf { Texts : option (list PDF2JSONTextItem) }.
Record PDF2JSONData : Type := DataOf { Pages : option (list PDF2JSONPage) }.

(** The argument of the event [pdfParser_dataError]: an [Error], or an
    object whose [parserError?.message] may be missing, with the text
    [JSON.stringify] gives for it. *)
Inductive errData : Type :=
| IsError (message : string)
| HasParserError (message : option string) (stringified : string).

(** What settles the promise first: the import or the constructor
    throws; [parseBuffer] throws; one of the two events is emitted
    ([getRawTextContent], when the parser has it, returns a text or
    nothing, or throws); or 30 seconds pass. *)
Inductive Pdf2JsonRun : Type :=
| LoadThrows (error : thrown)
| ParseThrows (parseError : thrown)
| DataError (data : errData)
| DataReady (getRawTextContent : option (outcome (option string)))
            (pdfData : option PDF2JSONData)
| TimedOut.

Section Pdf2Json.

(** [decodeURIComponent] of the platform, which throws on a malformed
    escape sequence. *)
Variable decodeURIComponent : string -> outcome string.

Definition runText (r : TextRun) : string :=
  match T r with
  | Some (String _ _ as t) =>
      match decodeURIComponent t with
      | Returned decoded => decoded
      | Threw _ => t
      end
  | _ => EmptyString
  end.

Definition itemText (textItem : PDF2JSONTextItem) : string :=
  match R textItem with
  | Some runs => String.concat EmptyString (map runText runs)
  | None => EmptyString
  end.

Definition pageText (page : PDF2JSONPage) : string :=
  match Texts page with
  | Some items => String.concat " " (map itemText items)
  | None => EmptyString
  end.

Definition pagesText (pages : list PDF2JSONPage) : string :=
  String.concat newline (map pageText pages).

(** The text the handler of [pdfParser_dataReady] reads inside its
    [try]: the raw text, and when that is empty the text of the pages. *)
Definition readyText (getRawTextContent : option (outcome (option string)))
  (pdfData : option PDF2JSONData) : outcome string :=
  bind (match getRawTextContent with
        | Some raw => bind raw (fun value => Returned (orEmptyString value))
        | None => Returned EmptyString
        end)
       (fun text =>
          match text, pdfData with
          | EmptyString, Some (DataOf (Some pages)) => Returned (pagesText pages)
          | _, _ => Returned text
          end).

Definition errorMessage (data : errData) : string :=
  match data with
  | IsError message => message
  | HasParserError (Some (String _ _ as message)) _ => message
  | HasParserError _ stringified => stringified
  end.

Definition processPDFWithPDF2JSON (pdf2json : Buffer -> Pdf2JsonRun)
  (buffer : Buffer) (fileName : string) : outcome ProcessedDocument :=
  match pdf2json buffer with
  | LoadThrows error => Threw error
  | TimedOut => throwError "pdf2json parsing timeout"
  | DataError data => throwError ("pdf2json error: " ++ errorMessage data)
  | DataReady getRawTextContent pdfData =>
      match readyText getRawTextContent pdfData with
      | Returned text =>
          if isBlank text then throwError "pdf2json extracted empty text"
          else Returned (Processed (trimString text) fileName "pdf")
      | Threw error =>
          throwError ("pdf2json extraction error: "
                      ++ messageOr "Unknown error" error)
      end
  | ParseThrows parseError =>
      throwError ("pdf2json parse error: "
                  ++ messageOr "Unknown error" parseError)
  end.

End Pdf2Json.

(** *** Method 3: pdfjs-dist *)

(** An item of [textContent.items]: a text item with its [str], or
    marked content. *)
Inductive ContentItem : Type :=
| TextItemOf (str : string)
| MarkedContent.

Definition itemStr (item : ContentItem) : string :=
  match item with
  | TextItemOf str => str
  | MarkedContent => EmptyString
  end.

(** The [for] loop over the pages [1 .. numPages]; a page is the
    outcome of [getPage(i)] and [getTextContent()]. *)
Fixpoint readPages (pages : list (outcome (list ContentItem))) (fullText : string)
  : outcome string :=
  match pages with
  | [] => Returned fullText
  | page :: rest =>
      bind page (fun items =>
        let pageText := String.concat " " (map itemStr items) in
        readPages rest (fullText ++ pageText ++ newline))
  end.

(** [pdfjs buffer] is the outcome of the import and of
    [getDocument(...).promise], with the pages of the document. *)
Definition processPDFWithPDFJSDist
  (pdfjs : Buffer -> outcome (list (outcome (list ContentItem))))
  (buffer : Buffer) (fileName : string) : outcome ProcessedDocument :=
  bind (pdfjs buffer) (fun pages =>
  bind (readPages pages EmptyString) (fun fullText =>
    if isBlank fullText then throwError "pdfjs-dist extracted empty text"
    else Returned (Processed (trimString fullText) fileName "pdf"))).

(** *** Word and text files *)

(** [mammoth buffer] is the outcome of [mammoth.extractRawText], with
    the [value] of its result. *)
Definition processWord (mammoth : Buffer -> outcome string)
  (buffer : Buffer) (fileName : string) : outcome ProcessedDocument :=
  tryCatch
    (bind (mammoth buffer) (fun value =>
       Returned (Processed value fileName "docx")))
    (fun error =>
       throwError ("Failed to process Word document: "
                   ++ messageOr "Unknown error" error)).

(** [toStringUtf8 buffer] is the outcome of [buffer.toString('utf-8')]. *)
Definition processText (toStringUtf8 : Buffer -> outcome string)
  (buffer : Buffer) (fileName : string) : outcome ProcessedDocument :=
  tryCatch
    (bind (toStringUtf8 buffer) (fun text =>
       Returned (Processed text fileName "txt")))
    (fun error =>
       throwError ("Failed to process text file: "
                   ++ messageOr "Unknown error" error)).

(** *** The main processor *)

(** The libraries and platform functions the processor relies on. *)
Record Libraries : Type := Libs {
  pdfParse : Buffer -> PdfParseRun;
  pdf2json : Buffer -> Pdf2JsonRun;
  decodeURIComponent : string -> outcome string;
  pdfjs : Buffer -> outcome (list (outcome (list ContentItem)));
  mammoth : Buffer -> outcome string;
  toStringUtf8 : Buffer -> outcome string
}.

(** The three methods of [processPDF] over these libraries. *)
Definition extractWith (libs : Libraries) (m : method)
  : Buffer -> string -> outcome ProcessedDocument :=
  match m with
  | PdfParse => processPDFWithPDFParse (pdfParse libs)
  | Pdf2Json => processPDFWithPDF2JSON (decodeURIComponent libs) (pdf2json libs)
  | PdfjsDist => processPDFWithPDFJSDist (pdfjs libs)
  end.

(** A [File]: its name and the outcome of [arrayBuffer()]. *)
Record File : Type := FileOf {
  name : string;
  arrayBuffer : outcome Buffer
}.

(** The calls of the processor to the outside. *)
Inductive step : Type :=
| ReadFile
| Extract (m : method)
| Mammoth
| DecodeUtf8.

(** A computation whose calls are recorded under another name. *)
Definition lift {E E' A : Type} (f : E -> E') (m : traced E A) : traced E' A :=
  fun log => let '(result, calls) := run m in (result, (log ++ map f calls)%list).

(** [fileName.split('.').pop()?.toLowerCase()] *)
Definition fileExtension (fileName : string) : option string :=
  option_map toLowerCase (pop (split "."%char fileName)).

(** [`${fileExtension}`] *)
Definition showExtension (extension : option string) : string :=
  match extension with
  | Some text => text
  | None => "undefined"
  end.

Definition isCase (extension : option string) (label : string) : bool :=
  match extension with
  | Some text => String.eqb text label
  | None => false
  end.

(** [processDocument] up to the [switch]: the buffer is read, then the
    extension selects the processor. *)
Definition extractDocument (libs : Libraries) (file : File)
  : traced step ProcessedDocument :=
  buffer <- call ReadFile (arrayBuffer file) ;;
  let fileName := name file in
  let extension := fileExtension fileName in
  if isCase extension "pdf" then
    lift Extract (processPDF (extractWith libs) buffer fileName)
  else if isCase extension "docx" || isCase extension "doc" then
    call Mammoth (processWord (mammoth libs) buffer fileName)
  else if isCase extension "txt" then
    call DecodeUtf8 (processText (toStringUtf8 libs) buffer fileName)
  else
    raise (ErrorObject ("Unsupported file type: " ++ showExtension extension)).

(** The result of [processDocument]. *)
Record Chunked : Type := ChunkedOf {
  chunks : list string;
  chunked_fileName : string;
  chunked_fileType : string
}.

(** [processDocument]: the extraction, then [splitTextIntoChunks] with
    its default parameters.  [fuel] bounds the iterations of the
    chunking loop; the result is [None] when the loop needs more. *)
Definition processDocument (fuel : nat) (libs : Libraries) (file : File)
  : option (outcome Chunked * list step) :=
  match run (extractDocument libs file) with
  | (Returned processed, log) =>
      match splitTextIntoChunks fuel (list_ascii_of_string (text processed))
                                defaultChunkSize defaultOverlap with
      | Some result =>
          Some (Returned (ChunkedOf (map string_of_list_ascii result)
                                    (Extractor.fileName processed)
                                    (fileType processed)),
                log)
      | None => None
      end
  | (Threw error, log) => Some (Threw error, log)
  end.

(** *** Vocabulary of the properties *)

(** The name has no dot. *)
Fixpoint noDot (s : string) : bool :=
  match s with
  | EmptyString => true
  | String c rest => negb (Ascii.eqb c "."%char) && noDot rest
  end.

(** The extensions the [switch] knows. *)
Definition supported (extension : string) : bool :=
  String.eqb extension "pdf" || String.eqb extension "docx"
  || String.eqb extension "doc" || String.eqb extension "txt".

(** The text has a character that is not white space. *)
Definition visible (text : string) : Prop :=
  ~ allWhiteSpace (list_ascii_of_string text).

(** What the three methods return when the text is not blank. *)
Definition extracted (fileName : string) (doc : ProcessedDocument) : Prop :=
  Extractor.fileName doc = fileName /\ fileType doc = "pdf" /\
  wellTrimmed (list_ascii_of_string (text doc)).

End Processor.

(** ** The upload route ([POST] in [app/api/upload/route.ts]) *)

Module Upload.

Import Js Store Processor.
Local Open Scope string_scope.

(** [formData.get('file')]: a file, a text field, or [null]. *)
Inductive formEntry : Type :=
| FileEntry (file : File)
| StringEntry (value : string)
| NoEntry.

(** The bodies the route answers with. *)
Inductive body : Type :=
| ErrorBody (error : string) (details : option string)
| SuccessBody (message fileName fileType : string) (chunksProcessed : Z)
              (documentIds : list string).

Record httpResponse : Type := Http {
  status : Z;
  json : body
}.

(** What the route depends on: the authentication, the form of the
    request, the parsing libraries, the embedding model, the clock, the
    identifier generator and the database; and, of the platform, the
    message of the [TypeError] for calling [arrayBuffer] on a value that
    has no such method and the [stack] of an [Error] with a message. *)
Record Environment : Type := Env {
  getUser : outcome (option string);
  formFile : outcome formEntry;
  libraries : Libraries;
  notAFunction : string;
  stack : string -> option string;
  embedContent : nat -> string -> Embeddings.promise;
  now : nat -> Z;
  uuidv4 : nat -> string;
  database : Supabase
}.

(** [!file] *)
Definition isMissing (entry : formEntry) : bool :=
  match entry with
  | FileEntry _ => false
  | StringEntry EmptyString => true
  | StringEntry _ => false
  | NoEntry => true
  end.

(** [processDocument(file)] on the form entry: a text field has no
    [arrayBuffer] method, so the call throws before anything is read. *)
Definition processEntry (fuel : nat) (env : Environment) (entry : formEntry)
  : option (outcome Chunked) :=
  match entry with
  | FileEntry file => option_map fst (processDocument fuel (libraries env) file)
  | StringEntry _ => Some (Threw (ErrorObject (notAFunction env)))
  | NoEntry => Some (Threw (ErrorObject (notAFunction env)))
  end.

(** [processError instanceof Error ? processError.stack : undefined] *)
Definition stackOf (env : Environment) (processError : thrown) : option string :=
  match processError with
  | ErrorObject message => stack env message
  | NonError => None
  end.

(** [chunks.map((chunk, index) => ...)] from [index] on; [now index] is
    the reading of the clock for the chunk of that index.
    [embeddings[index]] is in range, since [generateEmbeddings] returns
    one vector per chunk; the default stands for [undefined]. *)
Fixpoint documentChunks (fileName : string) (now : nat -> Z)
  (embeddings : list (list float)) (index : nat) (chunks : list string)
  : list NewChunk :=
  match chunks with
  | [] => []
  | chunk :: rest =>
      NewChunkOf chunk (nth index embeddings [])
                 (Meta fileName (Z.of_nat index) (now index))
      :: documentChunks fileName now embeddings (S index) rest
  end.

Definition emptyDocument : body :=
  ErrorBody "Document is empty or could not be processed"
    (Some "No text could be extracted from the document. Please ensure the document contains readable text.").

(** [POST] changes the table, so it returns the table it leaves;
    [caught] is the outer [catch] clause.  [fuel] bounds the iterations
    of the chunking loop, as in [processDocument]. *)
Definition POST (fuel : nat) (env : Environment)
  : option (outcome httpResponse * Supabase) :=
  let db := database env in
  let caught (error : thrown) : outcome httpResponse :=
    Returned (Http 500 (ErrorBody (messageOr "Failed to process document" error)
                                  None)) in
  match getUser env with
  | Threw error => Some (caught error, db)
  | Returned None =>
      Some (Returned (Http 401 (ErrorBody "Unauthorized. Please sign in." None)),
            db)
  | Returned (Some userId) =>
      match formFile env with
      | Threw error => Some (caught error, db)
      | Returned entry =>
          if isMissing entry then
            Some (Returned (Http 400 (ErrorBody "No file provided" None)), db)
          else
            match processEntry fuel env entry with
            | None => None
            | Some (Threw processError) =>
                Some (Returned
                        (Http 400
                           (ErrorBody
                              ("Failed to process document: "
                               ++ messageOr "Unknown error" processError)
                              (stackOf env processError))),
                      db)
            | Some (Returned processedResult) =>
                let chunks := chunks processedResult in
                let fileName := chunked_fileName processedResult in
                let fileType := chunked_fileType processedResult in
                match chunks with
                | [] => Some (Returned (Http 400 emptyDocument), db)
                | _ :: _ =>
                    match Embeddings.generateEmbeddings (embedContent env) chunks
                    with
                    | Threw error => Some (caught error, db)
                    | Returned embeddings =>
                        let documentChunks :=
                          documentChunks fileName (now env) embeddings 0 chunks in
                        match addDocuments db (uuidv4 env) documentChunks userId
                        with
                        | (Threw error, db') => Some (caught error, db')
                        | (Returned ids, db') =>
                            Some (Returned
                                    (Http 200
                                       (SuccessBody
                                          "Document uploaded and processed successfully"
                                          fileName fileType
                                          (Z.of_nat (List.length chunks)) ids)),
                                  db')
                        end
                    end
                end
            end
      end
  end.

End Upload.

(** ** The chat page: the guard of [handleFileUpload] *)

Module ChatPage.

Import Processor.
Local Open Scope string_scope.

(** [['pdf', 'docx', 'doc', 'txt'].includes(fileExtension || '')],
    where [fileExtension] is computed as in [processDocument]; a file
    that fails the guard is not sent to the upload route. *)
Definition acceptsFile (fileName : string) : bool :=
  existsb (String.eqb (orEmptyString (fileExtension fileName)))
          ["pdf"; "docx"; "doc"; "txt"].

End ChatPage.

(** ** The middleware ([middleware.ts]) *)

Module Middleware.

Import Js.
Local Open Scope string_scope.

(** What the middleware answers: the request goes on to the page
    ([NextResponse.next()], with the header [X-Clear-Cookies] when
    [clearCookies] is set), or the browser is redirected to a path.
    The cookies a session refresh sets on the response play no part in
    the decision and are left out. *)
Inductive response : Type :=
| Next (clearCookies : bool)
| Redirect (path : string).

(** A request: its path, the outcome of [request.headers.get('cookie')],
    and the outcome of creating the client, refreshing the session and
    [supabase.auth.getUser()], with the identifier of the user. *)
Record Request : Type := RequestOf {
  pathname : string;
  cookieHeader : outcome (option string);
  getUser : outcome (option string)
}.

(** [s.startsWith(prefix)] *)
Definition startsWith (s prefix : string) : bool := String.prefix prefix s.

(** [array.includes(s)] *)
Definition includes (array : list string) (s : string) : bool :=
  existsb (String.eqb s) array.

Definition publicRoutes : list string :=
  ["/landing"; "/signup"; "/signin"; "/clear-cookies"].

(** The paths the middleware lets through unexamined. *)
Definition skipped (pathname : string) : bool :=
  startsWith pathname "/api" || startsWith pathname "/_next"
  || startsWith pathname "/favicon.ico" || String.eqb pathname "/clear-cookies".

(** [cookieHeader && cookieHeader.length > 8000] *)
Definition tooLarge (cookieHeader : option string) : bool :=
  match cookieHeader with
  | Some cookie => (8000 <? Z.of_nat (String.length cookie))%Z
  | None => false
  end.

Definition middleware (request : Request) : response :=
  let pathname := pathname request in
  if skipped pathname then Next false
  else
    match cookieHeader request with
    | Threw _ =>
        if negb (String.eqb pathname "/landing")
           && negb (String.eqb pathname "/clear-cookies")
        then Redirect "/clear-cookies"
        else Next false
    | Returned cookie =>
        if tooLarge cookie then
          if String.eqb pathname "/landing" then Next true
          else Redirect "/clear-cookies"
        else
          match getUser request with
          | Returned user =>
              let isAuthenticated :=
                match user with
                | Some _ => true
                | None => false
                end in
              let isPublicRoute := includes publicRoutes pathname in
              if String.eqb pathname "/" then
                Redirect (if isAuthenticated then "/chat" else "/landing")
              else if isAuthenticated
                      && (String.eqb pathname "/signup"
                          || String.eqb pathname "/signin") then
                Redirect "/chat"
              else if negb isAuthenticated && negb isPublicRoute then
                Redirect "/landing"
              else Next false
          | Threw _ =>
              if includes publicRoutes pathname then Next false
              else if negb (String.eqb pathname "/") then Redirect "/landing"
              else Next false
          end
    end.

(** *** Vocabulary of the properties *)

(** The same request for another path. *)
Definition follow (request : Request) (path : string) : Request :=
  RequestOf path (cookieHeader request) (getUser request).

End Middleware.

(** ** Further sample data *)

Module MoreSamples.

Import Js Store.
Local Open Scope string_scope.
Local Open Scope float_scope.

(** A request of a user with two stored chunks; the embedding of the
    question is [[1, 0]] and the completion model answers. *)
Definition withCorpus : Chat.Environment :=
  Chat.Env (Returned (Some "u"))
           (Returned (Chat.JsonString "What are the opening hours?"))
           (Samples.withoutRpc [Samples.r1; Samples.r3])
           (fun _ => Embeddings.Fulfilled (Embeddings.AsArray [1; 0]))
           (fun _ => Returned "From 9 to 17.").

(** The same request when the count query fails. *)
Definition countFails : Chat.Environment :=
  Chat.Env (Returned (Some "u"))
           (Returned (Chat.JsonString "What are the opening hours?"))
           (Samples.unreachable [Samples.r1; Samples.r3])
           (fun _ => Embeddings.Fulfilled (Embeddings.AsArray [1; 0]))
           (fun _ => Returned "From 9 to 17.").

(** The same request when the embedding model is out of quota. *)
Definition embeddingFails : Chat.Environment :=
  Chat.Env (Returned (Some "u"))
           (Returned (Chat.JsonString "What are the opening hours?"))
           (Samples.withoutRpc [Samples.r1; Samples.r3])
           (fun _ => Embeddings.Rejected (ErrorObject "quota exceeded"))
           (fun _ => Returned "From 9 to 17.").

(** Rows of two files of owner [u] and one row of owner [v]. *)
Definition fileRow (id name : string) (index created : Z) (userId : string)
  : SupabaseRow :=
  Row id "text" [1; 0] name index created userId.

Definition library : list SupabaseRow :=
  [fileRow "a0" "a.txt" 0 10 "u"; fileRow "b0" "b.pdf" 0 30 "u";
   fileRow "a1" "a.txt" 1 20 "u"; fileRow "c0" "c.txt" 0 40 "v"].


(** Libraries over one document: every PDF method and the text
    decoder find [content]; the Word converter fails. *)
Definition reading (content : string) : Processor.Libraries :=
  Processor.Libs
    (fun _ => Processor.PdfParseOf (Returned (Some content)) (Returned tt))
    (fun _ => Processor.TimedOut)
    (fun encoded => Returned encoded)
    (fun _ => Returned [Returned [Processor.TextItemOf content]])
    (fun _ => Threw (ErrorObject "not a Word file"))
    (fun _ => Returned content).

Fixpoint copies (n : nat) (c : ascii) : string :=
  match n with
  | O => EmptyString
  | S n' => String c (copies n' c)
  end.

(** A text of 1201 characters with a sentence boundary at offset 600:
    two chunks under the default parameters. *)
Definition twoSentences : string :=
  copies 600 "a"%char ++ "." ++ copies 600 "b"%char.

(** The upload of a file [fileName] with this content by user [u]. *)
Definition uploading (fileName content : string) (db : Supabase)
  : Upload.Environment :=
  Upload.Env (Returned (Some "u"))
             (Returned (Upload.FileEntry (Processor.FileOf fileName (Returned []))))
             (reading content)
             "file.arrayBuffer is not a function"
             (fun _ => None)
             Samples.answering
             (fun i => Z.of_nat i)
             Samples.uuids
             db.

(** A database that refuses the row of index 1. *)
Definition refusingSecond : Supabase :=
  Backend [] RpcInstalled None None
          (fun r => if (chunk_index r =? 1)%Z then Some "disk full" else None)
          None.

End MoreSamples.

(** * Part II: properties *)

(** ** Binary64 facts used below *)

Module NumFacts.

Import Num.
Local Open Scope float_scope.

Lemma is_nan_nan : forall x, is_nan x = true <-> x = nan.
Proof.
  intro x; unfold is_nan; rewrite eqb_spec; split.
  - intro H. apply Prim2SF_inj.
    destruct (Prim2SF x) as [s| s| |s m e] eqn:E; simpl in H; try discriminate.
    + destruct s; discriminate.
    + reflexivity.
    + unfold SFeqb, SFcompare in H.
      rewrite Z.compare_refl, Pos.compare_cont_refl in H.
      destruct s; discriminate.
  - intros ->. reflexivity.
Qed.

Lemma is_zero_spec : forall x,
  is_zero x = true -> exists s, Prim2SF x = S754_zero s.
Proof.
  intros x H. unfold is_zero in H. rewrite eqb_spec in H.
  change (Prim2SF 0) with (S754_zero false) in H.
  destruct (Prim2SF x) as [s| s| |s m e]; simpl in H.
  - now exists s.
  - destruct s; discriminate.
  - discriminate.
  - destruct s; discriminate.
Qed.

Lemma SFmul_comm : forall x y, SF64mul x y = SF64mul y x.
Proof.
  unfold SF64mul.
  intros [sx|sx| |sx mx ex] [sy|sy| |sy my ey]; simpl; try reflexivity;
    try (now rewrite (xorb_comm sx sy)).
  now rewrite (xorb_comm sx sy), (Pos.mul_comm mx my), (Z.add_comm ex ey).
Qed.

Lemma mul_comm : forall x y, x * y = y * x.
Proof.
  intros x y. apply Prim2SF_inj. rewrite !mul_spec. apply SFmul_comm.
Qed.

Lemma mul_zero_self : forall x, is_zero x = true -> x * x = 0.
Proof.
  intros x H. destruct (is_zero_spec x H) as [s Hs].
  apply Prim2SF_inj. rewrite mul_spec, Hs. now destruct s.
Qed.

Lemma mul_zero_l : forall x y, is_zero x = true -> zero_or_nan (x * y).
Proof.
  intros x y H. destruct (is_zero_spec x H) as [s Hs].
  unfold zero_or_nan. rewrite mul_spec, Hs.
  now destruct (Prim2SF y).
Qed.

Lemma add_zero_or_nan : forall x y,
  zero_or_nan x -> zero_or_nan y -> zero_or_nan (x + y).
Proof.
  unfold zero_or_nan. intros x y Hx Hy. rewrite add_spec.
  destruct (Prim2SF x) as [[|]| | |]; try contradiction;
    destruct (Prim2SF y) as [[|]| | |]; try contradiction; exact I.
Qed.

Lemma div_zero_or_nan : forall x y,
  zero_or_nan x -> zero_or_nan y -> x / y = nan.
Proof.
  unfold zero_or_nan. intros x y Hx Hy.
  apply Prim2SF_inj. rewrite div_spec.
  destruct (Prim2SF x); try contradiction;
    destruct (Prim2SF y); try contradiction; reflexivity.
Qed.

End NumFacts.

(** ** The order of binary64 values *)

Module FloatOrder.

Import Num NumFacts Binary64.

Lemma lex3_Lt : forall a b, lex3 a b = Lt <-> lex_lt a b.
Proof.
  intros [[a1 a2] a3] [[b1 b2] b3]. unfold lex3, lex_lt.
  destruct (Z.compare_spec a1 b1);
    [|split; [lia|reflexivity]|split; [discriminate|intro; exfalso; lia]].
  destruct (Z.compare_spec a2 b2);
    [|split; [lia|reflexivity]|split; [discriminate|intro; exfalso; lia]].
  rewrite Z.compare_lt_iff. lia.
Qed.

Lemma lex3_not_Gt : forall a b, lex3 a b <> Gt <-> lex_le a b.
Proof.
  intros [[a1 a2] a3] [[b1 b2] b3]. unfold lex3, lex_le.
  destruct (Z.compare_spec a1 b1);
    [|split; [lia|discriminate]|split; [congruence|intro; exfalso; lia]].
  destruct (Z.compare_spec a2 b2);
    [|split; [lia|discriminate]|split; [congruence|intro; exfalso; lia]].
  rewrite Z.compare_le_iff. lia.
Qed.

Lemma SFcompare_key : forall x y,
  x <> S754_nan -> y <> S754_nan ->
  SFcompare x y = Some (lex3 (key x) (key y)).
Proof.
  intros [[|]|[|]| |[|] mx ex] [[|]|[|]| |[|] my ey] Hx Hy;
    try congruence; try reflexivity; cbn [SFcompare key lex3].
  rewrite Z.compare_opp, (Z.compare_antisym ex ey).
  destruct (ex ?= ey)%Z; reflexivity.
Qed.

Lemma not_nan_spec : forall x, is_nan x = false -> Prim2SF x <> S754_nan.
Proof.
  intros x H E.
  assert (x = nan) by (apply Prim2SF_inj; exact E).
  subst x. discriminate H.
Qed.

Lemma leb_true_not_nan : forall x y,
  (x <=? y)%float = true -> is_nan x = false /\ is_nan y = false.
Proof.
  intros x y H. rewrite leb_spec in H. unfold SFleb in H.
  split; apply not_true_is_false; intro E; apply is_nan_nan in E; subst;
    change (Prim2SF nan) with S754_nan in H.
  - discriminate H.
  - destruct (Prim2SF x); discriminate H.
Qed.

Lemma leb_key : forall x y,
  is_nan x = false -> is_nan y = false ->
  ((x <=? y)%float = true <-> lex_le (key (Prim2SF x)) (key (Prim2SF y))).
Proof.
  intros x y Hx Hy. rewrite leb_spec. unfold SFleb.
  rewrite SFcompare_key by (now apply not_nan_spec).
  rewrite <- lex3_not_Gt.
  destruct (lex3 (key (Prim2SF x)) (key (Prim2SF y)));
    split; congruence.
Qed.

Lemma ltb_key : forall x y,
  is_nan x = false -> is_nan y = false ->
  ((x <? y)%float = true <-> lex_lt (key (Prim2SF x)) (key (Prim2SF y))).
Proof.
  intros x y Hx Hy. rewrite ltb_spec. unfold SFltb.
  rewrite SFcompare_key by (now apply not_nan_spec).
  rewrite <- lex3_Lt.
  destruct (lex3 (key (Prim2SF x)) (key (Prim2SF y)));
    split; congruence.
Qed.

Ltac by_keys :=
  repeat match goal with
  | |- context [key ?x] => destruct (key x) as [[? ?] ?]
  | H : context [key ?x] |- _ => destruct (key x) as [[? ?] ?]
  end;
  unfold lex_le, lex_lt in *; lia.

Lemma leb_trans : forall x y z,
  (x <=? y)%float = true -> (y <=? z)%float = true -> (x <=? z)%float = true.
Proof.
  intros x y z Hxy Hyz.
  destruct (leb_true_not_nan x y Hxy) as [Hx Hy].
  destruct (leb_true_not_nan y z Hyz) as [_ Hz].
  apply leb_key in Hxy; [|assumption..]. apply leb_key in Hyz; [|assumption..].
  apply leb_key; [assumption..|]. by_keys.
Qed.

Lemma ltb_false_leb : forall x y,
  is_nan x = false -> is_nan y = false ->
  (x <? y)%float = false -> (y <=? x)%float = true.
Proof.
  intros x y Hx Hy H. apply leb_key; [assumption..|].
  assert (H' : ~ lex_lt (key (Prim2SF x)) (key (Prim2SF y))).
  { intro L. apply ltb_key in L; [congruence|assumption..]. }
  by_keys.
Qed.

Lemma ltb_true_leb : forall x y,
  (x <? y)%float = true -> (x <=? y)%float = true.
Proof.
  intros x y H.
  assert (Hn : is_nan x = false /\ is_nan y = false).
  { rewrite ltb_spec in H. unfold SFltb in H.
    split; apply not_true_is_false; intro E; apply is_nan_nan in E; subst;
      change (Prim2SF nan) with S754_nan in H.
    - discriminate H.
    - destruct (Prim2SF x); discriminate H. }
  destruct Hn as [Hx Hy].
  apply leb_key; [assumption..|]. apply ltb_key in H; [|assumption..]. by_keys.
Qed.

End FloatOrder.

(** ** The sign of a binary64 difference *)

Module FloatSub.

Import Num NumFacts Binary64 FloatOrder.
Local Open Scope Z_scope.

Lemma digits2_pos_bounds : forall m,
  2 ^ (Zpos (digits2_pos m) - 1) <= Zpos m < 2 ^ Zpos (digits2_pos m).
Proof.
  induction m as [m IH|m IH|]; cbn [digits2_pos].
  - rewrite Pos2Z.inj_succ, (Pos2Z.inj_xI m).
    replace (Z.succ (Zpos (digits2_pos m)) - 1)
      with (Z.succ (Zpos (digits2_pos m) - 1)) by lia.
    rewrite !Z.pow_succ_r by lia. lia.
  - rewrite Pos2Z.inj_succ, (Pos2Z.inj_xO m).
    replace (Z.succ (Zpos (digits2_pos m)) - 1)
      with (Z.succ (Zpos (digits2_pos m) - 1)) by lia.
    rewrite !Z.pow_succ_r by lia. lia.
  - cbn. lia.
Qed.

Lemma iter_xO_value : forall d m, Zpos (Pos.iter xO m d) = Zpos m * 2 ^ Zpos d.
Proof.
  intros d m. induction d as [|d IH] using Pos.peano_ind.
  - cbn [Pos.iter]. rewrite (Pos2Z.inj_xO m). change (2 ^ 1) with 2. lia.
  - rewrite Pos.iter_succ, (Pos2Z.inj_xO (Pos.iter xO m d)), IH, Pos2Z.inj_succ.
    rewrite Z.pow_succ_r by lia. lia.
Qed.

Lemma shl_align_value : forall m e e',
  e' <= e -> Zpos (fst (shl_align m e e')) = Zpos m * 2 ^ (e - e').
Proof.
  intros m e e' H. unfold shl_align.
  destruct (e' - e) as [|p|p] eqn:E.
  - replace (e - e') with 0 by lia. cbn [fst]. change (2 ^ 0) with 1. lia.
  - lia.
  - cbn [fst]. rewrite iter_xO_value. f_equal. f_equal. lia.
Qed.

Lemma iter_pos_nat : forall (A : Type) (f : A -> A) (p : positive) (x : A),
  SpecFloat.iter_pos f p x = Nat.iter (Pos.to_nat p) f x.
Proof.
  intros A f. induction p as [p IH|p IH|]; intro x; cbn [SpecFloat.iter_pos].
  - rewrite !IH, Pos2Nat.inj_xI, <- Nat.iter_add.
    replace (S (2 * Pos.to_nat p)) with (S (Pos.to_nat p + Pos.to_nat p)) by lia.
    now rewrite Nat.iter_succ_r.
  - rewrite !IH, Pos2Nat.inj_xO, <- Nat.iter_add. f_equal. lia.
  - reflexivity.
Qed.

(** Fewer right shifts than the mantissa has digits leave it positive. *)
Lemma iter_shr_positive : forall k q r s,
  (k < Pos.to_nat (digits2_pos q))%nat ->
  exists q' r' s',
    Nat.iter k shr_1 (Build_shr_record (Zpos q) r s) =
    Build_shr_record (Zpos q') r' s'.
Proof.
  induction k as [|k IH]; intros q r s H.
  - now exists q, r, s.
  - rewrite Nat.iter_succ_r.
    destruct q as [q|q|]; cbn [digits2_pos] in H; cbn [shr_1].
    + apply IH. lia.
    + apply IH. lia.
    + cbn in H. lia.
Qed.

Lemma shr_fexp_positive : forall q e l,
  SpecFloat.emin prec emax <= e ->
  exists q' r' s' e',
    shr_fexp prec emax (Zpos q) e l = (Build_shr_record (Zpos q') r' s', e') /\
    SpecFloat.emin prec emax <= e'.
Proof.
  intros q e l He. unfold shr_fexp, shr. cbn [Zdigits2].
  assert (Hrec : exists r s, shr_record_of_loc (Zpos q) l =
                             Build_shr_record (Zpos q) r s).
  { destruct l as [|[| |]]; cbn; eauto. }
  destruct Hrec as (r & s & ->).
  destruct (fexp prec emax (Zpos (digits2_pos q) + e) - e) as [|p|p] eqn:E.
  - now exists q, r, s, e.
  - rewrite iter_pos_nat.
    destruct (iter_shr_positive (Pos.to_nat p) q r s) as (q' & r' & s' & ->).
    + unfold fexp, SpecFloat.emin, prec, emax in *. lia.
    + exists q', r', s', (e + Zpos p). split; [reflexivity | lia].
  - now exists q, r, s, e.
Qed.

Lemma round_nearest_even_positive : forall q l,
  exists q', round_nearest_even (Zpos q) l = Zpos q'.
Proof.
  intros q l. destruct l as [|[| |]]; cbn [round_nearest_even].
  - now exists q.
  - destruct (Z.even (Zpos q)); [now exists q | now exists (q + 1)%positive].
  - now exists q.
  - now exists (q + 1)%positive.
Qed.

Lemma binary_round_aux_signed : forall s q e l,
  SpecFloat.emin prec emax <= e -> signed s (binary_round_aux prec emax s (Zpos q) e l).
Proof.
  intros s q e l He. unfold binary_round_aux.
  destruct (shr_fexp_positive q e l He) as (q1 & r1 & s1 & e1 & -> & He1).
  cbn [shr_m].
  destruct (round_nearest_even_positive q1
              (loc_of_shr_record (Build_shr_record (Zpos q1) r1 s1))) as [q2 ->].
  destruct (shr_fexp_positive q2 e1 loc_Exact He1) as (q3 & r3 & s3 & e3 & -> & _).
  cbn [shr_m]. destruct (e3 <=? emax - prec); reflexivity.
Qed.

Lemma binary_round_signed : forall s m e,
  SpecFloat.emin prec emax <= e -> signed s (binary_round prec emax s m e).
Proof.
  intros s m e He. unfold binary_round.
  destruct (shl_align m e (fexp prec emax (Zpos (digits2_pos m) + e)))
    as [mz ez] eqn:E.
  apply binary_round_aux_signed.
  unfold shl_align in E.
  destruct (fexp prec emax (Zpos (digits2_pos m) + e) - e) eqn:E';
    inversion E; subst; try assumption.
  unfold fexp. lia.
Qed.

Lemma binary_normalize_ltb_zero : forall d e,
  SpecFloat.emin prec emax <= e ->
  SFltb (binary_normalize prec emax d e false) (S754_zero false) = (d <? 0).
Proof.
  intros d e He. destruct d as [|p|p]; cbn [binary_normalize].
  - reflexivity.
  - pose proof (binary_round_signed false p e He) as H.
    destruct (binary_round prec emax false p e); cbn in H; try contradiction;
      subst; reflexivity.
  - pose proof (binary_round_signed true p e He) as H.
    destruct (binary_round prec emax true p e); cbn in H; try contradiction;
      subst; reflexivity.
Qed.

(** What validity says of a finite value. *)
Lemma bounded_spec : forall m e,
  SpecFloat.bounded prec emax m e = true ->
  SpecFloat.emin prec emax <= e /\
  Zpos m < 2 ^ prec /\
  (SpecFloat.emin prec emax < e -> 2 ^ (prec - 1) <= Zpos m).
Proof.
  intros m e H. unfold SpecFloat.bounded, canonical_mantissa in H.
  apply andb_prop in H. destruct H as [H _]. apply Z.eqb_eq in H.
  pose proof (digits2_pos_bounds m) as [Hlo Hhi].
  unfold fexp in H. split; [lia|]. split.
  - eapply Z.lt_le_trans; [exact Hhi|].
    apply Z.pow_le_mono_r; unfold prec in *; lia.
  - intro He. replace (Zpos (digits2_pos m)) with prec in Hlo by lia. exact Hlo.
Qed.

(** Comparing two finite values is comparing their aligned mantissas. *)
Lemma aligned_compare : forall sx mx ex sy my ey,
  SpecFloat.bounded prec emax mx ex = true ->
  SpecFloat.bounded prec emax my ey = true ->
  SFcompare (S754_finite sx mx ex) (S754_finite sy my ey) =
  Some (aligned sx mx ex (Z.min ex ey) ?= aligned sy my ey (Z.min ex ey)).
Proof.
  intros sx mx ex sy my ey Hx Hy. unfold aligned.
  rewrite !shl_align_value by lia.
  destruct (bounded_spec mx ex Hx) as (Hex & Hmx & Hnx).
  destruct (bounded_spec my ey Hy) as (Hey & Hmy & Hny).
  assert (Hprec : 2 ^ prec = 2 * 2 ^ (prec - 1)) by reflexivity.
  destruct (Z.compare_spec ex ey) as [E|E|E].
  - subst ey. rewrite Z.min_id, Z.sub_diag. change (2 ^ 0) with 1.
    rewrite !Z.mul_1_r.
    destruct sx, sy; cbn [SFcompare cond_Zopp]; rewrite ?Z.compare_refl;
      reflexivity.
  - rewrite Z.min_l, Z.sub_diag by lia. change (2 ^ 0) with 1.
    rewrite Z.mul_1_r.
    assert (HP : 2 ^ 1 <= 2 ^ (ey - ex)) by (apply Z.pow_le_mono_r; lia).
    change (2 ^ 1) with 2 in HP.
    assert (Hm : Zpos my * 2 <= Zpos my * 2 ^ (ey - ex))
      by (apply Z.mul_le_mono_nonneg_l; lia).
    specialize (Hny ltac:(lia)).
    apply Z.compare_lt_iff in E.
    destruct sx, sy; cbn [SFcompare cond_Zopp]; rewrite ?E; f_equal; symmetry;
      first [apply Z.compare_lt_iff; lia | apply Z.compare_gt_iff; lia].
  - rewrite Z.min_r, Z.sub_diag by lia. change (2 ^ 0) with 1.
    rewrite Z.mul_1_r.
    assert (HP : 2 ^ 1 <= 2 ^ (ex - ey)) by (apply Z.pow_le_mono_r; lia).
    change (2 ^ 1) with 2 in HP.
    assert (Hm : Zpos mx * 2 <= Zpos mx * 2 ^ (ex - ey))
      by (apply Z.mul_le_mono_nonneg_l; lia).
    specialize (Hnx ltac:(lia)).
    apply Z.compare_gt_iff in E.
    destruct sx, sy; cbn [SFcompare cond_Zopp]; rewrite ?E; f_equal; symmetry;
      first [apply Z.compare_lt_iff; lia | apply Z.compare_gt_iff; lia].
Qed.

(** The difference of two finite values is negative exactly when the
    first is less than the second: rounding keeps the sign, and a
    non-zero difference does not round to zero. *)
Lemma SFsub_ltb_zero : forall x y,
  valid_binary x = true -> valid_binary y = true ->
  finiteSF x -> finiteSF y ->
  SFltb (SF64sub x y) (S754_zero false) = SFltb x y.
Proof.
  intros [sx|sx| |sx mx ex] [sy|sy| |sy my ey] Vx Vy Fx Fy;
    try contradiction; unfold SF64sub; cbn [SFsub].
  - destruct sx, sy; reflexivity.
  - destruct sy; reflexivity.
  - destruct sx; reflexivity.
  - cbn [valid_binary] in Vx, Vy.
    fold (aligned sx mx ex (Z.min ex ey)). fold (aligned sy my ey (Z.min ex ey)).
    rewrite binary_normalize_ltb_zero.
    + unfold SFltb at 1. rewrite (aligned_compare sx mx ex sy my ey Vx Vy).
      set (a := aligned sx mx ex (Z.min ex ey)).
      set (b := aligned sy my ey (Z.min ex ey)).
      destruct (Z.compare_spec a b); destruct (Z.ltb_spec (a - b) 0);
        try reflexivity; lia.
    + destruct (bounded_spec mx ex Vx) as (Hex & _).
      destruct (bounded_spec my ey Vy) as (Hey & _). lia.
Qed.

Local Open Scope float_scope.

Lemma isFinite_spec : forall x, isFinite x = true -> finiteSF (Prim2SF x).
Proof.
  intros x H. unfold isFinite in H. destruct (Prim2SF x); try discriminate; exact I.
Qed.

Lemma isFinite_not_nan : forall x, isFinite x = true -> is_nan x = false.
Proof.
  intros x H. apply not_true_is_false. intro E. apply is_nan_nan in E.
  subst x. discriminate H.
Qed.

(** On finite numbers the comparator [a - b] is negative exactly when
    [a < b]. *)
Lemma sub_ltb_zero : forall x y,
  isFinite x = true -> isFinite y = true -> (x - y <? 0) = (x <? y).
Proof.
  intros x y Hx Hy. rewrite !ltb_spec, sub_spec.
  change (Prim2SF 0) with (S754_zero false).
  apply SFsub_ltb_zero; try apply Prim2SF_valid; now apply isFinite_spec.
Qed.



End FloatSub.

(** ** Operations that are exact

    A number that a normal float represents is left as it is by
    rounding; sums, differences and comparisons of integers below
    [2^53] in size are therefore those of the integers. *)

Module FloatExact.
Import Num NumFacts Binary64 FloatOrder FloatSub.
Local Open Scope Z_scope.

Lemma iter_xO_nat_value : forall k m,
  Zpos (Nat.iter k xO m) = Zpos m * 2 ^ Z.of_nat k.
Proof.
  induction k as [|k IH]; intro m.
  - cbn [Nat.iter nat_rect Z.of_nat]. rewrite Z.pow_0_r. lia.
  - change (Nat.iter (S k) xO m) with (xO (Nat.iter k xO m)).
    rewrite (Pos2Z.inj_xO (Nat.iter k xO m)), IH.
    rewrite Nat2Z.inj_succ, Z.pow_succ_r by lia. lia.
Qed.

Lemma iter_shr_exact : forall k m,
  Nat.iter k shr_1 (Build_shr_record (Zpos (Nat.iter k xO m)) false false) =
  Build_shr_record (Zpos m) false false.
Proof.
  induction k as [|k IH]; intro m.
  - reflexivity.
  - rewrite Nat.iter_succ_r.
    change (Nat.iter (S k) xO m) with (xO (Nat.iter k xO m)).
    cbn [shr_1 orb]. apply IH.
Qed.

Lemma digits2_pos_unique : forall m d,
  2 ^ (d - 1) <= Zpos m < 2 ^ d -> Zpos (digits2_pos m) = d.
Proof.
  intros m d [Hlo Hhi].
  pose proof (digits2_pos_bounds m) as [Hlo' Hhi'].
  destruct (Z.lt_trichotomy (Zpos (digits2_pos m)) d) as [Hlt|[Heq|Hgt]];
    [exfalso| exact Heq |exfalso].
  - assert (2 ^ Zpos (digits2_pos m) <= 2 ^ (d - 1))
      by (apply Z.pow_le_mono_r; lia). lia.
  - assert (0 < d \/ d <= 0) as [Hd|Hd] by lia.
    + assert (2 ^ d <= 2 ^ (Zpos (digits2_pos m) - 1))
        by (apply Z.pow_le_mono_r; lia). lia.
    + assert (2 ^ d <= 1).
      { destruct (Z.eq_dec d 0) as [->|Hn]; [cbn; lia|].
        rewrite Z.pow_neg_r by lia. lia. }
      lia.
Qed.

(** Rounding a number that a normal float represents gives that float. *)
Lemma binary_round_aux_exact : forall s m0 e0 m' e',
  normal m' e' -> e0 <= e' -> Zpos m0 = Zpos m' * 2 ^ (e' - e0) ->
  binary_round_aux prec emax s (Zpos m0) e0 loc_Exact = S754_finite s m' e'.
Proof.
  intros s m0 e0 m' e' [Hd He] Hle Hv.
  set (k := Z.to_nat (e' - e0)).
  assert (Hm0 : m0 = Nat.iter k xO m').
  { apply Pos2Z.inj. rewrite iter_xO_nat_value. unfold k.
    rewrite Z2Nat.id by lia. exact Hv. }
  assert (Hdig : Zpos (digits2_pos m0) = prec + (e' - e0)).
  { apply digits2_pos_unique. rewrite Hv.
    pose proof (digits2_pos_bounds m') as Hb. rewrite Hd in Hb.
    replace (prec + (e' - e0) - 1) with ((prec - 1) + (e' - e0)) by lia.
    rewrite !Z.pow_add_r by (unfold prec; lia).
    assert (0 < 2 ^ (e' - e0)) by (apply Z.pow_pos_nonneg; lia).
    nia. }
  unfold binary_round_aux, shr_fexp. cbn [Zdigits2 shr_record_of_loc].
  rewrite Hdig.
  replace (fexp prec emax (prec + (e' - e0) + e0) - e0) with (e' - e0)
    by (unfold fexp, SpecFloat.emin, prec, emax in *; lia).
  assert (Hshr : shr (Build_shr_record (Zpos m0) false false) e0 (e' - e0) =
                 (Build_shr_record (Zpos m') false false, e')).
  { unfold shr. destruct (e' - e0) as [|p|p] eqn:E.
    - f_equal; [|lia]. f_equal. rewrite Hv. change (2 ^ 0) with 1. lia.
    - rewrite iter_pos_nat. f_equal; [|lia].
      rewrite Hm0. unfold k. cbn [Z.to_nat]. apply iter_shr_exact.
    - lia. }
  rewrite Hshr. cbn [shr_m loc_of_shr_record shr_r shr_s round_nearest_even
                     Zdigits2 shr_record_of_loc].
  rewrite Hd.
  replace (fexp prec emax (prec + e') - e') with 0
    by (unfold fexp, SpecFloat.emin, prec, emax in *; lia).
  cbn [shr shr_m].
  destruct (e' <=? emax - prec) eqn:E; [reflexivity|].
  apply Z.leb_gt in E. lia.
Qed.

Lemma binary_round_exact : forall s m0 e0 m' e',
  normal m' e' ->
  (e0 <= e' -> Zpos m0 = Zpos m' * 2 ^ (e' - e0)) ->
  (e' <= e0 -> Zpos m' = Zpos m0 * 2 ^ (e0 - e')) ->
  binary_round prec emax s m0 e0 = S754_finite s m' e'.
Proof.
  intros s m0 e0 m' e' Hn Hlow Hhigh.
  assert (Hfexp : fexp prec emax (Zpos (digits2_pos m0) + e0) = e').
  { destruct Hn as [Hd He].
    pose proof (digits2_pos_bounds m') as Hb. rewrite Hd in Hb.
    assert (Hdig : Zpos (digits2_pos m0) = prec + (e' - e0)).
    { apply digits2_pos_unique.
      destruct (Z.le_gt_cases e0 e') as [Hle|Hgt].
      - rewrite (Hlow Hle).
        replace (prec + (e' - e0) - 1) with ((prec - 1) + (e' - e0)) by lia.
        rewrite !Z.pow_add_r by (unfold prec; lia).
        assert (0 < 2 ^ (e' - e0)) by (apply Z.pow_pos_nonneg; lia).
        nia.
      - assert (Hv := Hhigh ltac:(lia)).
        assert (Hj : e0 - e' < prec).
        { destruct (Z.lt_ge_cases (e0 - e') prec) as [Hj|Hj]; [exact Hj|].
          assert (2 ^ prec <= 2 ^ (e0 - e'))
            by (apply Z.pow_le_mono_r; unfold prec in *; lia).
          pose proof (Pos2Z.is_pos m0). nia. }
        assert (0 < 2 ^ (e0 - e')) by (apply Z.pow_pos_nonneg; lia).
        assert (Hp : 2 ^ prec = 2 ^ (prec + (e' - e0)) * 2 ^ (e0 - e')).
        { rewrite <- Z.pow_add_r by lia. f_equal. lia. }
        assert (Hp' : 2 ^ (prec - 1) =
                      2 ^ (prec + (e' - e0) - 1) * 2 ^ (e0 - e')).
        { rewrite <- Z.pow_add_r by lia. f_equal. lia. }
        split; nia. }
    rewrite Hdig. unfold fexp, SpecFloat.emin, prec, emax in *. lia. }
  unfold binary_round. rewrite Hfexp.
  unfold shl_align. destruct (e' - e0) as [|p|p] eqn:E.
  - apply binary_round_aux_exact; [exact Hn|lia|]. rewrite E. apply Hlow. lia.
  - apply binary_round_aux_exact; [exact Hn|lia|]. rewrite E. apply Hlow. lia.
  - replace (Pos.iter xO m0 p) with m'.
    + apply binary_round_aux_exact; [exact Hn|lia|].
      replace (e' - e') with 0 by lia. change (2 ^ 0) with 1. lia.
    + apply Pos2Z.inj. rewrite iter_xO_value, Hhigh by lia. f_equal. f_equal. lia.
Qed.


Lemma pow2_split : forall a b, 0 <= a -> 0 <= b -> 2 ^ (a + b) = 2 ^ a * 2 ^ b.
Proof. intros. apply Z.pow_add_r; assumption. Qed.

(** The float of a positive integer below [2^53]: its value, on a
    mantissa of 53 bits. *)
Lemma ofZ_pos : forall p,
  Zpos p < 2 ^ prec ->
  exists m e,
    ofZ (Zpos p) = S754_finite false m e /\ normal m e /\
    - (prec - 1) <= e <= 0 /\ Zpos m = Zpos p * 2 ^ (- e).
Proof.
  intros p Hp.
  pose proof (digits2_pos_bounds p) as [Hlo Hhi].
  set (d := Zpos (digits2_pos p)) in *.
  assert (Hd : 1 <= d <= prec).
  { split; [unfold d; lia|].
    destruct (Z.le_gt_cases d prec) as [H|H]; [exact H|].
    assert (2 ^ prec <= 2 ^ (d - 1)) by (apply Z.pow_le_mono_r; lia). lia. }
  set (m := Nat.iter (Z.to_nat (prec - d)) xO p).
  assert (Hm : Zpos m = Zpos p * 2 ^ (prec - d)).
  { unfold m. rewrite iter_xO_nat_value, Z2Nat.id by lia. reflexivity. }
  assert (Hn : normal m (d - prec)).
  { split; [|unfold SpecFloat.emin, prec, emax in *; lia].
    apply digits2_pos_unique. rewrite Hm.
    assert (0 < 2 ^ (prec - d)) by (apply Z.pow_pos_nonneg; lia).
    assert (2 ^ prec = 2 ^ d * 2 ^ (prec - d)).
    { rewrite <- pow2_split by lia. f_equal. lia. }
    assert (2 ^ (prec - 1) = 2 ^ (d - 1) * 2 ^ (prec - d)).
    { rewrite <- pow2_split by lia. f_equal. lia. }
    split; nia. }
  exists m, (d - prec). repeat split; try lia; try apply Hn.
  - unfold ofZ. cbn [binary_normalize].
    apply binary_round_exact; [exact Hn| |].
    + intro H. assert (d = prec) by lia.
      rewrite Hm. replace (prec - d) with 0 by lia.
      replace (d - prec - 0) with 0 by lia. rewrite Z.pow_0_r. lia.
    + intros _. rewrite Hm. f_equal. f_equal. lia.
  - rewrite Hm. f_equal. f_equal. lia.
Qed.

(** A mantissa and exponent with the value of an integer round to the
    float of that integer. *)
Lemma round_int : forall s z m0 e0,
  Zpos z < 2 ^ prec -> e0 <= 0 -> Zpos m0 = Zpos z * 2 ^ (- e0) ->
  binary_round prec emax s m0 e0 =
  match ofZ (Zpos z) with
  | S754_finite _ m e => S754_finite s m e
  | other => other
  end.
Proof.
  intros s z m0 e0 Hz He0 Hv.
  destruct (ofZ_pos z Hz) as (m & e & -> & Hn & He & Hm).
  apply binary_round_exact; [exact Hn| |].
  - intro H. rewrite Hm, Hv, <- Z.mul_assoc, <- pow2_split by lia.
    f_equal. f_equal. lia.
  - intro H. rewrite Hm, Hv, <- Z.mul_assoc, <- pow2_split by lia.
    f_equal. f_equal. lia.
Qed.

Lemma ofZ_0 : ofZ 0 = S754_zero false.
Proof. reflexivity. Qed.

Lemma SFadd_ofZ : forall a b,
  0 <= a -> 0 <= b -> a + b < 2 ^ prec ->
  SF64add (ofZ a) (ofZ b) = ofZ (a + b).
Proof.
  intros a b Ha Hb Hab. unfold SF64add.
  destruct a as [|a|a]; [|
    destruct b as [|b|b]; [| |lia] | lia].
  - rewrite ofZ_0. cbn [Z.add].
    destruct b as [|b|b]; [reflexivity| |lia].
    destruct (ofZ_pos b Hab) as (m & e & -> & _). reflexivity.
  - rewrite ofZ_0, Z.add_0_r.
    destruct (ofZ_pos a ltac:(lia)) as (m & e & -> & _). reflexivity.
  - destruct (ofZ_pos a ltac:(lia)) as (ma & ea & -> & Hna & Hea & Hma).
    destruct (ofZ_pos b ltac:(lia)) as (mb & eb & -> & Hnb & Heb & Hmb).
    cbn [SFadd cond_Zopp].
    rewrite !shl_align_value by lia.
    set (ez := Z.min ea eb).
    assert (Hsum : Zpos ma * 2 ^ (ea - ez) + Zpos mb * 2 ^ (eb - ez) =
                   Zpos (a + b) * 2 ^ (- ez)).
    { rewrite Hma, Hmb, <- !Z.mul_assoc, <- !pow2_split by lia.
      replace (- ea + (ea - ez)) with (- ez) by lia.
      replace (- eb + (eb - ez)) with (- ez) by lia.
      rewrite Pos2Z.inj_add. lia. }
    destruct (Zpos ma * 2 ^ (ea - ez) + Zpos mb * 2 ^ (eb - ez)) as [|q|q] eqn:E.
    + assert (0 < 2 ^ (- ez)) by (apply Z.pow_pos_nonneg; lia). lia.
    + cbn [binary_normalize].
      rewrite (round_int false (a + b)%positive q ez) by (try exact Hsum; lia).
      destruct (ofZ_pos (a + b) Hab) as (m & e & Heq & _).
      change (Zpos a + Zpos b) with (Zpos (a + b)). rewrite Heq. reflexivity.
    + assert (0 < 2 ^ (- ez)) by (apply Z.pow_pos_nonneg; lia). lia.
Qed.

Lemma SFsub_ofZ : forall a b,
  0 <= b -> b <= a -> a < 2 ^ prec ->
  SF64sub (ofZ a) (ofZ b) = ofZ (a - b).
Proof.
  intros a b Hb Hba Ha. unfold SF64sub.
  destruct b as [|b|b]; [| |lia].
  - rewrite ofZ_0, Z.sub_0_r.
    destruct a as [|a|a]; [reflexivity| |lia].
    destruct (ofZ_pos a Ha) as (m & e & -> & _). reflexivity.
  - destruct a as [|a|a]; [lia| |lia].
    destruct (ofZ_pos a ltac:(lia)) as (ma & ea & -> & Hna & Hea & Hma).
    destruct (ofZ_pos b ltac:(lia)) as (mb & eb & -> & Hnb & Heb & Hmb).
    cbn [SFsub cond_Zopp].
    rewrite !shl_align_value by lia.
    set (ez := Z.min ea eb).
    assert (Hdiff : Zpos ma * 2 ^ (ea - ez) - Zpos mb * 2 ^ (eb - ez) =
                    (Zpos a - Zpos b) * 2 ^ (- ez)).
    { rewrite Hma, Hmb, <- !Z.mul_assoc, <- !pow2_split by lia.
      replace (- ea + (ea - ez)) with (- ez) by lia.
      replace (- eb + (eb - ez)) with (- ez) by lia. lia. }
    assert (Hpow : 0 < 2 ^ (- ez)) by (apply Z.pow_pos_nonneg; lia).
    destruct (Zpos ma * 2 ^ (ea - ez) - Zpos mb * 2 ^ (eb - ez)) as [|q|q] eqn:E.
    + assert (Zpos a - Zpos b = 0) by nia.
      replace (Zpos a - Zpos b) with 0 by lia. reflexivity.
    + destruct (Zpos a - Zpos b) as [|d|d] eqn:Ed; [lia| |lia].
      cbn [binary_normalize].
      rewrite (round_int false d q ez) by (try exact Hdiff; lia).
      destruct (ofZ_pos d ltac:(lia)) as (m & e & Heq & _).
      rewrite Heq. reflexivity.
    + nia.
Qed.

(** Normal numbers compare as their values do. *)
Lemma SFcompare_normal : forall m1 e1 m2 e2,
  normal m1 e1 -> normal m2 e2 ->
  SFcompare (S754_finite false m1 e1) (S754_finite false m2 e2) =
  Some (Zpos m1 * 2 ^ (e1 - SpecFloat.emin prec emax)
        ?= Zpos m2 * 2 ^ (e2 - SpecFloat.emin prec emax)).
Proof.
  intros m1 e1 m2 e2 [Hd1 He1] [Hd2 He2].
  pose proof (digits2_pos_bounds m1) as Hb1. rewrite Hd1 in Hb1.
  pose proof (digits2_pos_bounds m2) as Hb2. rewrite Hd2 in Hb2.
  assert (Hhalf : 2 ^ prec = 2 * 2 ^ (prec - 1)) by reflexivity.
  cbn [SFcompare]. f_equal.
  set (emin := SpecFloat.emin prec emax) in *.
  destruct (Z.compare_spec e1 e2) as [Heq|Hlt|Hgt].
  - subst e2. rewrite Pos.compare_cont_spec. unfold Pos.switch_Eq.
    rewrite Pos2Z.inj_compare.
    rewrite (Zmult_compare_compat_r (Zpos m1) (Zpos m2) (2 ^ (e1 - emin)))
      by (apply Z.lt_gt, Z.pow_pos_nonneg; lia).
    destruct (Zpos m1 * 2 ^ (e1 - emin) ?= Zpos m2 * 2 ^ (e1 - emin));
      reflexivity.
  - symmetry. apply Z.compare_lt_iff.
    assert (2 ^ (e2 - emin) = 2 ^ (e2 - e1 - 1) * 2 * 2 ^ (e1 - emin)).
    { rewrite <- Z.mul_assoc, <- Z.pow_succ_r, <- pow2_split by lia. f_equal. lia. }
    assert (0 < 2 ^ (e2 - e1 - 1)) by (apply Z.pow_pos_nonneg; lia).
    assert (0 < 2 ^ (e1 - emin)) by (apply Z.pow_pos_nonneg; lia).
    nia.
  - symmetry. apply Z.compare_gt_iff.
    assert (2 ^ (e1 - emin) = 2 ^ (e1 - e2 - 1) * 2 * 2 ^ (e2 - emin)).
    { rewrite <- Z.mul_assoc, <- Z.pow_succ_r, <- pow2_split by lia. f_equal. lia. }
    assert (0 < 2 ^ (e1 - e2 - 1)) by (apply Z.pow_pos_nonneg; lia).
    assert (0 < 2 ^ (e2 - emin)) by (apply Z.pow_pos_nonneg; lia).
    nia.
Qed.

Lemma scaled_ofZ : forall z m e,
  e <= 0 -> Zpos m = z * 2 ^ (- e) -> SpecFloat.emin prec emax <= e ->
  Zpos m * 2 ^ (e - SpecFloat.emin prec emax) =
  z * 2 ^ (- SpecFloat.emin prec emax).
Proof.
  intros z m e He Hm Hemin. rewrite Hm, <- Z.mul_assoc, <- pow2_split by lia.
  f_equal. f_equal. lia.
Qed.

Lemma SFcompare_ofZ : forall a b,
  0 <= a < 2 ^ prec -> 0 <= b < 2 ^ prec ->
  SFcompare (ofZ a) (ofZ b) = Some (a ?= b).
Proof.
  intros a b Ha Hb.
  destruct a as [|a|a]; [| |lia]; (destruct b as [|b|b]; [| |lia]).
  - reflexivity.
  - destruct (ofZ_pos b ltac:(lia)) as (m & e & -> & _). reflexivity.
  - destruct (ofZ_pos a ltac:(lia)) as (m & e & -> & _). reflexivity.
  - destruct (ofZ_pos a ltac:(lia)) as (ma & ea & -> & Hna & Hea & Hma).
    destruct (ofZ_pos b ltac:(lia)) as (mb & eb & -> & Hnb & Heb & Hmb).
    rewrite SFcompare_normal by assumption.
    rewrite (scaled_ofZ (Zpos a) ma ea), (scaled_ofZ (Zpos b) mb eb)
      by (try assumption; try apply Hna; try apply Hnb; lia).
    f_equal. symmetry. apply Zmult_compare_compat_r. reflexivity.
Qed.

End FloatExact.

(** ** Rounding to 53 bits *)

Module FloatRound.
Import Num NumFacts Binary64 FloatOrder FloatSub FloatExact.
Local Open Scope Z_scope.

Lemma shr_1_m : forall r, 0 <= shr_m r -> shr_m (shr_1 r) = shr_m r / 2.
Proof.
  intros [m r s] H. cbn [shr_m] in H.
  destruct m as [|[p|p|]|p]; cbn [shr_1 shr_m]; try lia.
  - reflexivity.
  - apply Z.div_unique with 1; [lia|]. rewrite (Pos2Z.inj_xI p). lia.
  - apply Z.div_unique with 0; [lia|]. rewrite (Pos2Z.inj_xO p). lia.
  - reflexivity.
Qed.

Lemma iter_shr_m : forall k r,
  0 <= shr_m r -> shr_m (Nat.iter k shr_1 r) = shr_m r / 2 ^ Z.of_nat k.
Proof.
  induction k as [|k IH]; intros r H.
  - cbn [Nat.iter nat_rect Z.of_nat]. rewrite Z.pow_0_r, Z.div_1_r. reflexivity.
  - change (Nat.iter (S k) shr_1 r) with (shr_1 (Nat.iter k shr_1 r)).
    rewrite shr_1_m; rewrite IH by exact H.
    + rewrite Z.div_div by (try apply Z.pow_pos_nonneg; lia).
      rewrite Nat2Z.inj_succ, Z.pow_succ_r by lia. f_equal. lia.
    + apply Z.div_pos; [exact H | apply Z.pow_pos_nonneg; lia].
Qed.

Lemma round_nearest_even_cases : forall m l,
  round_nearest_even m l = m \/ round_nearest_even m l = m + 1.
Proof.
  intros m l. destruct l as [|[| |]]; cbn [round_nearest_even]; auto.
  destruct (Z.even m); auto.
Qed.

Lemma shr_record_of_loc_m : forall m l, shr_m (shr_record_of_loc m l) = m.
Proof. intros m l. destruct l as [|[| |]]; reflexivity. Qed.

Lemma loc_of_shr_record_of_loc : forall m l,
  loc_of_shr_record (shr_record_of_loc m l) = l.
Proof. intros m l. destruct l as [|[| |]]; reflexivity. Qed.

(** The mantissa after the shift that brings it to 53 bits. *)
Lemma shr_fexp_m : forall mx ex l j,
  Zpos (digits2_pos mx) = prec + j -> 0 <= j ->
  SpecFloat.emin prec emax <= ex + j ->
  exists mrs,
    shr_fexp prec emax (Zpos mx) ex l = (mrs, ex + j) /\
    shr_m mrs = Zpos mx / 2 ^ j /\
    (j = 0 -> mrs = shr_record_of_loc (Zpos mx) l).
Proof.
  intros mx ex l j Hd Hj He. unfold shr_fexp. cbn [Zdigits2]. rewrite Hd.
  replace (fexp prec emax (prec + j + ex) - ex) with j
    by (unfold fexp, SpecFloat.emin, prec, emax in *; lia).
  unfold shr. destruct j as [|p|p]; [| |lia].
  - eexists. split; [f_equal; lia|]. split; [|reflexivity].
    rewrite shr_record_of_loc_m, Z.pow_0_r, Z.div_1_r. reflexivity.
  - eexists. split; [reflexivity|]. split; [|discriminate].
    rewrite iter_pos_nat, iter_shr_m, shr_record_of_loc_m, positive_nat_Z.
    + reflexivity.
    + rewrite shr_record_of_loc_m. lia.
Qed.

(** Rounding a mantissa of [53 + j] bits: [j] bits are dropped, the
    mantissa that is left is kept or incremented, and an increment to
    [2^53] moves to the next exponent. *)
Lemma binary_round_aux_enclosure : forall sx mx ex l j,
  Zpos (digits2_pos mx) = prec + j -> 0 <= j ->
  SpecFloat.emin prec emax <= ex + j ->
  ex + j <= emax - prec ->
  (ex + j + 1 <= emax - prec \/ Zpos mx / 2 ^ j + 1 < 2 ^ prec) ->
  exists mr er,
    binary_round_aux prec emax sx (Zpos mx) ex l = S754_finite sx mr er /\
    normal mr er /\
    ((er = ex + j /\
      (Zpos mr = Zpos mx / 2 ^ j \/ Zpos mr = Zpos mx / 2 ^ j + 1)) \/
     (er = ex + j + 1 /\ Zpos mr = 2 ^ (prec - 1) /\
      Zpos mx / 2 ^ j + 1 = 2 ^ prec)).
Proof.
  intros sx mx ex l j Hd Hj Hemin Hemax Hover.
  destruct (shr_fexp_m mx ex l j Hd Hj Hemin) as (mrs & E1 & Hm1 & _).
  unfold binary_round_aux. rewrite E1.
  set (m1 := Zpos mx / 2 ^ j) in *.
  assert (Hm1r : 2 ^ (prec - 1) <= m1 < 2 ^ prec).
  { pose proof (digits2_pos_bounds mx) as Hb. rewrite Hd in Hb.
    replace (prec + j - 1) with ((prec - 1) + j) in Hb by lia.
    rewrite !pow2_split in Hb by (unfold prec; lia).
    assert (0 < 2 ^ j) by (apply Z.pow_pos_nonneg; lia).
    unfold m1. split.
    - apply Z.div_le_lower_bound; lia.
    - apply Z.div_lt_upper_bound; lia. }
  rewrite Hm1.
  assert (Hpow : 2 ^ prec = 2 * 2 ^ (prec - 1)) by reflexivity.
  destruct (round_nearest_even_cases m1 (loc_of_shr_record mrs)) as [E2|E2];
    rewrite E2.
  - (* kept *)
    destruct m1 as [|p1|p1] eqn:Ep; try lia.
    assert (Hd1 : Zpos (digits2_pos p1) = prec)
      by (apply digits2_pos_unique; lia).
    destruct (shr_fexp_m p1 (ex + j) loc_Exact 0) as (mrs2 & E3 & Hm3 & Hrec);
      try lia.
    rewrite E3, (Hrec eq_refl). cbn [shr_record_of_loc shr_m].
    replace (ex + j + 0 <=? emax - prec) with true
      by (symmetry; apply Z.leb_le; lia).
    exists p1, (ex + j + 0). split; [reflexivity|].
    split; [split; [exact Hd1 | lia]|].
    left. split; [lia|]. left. reflexivity.
  - (* incremented *)
    destruct (m1 + 1) as [|p1|p1] eqn:Ep; try lia.
    destruct (Z.eq_dec (Zpos p1) (2 ^ prec)) as [Etop|Ntop].
    + assert (Hd1 : Zpos (digits2_pos p1) = prec + 1)
        by (apply digits2_pos_unique; rewrite Etop;
            replace (prec + 1 - 1) with prec by lia;
            split; [lia | reflexivity]).
      destruct (shr_fexp_m p1 (ex + j) loc_Exact 1) as (mrs2 & E3 & Hm3 & _);
        try lia.
      rewrite E3, Hm3, Etop.
      change (2 ^ prec / 2 ^ 1) with (2 ^ (prec - 1)).
      change (2 ^ (prec - 1)) with (Zpos 4503599627370496).
      cbv iota.
      replace (ex + j + 1 <=? emax - prec) with true
        by (symmetry; apply Z.leb_le; lia).
      exists 4503599627370496%positive, (ex + j + 1).
      split; [reflexivity|].
      split; [split; [reflexivity | lia]|].
      right. split; [reflexivity|]. split; [reflexivity|]. lia.
    + assert (Hd1 : Zpos (digits2_pos p1) = prec)
        by (apply digits2_pos_unique; lia).
      destruct (shr_fexp_m p1 (ex + j) loc_Exact 0) as (mrs2 & E3 & Hm3 & Hrec);
        try lia.
        rewrite E3, (Hrec eq_refl). cbn [shr_record_of_loc shr_m].
      replace (ex + j + 0 <=? emax - prec) with true
        by (symmetry; apply Z.leb_le; lia).
      exists p1, (ex + j + 0). split; [reflexivity|].
      split; [split; [exact Hd1 | lia]|].
      left. split; [lia|]. right. lia.
Qed.

(** A mantissa of 53 bits that is exact or below the middle is kept. *)
Lemma binary_round_aux_kept : forall sx mx ex l,
  normal mx ex -> l = loc_Exact \/ l = loc_Inexact Lt ->
  binary_round_aux prec emax sx (Zpos mx) ex l = S754_finite sx mx ex.
Proof.
  intros sx mx ex l [Hd He] Hl.
  destruct (shr_fexp_m mx ex l 0) as (mrs & E1 & Hm1 & Hrec);
    try (rewrite ?Z.add_0_r; lia).
  unfold binary_round_aux. rewrite E1, (Hrec eq_refl).
  rewrite loc_of_shr_record_of_loc, shr_record_of_loc_m.
  assert (E2 : round_nearest_even (Zpos mx) l = Zpos mx)
    by (destruct Hl as [-> | ->]; reflexivity).
  rewrite E2.
  destruct (shr_fexp_m mx (ex + 0) loc_Exact 0) as (mrs2 & E3 & Hm3 & Hrec2);
    try (rewrite ?Z.add_0_r; lia).
  rewrite E3, (Hrec2 eq_refl). cbn [shr_record_of_loc shr_m].
  replace (ex + 0 + 0 <=? emax - prec) with true
    by (symmetry; apply Z.leb_le; lia).
  f_equal. lia.
Qed.

End FloatRound.

(** ** The quotient of a normal number by the square of its root *)

Module SelfSimilarity.
Import Num NumFacts Binary64 FloatOrder FloatSub FloatExact FloatRound.
Local Open Scope Z_scope.

Lemma normal_range : forall m e,
  normal m e -> 2 ^ 52 <= Zpos m < 2 ^ 53.
Proof.
  intros m e [Hd _]. pose proof (digits2_pos_bounds m) as Hb.
  rewrite Hd in Hb. exact Hb.
Qed.

(** [Math.sqrt] of a normal number: the root of the mantissa aligned to
    an even exponent, kept or incremented. *)
Lemma SFsqrt_normal : forall m e,
  normal m e ->
  exists ms s,
    SFsqrt prec emax (S754_finite false m e) =
      S754_finite false ms (Z.div2 e - 26) /\
    (s = 52 \/ s = 53) /\ s = e - 2 * Z.div2 e + 52 /\
    2 ^ 52 <= Zpos ms < 2 ^ 53 /\
    (Zpos ms - 1) * (Zpos ms - 1) <= Zpos m * 2 ^ s /\
    Zpos m * 2 ^ s < (Zpos ms + 1) * (Zpos ms + 1).
Proof.
  intros m e Hn. pose proof (normal_range m e Hn) as Hm.
  destruct Hn as [Hd He].
  unfold SFsqrt, SFsqrt_core_binary. cbn [Zdigits2]. rewrite Hd.
  replace (Z.min (fexp prec emax (Z.div2 (prec + e + 1))) (Z.div2 e))
    with (Z.div2 e - 26)
    by (unfold fexp, SpecFloat.emin, prec, emax in *;
        rewrite !Z.div2_div; Z.div_mod_to_equations; lia).
  set (s := e - 2 * (Z.div2 e - 26)).
  assert (Hs : s = 52 \/ s = 53)
    by (unfold s; rewrite Z.div2_div; Z.div_mod_to_equations; lia).
  assert (Es : s = e - 2 * Z.div2 e + 52) by (unfold s; lia).
  assert (Hshift : match s with
                   | 0 => Zpos m
                   | Zpos _ => Z.shiftl (Zpos m) s
                   | Zneg _ => 0
                   end = Zpos m * 2 ^ s).
  { destruct Hs as [-> | ->]; cbv iota; apply Z.shiftl_mul_pow2; lia. }
  rewrite Hshift.
  assert (HM : 2 ^ 104 <= Zpos m * 2 ^ s < 2 ^ 106).
  { destruct Hs as [-> | ->]; lia. }
  assert (HMtop : Zpos m * 2 ^ s <= (2 ^ 53 - 1) * 2 ^ 53).
  { destruct Hs as [-> | ->]; lia. }
  pose proof (Z.sqrtrem_spec (Zpos m * 2 ^ s) ltac:(lia)) as Hsq.
  destruct (Z.sqrtrem (Zpos m * 2 ^ s)) as [q r].
  destruct Hsq as [Hq Hr].
  assert (Hqr : 2 ^ 52 <= q < 2 ^ 53) by nia.
  destruct q as [|pq|pq]; try lia.
  assert (Hdq : Zpos (digits2_pos pq) = prec)
    by (apply digits2_pos_unique; exact Hqr).
  assert (Hnq : normal pq (Z.div2 e - 26)).
  { split; [exact Hdq|].
    unfold SpecFloat.emin, prec, emax in *. rewrite Z.div2_div.
    Z.div_mod_to_equations. lia. }
  destruct (r =? 0) eqn:Er0; [|destruct (r <=? Zpos pq) eqn:Erq].
  - apply Z.eqb_eq in Er0.
    rewrite binary_round_aux_kept by (try exact Hnq; now left).
    exists pq, s. repeat split; try assumption; try lia; nia.
  - apply Z.leb_le in Erq.
    rewrite binary_round_aux_kept by (try exact Hnq; now right).
    exists pq, s. repeat split; try assumption; try lia; nia.
  - apply Z.leb_gt in Erq.
    assert (Hq1 : Zpos pq + 1 < 2 ^ 53) by nia.
    destruct (binary_round_aux_enclosure false pq (Z.div2 e - 26)
                (loc_Inexact Gt) 0) as (mr & er & -> & Hnr & Hcase).
    + rewrite Hdq. lia.
    + lia.
    + destruct Hnq as [_ Hex]. lia.
    + destruct Hnq as [_ Hex]. lia.
    + right. rewrite Z.pow_0_r, Z.div_1_r. exact Hq1.
    + rewrite Z.pow_0_r, Z.div_1_r in Hcase.
      destruct Hcase as [[-> Hmr]|(_ & _ & Habs)];
        [|change (2 ^ prec) with (2 ^ 53) in Habs; lia].
      exists mr, s. rewrite Z.add_0_r.
      split; [reflexivity|]. split; [exact Hs|]. split; [exact Es|].
      destruct Hmr as [Hmr|Hmr]; rewrite Hmr;
        (split; [lia|]); split; nia.
Qed.


(** The square of the root: a mantissa of 105 or 106 bits brought to 53
    bits. *)
Lemma SFmul_square : forall ms es,
  2 ^ 52 <= Zpos ms < 2 ^ 53 -> -563 <= es <= 459 ->
  exists mp ep k ren,
    SFmul prec emax (S754_finite false ms es) (S754_finite false ms es) =
      S754_finite false mp ep /\
    normal mp ep /\ (k = 52 \/ k = 53) /\ (ren = 0 \/ ren = 1) /\
    ep = 2 * es + k + ren /\
    2 ^ (52 + k) <= Zpos ms * Zpos ms /\
    Zpos ms * Zpos ms - 2 ^ k < Zpos mp * 2 ^ (k + ren) /\
    Zpos mp * 2 ^ (k + ren) <= Zpos ms * Zpos ms + 2 ^ k.
Proof.
  intros ms es Hms Hes. cbn [SFmul xorb].
  rewrite Pos2Z.inj_mul.
  set (W := Zpos ms * Zpos ms).
  assert (HW : 2 ^ 104 <= W <= (2 ^ 53 - 1) * (2 ^ 53 - 1)) by (unfold W; nia).
  assert (Hk : exists k, (k = 52 \/ k = 53) /\ 2 ^ (52 + k) <= W < 2 ^ (53 + k)).
  { destruct (Z.lt_ge_cases W (2 ^ 105)) as [H|H].
    - exists 52. split; [now left|]. lia.
    - exists 53. split; [now right|]. lia. }
  destruct Hk as (k & Hk & HWk).
  assert (HWpos : exists pw, W = Zpos pw).
  { destruct W as [|pw|pw]; try lia. now exists pw. }
  destruct HWpos as [pw Epw]. rewrite Epw in *.
  assert (Hdw : Zpos (digits2_pos pw) = prec + k).
  { apply digits2_pos_unique.
    replace (prec + k - 1) with (52 + k) by (unfold prec; lia).
    replace (prec + k) with (53 + k) by (unfold prec; lia). exact HWk. }
  assert (Hdiv : 2 ^ k * (Zpos pw / 2 ^ k) <= Zpos pw < 2 ^ k * (Zpos pw / 2 ^ k + 1)).
  { assert (0 < 2 ^ k) by (destruct Hk as [-> | ->]; lia).
    pose proof (Z.mul_div_le (Zpos pw) (2 ^ k) ltac:(lia)).
    pose proof (Z.mul_succ_div_gt (Zpos pw) (2 ^ k) ltac:(lia)).
    lia. }
  destruct (binary_round_aux_enclosure false pw (es + es) loc_Exact k)
    as (mp & ep & -> & Hnp & Hcase).
  - exact Hdw.
  - destruct Hk as [-> | ->]; lia.
  - unfold SpecFloat.emin, prec, emax. destruct Hk as [-> | ->]; lia.
  - unfold prec, emax. destruct Hk as [-> | ->]; lia.
  - destruct Hk as [-> | ->].
    + left. unfold prec, emax. lia.
    + right. unfold prec. lia.
  - exists mp, ep, k.
    destruct Hcase as [[-> Hmp]|(-> & Hmp & Htop)].
    + exists 0. split; [reflexivity|]. split; [exact Hnp|].
      split; [exact Hk|]. split; [now left|]. split; [lia|].
      split; [lia|]. rewrite Z.add_0_r.
      destruct Hmp as [-> | ->]; lia.
    + exists 1. split; [reflexivity|]. split; [exact Hnp|].
      split; [exact Hk|]. split; [now right|]. split; [lia|].
      split; [lia|].
      rewrite Hmp.
      replace (2 ^ (prec - 1) * 2 ^ (k + 1)) with (2 ^ prec * 2 ^ k)
        by (destruct Hk as [-> | ->]; reflexivity).
      rewrite <- Htop. lia.
Qed.


(** The quotient of the sum of squares by the square of its root, before
    rounding: [y] is the mantissa of the root, [M] and [P] are the sum
    and the square on a common exponent, [c] is one unit of the square. *)
Lemma ratio_bounds : forall y c M P,
  2 ^ 52 <= y < 2 ^ 53 -> 0 < c -> c * 2 ^ 52 <= y * y ->
  (y - 1) * (y - 1) <= M -> M < (y + 1) * (y + 1) ->
  y * y - c < P -> P <= y * y + c ->
  (2 ^ 52 - 3) * P <= M * 2 ^ 52 /\ M * 2 ^ 53 <= (2 ^ 53 + 7) * P.
Proof.
  intros y c M P Hy Hc Hcy HM1 HM2 HP1 HP2.
  assert (Hyy : 2 ^ 52 * y <= y * y) by nia.
  assert (Hc7 : 7 * c <= 2 ^ 52 * y) by nia.
  split.
  - assert ((2 ^ 52 - 3) * P <= (2 ^ 52 - 2) * (y * y)) by nia.
    assert ((2 ^ 52 - 2) * (y * y) <= (y - 1) * (y - 1) * 2 ^ 52) by nia.
    nia.
  - assert (M * 2 ^ 53 <= (y * y + 2 * y) * 2 ^ 53) by nia.
    assert ((y * y + 2 * y) * 2 ^ 53 <= (2 ^ 53 + 7) * (y * y - c + 1)) by nia.
    nia.
Qed.


Ltac enclose_quotient pq rd j :=
  match goal with
  | |- nearOne (binary_round_aux _ _ _ _ ?e ?l) =>
      let mr := fresh "mr" in
      let er := fresh "er" in
      let E := fresh "E" in
      let Hn := fresh "Hn" in
      let Hcase := fresh "Hcase" in
      destruct (binary_round_aux_enclosure false pq e l j)
        as (mr & er & E & Hn & Hcase);
      [ apply digits2_pos_unique; unfold prec; lia
      | lia
      | unfold SpecFloat.emin, prec, emax; lia
      | unfold prec, emax; lia
      | left; unfold prec, emax; lia
      | rewrite E; exists mr, er; split; [reflexivity|];
        change (2 ^ prec) with (2 ^ 53) in Hcase;
        change (2 ^ (prec - 1)) with (2 ^ 52) in Hcase;
        pose proof (normal_range mr er Hn);
        revert Hcase; Z.div_mod_to_equations; lia ]
  end.

(** The division, for a quotient within [3 * 2^-52] below and
    [7 * 2^-53] above [1] before rounding: [T] is [2^(e - ep + 1)]. *)
Lemma SFdiv_near_one : forall m e mp ep T,
  normal m e -> normal mp ep ->
  (e - ep = -1 /\ T = 1) \/ (e - ep = 0 /\ T = 2) \/ (e - ep = 1 /\ T = 4) ->
  2 * (2 ^ 52 - 3) * Zpos mp <= Zpos m * T * 2 ^ 52 ->
  Zpos m * T * 2 ^ 53 <= 2 * (2 ^ 53 + 7) * Zpos mp ->
  nearOne (SFdiv prec emax (S754_finite false m e) (S754_finite false mp ep)).
Proof.
  intros m e mp ep T Hn Hnp Ht Hlo Hhi.
  pose proof (normal_range m e Hn) as Hm.
  pose proof (normal_range mp ep Hnp) as Hmp.
  destruct Hn as [Hd He]. destruct Hnp as [Hdp Hep].
  unfold SFdiv, SFdiv_core_binary. cbn [Zdigits2 xorb]. rewrite Hd, Hdp.
  replace (Z.min (fexp prec emax (prec + e - (prec + ep))) (e - ep))
    with (e - ep - 53)
    by (unfold fexp, SpecFloat.emin, prec, emax in *; lia).
  replace (e - ep - (e - ep - 53)) with 53 by lia. cbv iota.
  rewrite Z.shiftl_mul_pow2 by lia.
  pose proof (Z_div_mod (Zpos m * 2 ^ 53) (Zpos mp) ltac:(lia)) as Hdiv.
  destruct (Z.div_eucl (Zpos m * 2 ^ 53) (Zpos mp)) as [qd rd].
  destruct Hdiv as [Hq Hr].
  assert (Hq52 : 2 ^ 52 <= qd) by nia.
  destruct qd as [|pq|pq]; try lia.
  destruct Ht as [[Et ->]|[[Et ->]|[Et ->]]]; rewrite Et.
  - (* e - ep = -1: the quotient is near 2^54 *)
    assert (Hrange : 2 ^ 54 - 12 <= Zpos pq <= 2 ^ 54 + 14) by nia.
    destruct (Z.lt_ge_cases (Zpos pq) (2 ^ 54)) as [Hlt|Hge].
    + enclose_quotient pq rd 1.
    + enclose_quotient pq rd 2.
  - (* e - ep = 0: the quotient is near 2^53 *)
    assert (Hrange : 2 ^ 53 - 6 <= Zpos pq <= 2 ^ 53 + 7) by nia.
    destruct (Z.lt_ge_cases (Zpos pq) (2 ^ 53)) as [Hlt|Hge].
    + enclose_quotient pq rd 0.
    + enclose_quotient pq rd 1.
  - (* e - ep = 1: the quotient is near 2^52 *)
    assert (Hrange : 2 ^ 52 <= Zpos pq <= 2 ^ 52 + 3) by nia.
    enclose_quotient pq rd 0.
Qed.


(** [n / (sqrt n * sqrt n)] for a normal [n]. *)
Lemma self_ratio_near_one : forall m e,
  normal m e ->
  nearOne
    (SFdiv prec emax (S754_finite false m e)
       (SFmul prec emax (SFsqrt prec emax (S754_finite false m e))
                        (SFsqrt prec emax (S754_finite false m e)))).
Proof.
  intros m e Hn.
  destruct (SFsqrt_normal m e Hn) as (ms & s & -> & Hs & Es & Hms & HA1 & HA2).
  assert (Hes : -563 <= Z.div2 e - 26 <= 459).
  { destruct Hn as [_ He]. unfold SpecFloat.emin, prec, emax in He.
    rewrite Z.div2_div. Z.div_mod_to_equations. lia. }
  destruct (SFmul_square ms (Z.div2 e - 26) Hms Hes)
    as (mp & ep & k & ren & -> & Hnp & Hk & Hren & Eep & Hc & HB1 & HB2).
  pose proof (normal_range m e Hn) as Hm.
  pose proof (normal_range mp ep Hnp) as Hmp.
  assert (Hck : 0 < 2 ^ k /\ 2 ^ (52 + k) = 2 ^ k * 2 ^ 52).
  { destruct Hk as [-> | ->]; split; lia. }
  destruct Hck as [Hc0 Hc52]. rewrite Hc52 in Hc.
  destruct (ratio_bounds (Zpos ms) (2 ^ k) (Zpos m * 2 ^ s)
              (Zpos mp * 2 ^ (k + ren)) Hms Hc0 Hc HA1 HA2 HB1 HB2)
    as [Hlo Hhi].
  assert (Et : e - ep = s - k - ren) by lia.
  destruct Hs as [-> | ->]; destruct Hk as [-> | ->];
    destruct Hren as [-> | ->];
    change (52 + 0) with 52 in *; change (52 + 1) with 53 in *;
    change (53 + 0) with 53 in *; change (53 + 1) with 54 in *;
    first
      [ exfalso; lia
      | apply (SFdiv_near_one m e mp ep 1); try assumption;
        [left; split; [lia | reflexivity] | lia | lia]
      | apply (SFdiv_near_one m e mp ep 2); try assumption;
        [right; left; split; [lia | reflexivity] | lia | lia]
      | apply (SFdiv_near_one m e mp ep 4); try assumption;
        [right; right; split; [lia | reflexivity] | lia | lia] ].
Qed.

Local Open Scope float_scope.

Lemma nearOne_approx_one : forall x,
  nearOne (Prim2SF x) -> approx_one 0x1p-50 x = true.
Proof.
  intros x (mr & er & E & Hcase).
  rewrite <- (SF2Prim_Prim2SF x), E.
  destruct Hcase as [[-> Hr]|[-> Hr]].
  - assert (Hmr : mr = 9007199254740985%positive \/
                  mr = 9007199254740986%positive \/
                  mr = 9007199254740987%positive \/
                  mr = 9007199254740988%positive \/
                  mr = 9007199254740989%positive \/
                  mr = 9007199254740990%positive \/
                  mr = 9007199254740991%positive) by lia.
    repeat (destruct Hmr as [-> |Hmr]; [vm_compute; reflexivity|]).
    subst mr. vm_compute. reflexivity.
  - assert (Hmr : mr = 4503599627370496%positive \/
                  mr = 4503599627370497%positive \/
                  mr = 4503599627370498%positive \/
                  mr = 4503599627370499%positive \/
                  mr = 4503599627370500%positive) by lia.
    repeat (destruct Hmr as [-> |Hmr]; [vm_compute; reflexivity|]).
    subst mr. vm_compute. reflexivity.
Qed.

End SelfSimilarity.

(** ** Rounding to the nearest, and the subnormal numbers *)

Module FloatNearest.
Import Num NumFacts Binary64 FloatOrder FloatSub FloatExact FloatRound SelfSimilarity.
Local Open Scope Z_scope.

Lemma pow2_succ : forall a, 0 <= a -> 2 ^ (a + 1) = 2 * 2 ^ a.
Proof. intros a H. rewrite Z.pow_add_r, Z.pow_1_r by lia. lia. Qed.

Lemma shr_1_spec : forall m r s,
  0 <= m ->
  m = 2 * shr_m (shr_1 (Build_shr_record m r s))
      + Z.b2z (shr_r (shr_1 (Build_shr_record m r s))) /\
  shr_s (shr_1 (Build_shr_record m r s)) = orb r s /\
  0 <= shr_m (shr_1 (Build_shr_record m r s)).
Proof.
  intros m r s H.
  destruct m as [|[p|p|]|p]; cbn [shr_1 shr_m shr_r shr_s Z.b2z];
    [ | rewrite (Pos2Z.inj_xI p) | rewrite (Pos2Z.inj_xO p) | | lia ];
    (split; [lia|]); (split; [reflexivity|]); lia.
Qed.

(** What [k + 1] shifts keep of a mantissa: the bits above, the last bit
    shifted out, and whether a bit below it was set. *)
Lemma iter_shr_spec : forall k M,
  0 <= M ->
  exists t,
    let r := Nat.iter (S k) shr_1 (Build_shr_record M false false) in
    M = shr_m r * 2 ^ (Z.of_nat k + 1) + Z.b2z (shr_r r) * 2 ^ Z.of_nat k + t /\
    0 <= t < 2 ^ Z.of_nat k /\
    (shr_s r = false <-> t = 0) /\
    0 <= shr_m r.
Proof.
  induction k as [|k IH]; intros M HM.
  - exists 0. cbv zeta.
    change (Nat.iter 1 shr_1 (Build_shr_record M false false))
      with (shr_1 (Build_shr_record M false false)).
    destruct (shr_1_spec M false false HM) as (Hm & Hs & Hpos).
    cbn [Z.of_nat Z.add]. rewrite Z.pow_0_r, Z.pow_1_r.
    split; [lia|]. split; [lia|]. split; [|exact Hpos].
    split; [reflexivity | intros _; exact Hs].
  - destruct (IH M HM) as (t & Hinv). cbv zeta in Hinv.
    set (r0 := Nat.iter (S k) shr_1 (Build_shr_record M false false)) in *.
    destruct Hinv as (HM' & Ht & Hs & Hpos).
    change (Nat.iter (S (S k)) shr_1 (Build_shr_record M false false))
      with (shr_1 r0).
    destruct r0 as [m0 b0 s0]. cbn [shr_m shr_r shr_s] in *.
    destruct (shr_1_spec m0 b0 s0 Hpos) as (Hm & Hs' & Hpos').
    exists (Z.b2z b0 * 2 ^ Z.of_nat k + t). cbv zeta.
    rewrite Hs'.
    assert (Hp1 : 2 ^ (Z.of_nat k + 1) = 2 * 2 ^ Z.of_nat k)
      by (apply pow2_succ; lia).
    assert (Hp2 : 2 ^ Z.of_nat (S k) = 2 * 2 ^ Z.of_nat k)
      by (rewrite Nat2Z.inj_succ, Z.pow_succ_r by lia; reflexivity).
    assert (Hp3 : 2 ^ (Z.of_nat (S k) + 1) = 4 * 2 ^ Z.of_nat k)
      by (rewrite pow2_succ, Hp2 by lia; lia).
    assert (Hp0 : 0 < 2 ^ Z.of_nat k) by (apply Z.pow_pos_nonneg; lia).
    rewrite Hp2, Hp3. rewrite Hp1 in HM'.
    split; [nia|]. split.
    + destruct b0; cbn [Z.b2z]; lia.
    + split; [|exact Hpos'].
      destruct b0, s0; cbn [orb Z.b2z]; split; intro H; try discriminate H;
        try reflexivity; try lia.
Qed.

(** Dropping [J] bits of [M] rounds to the nearest: a mantissa [m] at
    less than half a unit from [M / 2^J] is the result. *)
Lemma shr_nearest : forall J M m ex,
  0 < J -> 0 < M -> 0 < m ->
  - 2 ^ (J - 1) < M - m * 2 ^ J < 2 ^ (J - 1) ->
  exists mrs,
    shr (Build_shr_record M false false) ex J = (mrs, ex + J) /\
    round_nearest_even (shr_m mrs) (loc_of_shr_record mrs) = m.
Proof.
  intros J M m ex HJ HM Hm Hnear.
  destruct J as [|p|p]; try lia.
  unfold shr. rewrite iter_pos_nat.
  destruct (Pos2Nat.is_succ p) as [k Ek]. rewrite Ek.
  destruct (iter_shr_spec k M ltac:(lia)) as (t & Hinv). cbv zeta in Hinv.
  eexists. split; [reflexivity|].
  destruct (Nat.iter (S k) shr_1 (Build_shr_record M false false))
    as [m0 b0 s0]. cbn [shr_m shr_r shr_s] in *.
  destruct Hinv as (HM' & Ht & Hs & Hpos).
  assert (Ep : Zpos p = Z.of_nat k + 1) by lia.
  rewrite Ep in Hnear.
  replace (Z.of_nat k + 1 - 1) with (Z.of_nat k) in Hnear by lia.
  assert (Hp1 : 2 ^ (Z.of_nat k + 1) = 2 * 2 ^ Z.of_nat k)
    by (apply pow2_succ; lia).
  rewrite Hp1 in *.
  assert (Hp0 : 0 < 2 ^ Z.of_nat k) by (apply Z.pow_pos_nonneg; lia).
  assert (Hcmp : m0 <= m - 2 \/ m0 = m - 1 \/ m0 = m \/ m + 1 <= m0) by lia.
  destruct b0, s0; cbn [loc_of_shr_record round_nearest_even Z.b2z] in *.
  - destruct Hcmp as [H|[H|[H|H]]]; nia.
  - exfalso. destruct Hs as [Hs _]. specialize (Hs eq_refl).
    destruct Hcmp as [H|[H|[H|H]]]; nia.
  - destruct Hcmp as [H|[H|[H|H]]]; nia.
  - destruct Hcmp as [H|[H|[H|H]]]; nia.
Qed.


(** A mantissa of 53 bits above the middle is incremented. *)
Lemma binary_round_aux_up : forall sx mx ex,
  normal mx ex -> Zpos mx + 1 < 2 ^ prec ->
  binary_round_aux prec emax sx (Zpos mx) ex (loc_Inexact Gt) =
  S754_finite sx (mx + 1) ex.
Proof.
  intros sx mx ex Hn Hup.
  pose proof (normal_range mx ex Hn) as Hr. destruct Hn as [Hd He].
  destruct (shr_fexp_m mx ex (loc_Inexact Gt) 0) as (mrs & E1 & Hm1 & Hrec);
    try (rewrite ?Z.add_0_r; lia).
  unfold binary_round_aux. rewrite E1, (Hrec eq_refl).
  cbn [shr_record_of_loc shr_m loc_of_shr_record round_nearest_even].
  change (Zpos mx + 1) with (Zpos (mx + 1)).
  assert (Hd1 : Zpos (digits2_pos (mx + 1)) = prec).
  { apply digits2_pos_unique. rewrite Pos2Z.inj_add.
    change (2 ^ (prec - 1)) with (2 ^ 52). lia. }
  destruct (shr_fexp_m (mx + 1) (ex + 0) loc_Exact 0) as (mrs2 & E3 & Hm3 & Hrec2);
    try (rewrite ?Z.add_0_r; lia).
  rewrite E3, (Hrec2 eq_refl). cbn [shr_record_of_loc shr_m].
  replace (ex + 0 + 0 <=? emax - prec) with true
    by (symmetry; apply Z.leb_le; lia).
  f_equal. lia.
Qed.

(** [Math.sqrt] of a subnormal number, to the nearest: the root [ms] of
    the mantissa aligned by an even number [J] of bits. *)
Lemma SFsqrt_subnormal : forall m,
  Zpos (digits2_pos m) < prec ->
  exists ms es J,
    SFsqrt prec emax (S754_finite false m (-1074)) = S754_finite false ms es /\
    es + es = -1074 - J /\ 54 <= J <= 104 /\
    2 ^ 52 <= Zpos ms < 2 ^ 53 /\
    - Zpos ms <= Zpos ms * Zpos ms - Zpos m * 2 ^ J <= Zpos ms.
Proof.
  intros m Hd.
  pose proof (digits2_pos_bounds m) as Hm.
  set (d := Zpos (digits2_pos m)) in *.
  assert (Hd1 : 1 <= d) by (unfold d; lia).
  unfold prec in Hd.
  unfold SFsqrt, SFsqrt_core_binary. cbn [Zdigits2]. fold d.
  set (u := Z.div2 (d + -1074 + 1)).
  assert (Hu : d - 1073 = 2 * u \/ d - 1073 = 2 * u + 1).
  { unfold u. rewrite Z.div2_div. Z.div_mod_to_equations. lia. }
  replace (Z.min (fexp prec emax u) (Z.div2 (-1074))) with (u - 53)
    by (unfold fexp, SpecFloat.emin, prec, emax; change (Z.div2 (-1074)) with (-537); lia).
  set (J := -1074 - 2 * (u - 53)).
  assert (HJ : J = 105 - d \/ J = 106 - d) by (unfold J; lia).
  assert (HJr : 54 <= J <= 104 /\ exists h, J = 2 * h) .
  { split; [unfold J; lia|]. exists (- 537 - (u - 53)). unfold J. lia. }
  destruct HJr as [HJr _].
  assert (Hshift : match J with
                   | 0 => Zpos m
                   | Zpos _ => Z.shiftl (Zpos m) J
                   | Zneg _ => 0
                   end = Zpos m * 2 ^ J).
  { destruct J as [|pj|pj]; try lia. apply Z.shiftl_mul_pow2. lia. }
  rewrite Hshift.
  assert (HpJ : 0 < 2 ^ J) by (apply Z.pow_pos_nonneg; lia).
  assert (Hpd : 2 ^ d = 2 * 2 ^ (d - 1)).
  { replace d with (d - 1 + 1) at 1 by lia. apply pow2_succ. lia. }
  assert (HM : 2 ^ 104 <= Zpos m * 2 ^ J <= (2 ^ 53 - 1) * 2 ^ 53).
  { assert (HdJ : 2 ^ (d - 1) * 2 ^ J = 2 ^ 104 \/ 2 ^ (d - 1) * 2 ^ J = 2 ^ 105).
    { rewrite <- pow2_split by lia.
      destruct HJ as [-> | ->]; [left|right]; f_equal; lia. }
    assert (H54 : 2 ^ 54 <= 2 ^ J) by (apply Z.pow_le_mono_r; lia).
    destruct HdJ as [E|E]; nia. }
  pose proof (Z.sqrtrem_spec (Zpos m * 2 ^ J) ltac:(lia)) as Hsq.
  destruct (Z.sqrtrem (Zpos m * 2 ^ J)) as [q r].
  destruct Hsq as [Hq Hr].
  assert (Hqr : 2 ^ 52 <= q < 2 ^ 53) by nia.
  destruct q as [|pq|pq]; try lia.
  assert (Hnq : normal pq (u - 53)).
  { split; [apply digits2_pos_unique; exact Hqr|].
    unfold SpecFloat.emin, prec, emax. lia. }
  destruct (r =? 0) eqn:Er0; [|destruct (r <=? Zpos pq) eqn:Erq].
  - apply Z.eqb_eq in Er0.
    rewrite binary_round_aux_kept by (try exact Hnq; now left).
    exists pq, (u - 53), J. split; [reflexivity|]. split; [unfold J; lia|].
    split; [exact HJr|]. split; [exact Hqr|]. lia.
  - apply Z.leb_le in Erq.
    rewrite binary_round_aux_kept by (try exact Hnq; now right).
    exists pq, (u - 53), J. split; [reflexivity|]. split; [unfold J; lia|].
    split; [exact HJr|]. split; [exact Hqr|]. lia.
  - apply Z.leb_gt in Erq.
    assert (Hq1 : Zpos pq + 1 < 2 ^ 53) by nia.
    rewrite binary_round_aux_up by (try exact Hnq; exact Hq1).
    exists (pq + 1)%positive, (u - 53), J.
    split; [reflexivity|]. split; [unfold J; lia|].
    split; [exact HJr|]. rewrite Pos2Z.inj_add. split; [lia|]. nia.
Qed.

(** The square of that root is the subnormal number itself. *)
Lemma SFmul_sqrt_subnormal : forall m ms es J,
  Zpos (digits2_pos m) < prec ->
  es + es = -1074 - J -> 54 <= J <= 104 ->
  2 ^ 52 <= Zpos ms < 2 ^ 53 ->
  - Zpos ms <= Zpos ms * Zpos ms - Zpos m * 2 ^ J <= Zpos ms ->
  SFmul prec emax (S754_finite false ms es) (S754_finite false ms es) =
  S754_finite false m (-1074).
Proof.
  intros m ms es J Hd Hes HJ Hms Hnear.
  cbn [SFmul xorb]. unfold binary_round_aux, shr_fexp.
  cbn [Zdigits2 shr_record_of_loc].
  assert (HW : 2 ^ 104 <= Zpos (ms * ms) < 2 ^ 106)
    by (rewrite Pos2Z.inj_mul; nia).
  pose proof (digits2_pos_bounds (ms * ms)) as Hb.
  assert (Hdw : 105 <= Zpos (digits2_pos (ms * ms)) <= 106).
  { split.
    - destruct (Z.lt_ge_cases (Zpos (digits2_pos (ms * ms))) 105) as [H|H]; [|exact H].
      assert (2 ^ Zpos (digits2_pos (ms * ms)) <= 2 ^ 104)
        by (apply Z.pow_le_mono_r; lia). lia.
    - destruct (Z.le_gt_cases (Zpos (digits2_pos (ms * ms))) 106) as [H|H]; [exact H|].
      assert (2 ^ 106 <= 2 ^ (Zpos (digits2_pos (ms * ms)) - 1))
        by (apply Z.pow_le_mono_r; lia). lia. }
  replace (fexp prec emax (Zpos (digits2_pos (ms * ms)) + (es + es)) - (es + es))
    with J by (unfold fexp, SpecFloat.emin, prec, emax; lia).
  assert (HpJ : 2 ^ J = 2 * 2 ^ (J - 1)).
  { replace J with (J - 1 + 1) at 1 by lia. apply pow2_succ. lia. }
  assert (H53 : 2 ^ 53 <= 2 ^ (J - 1)) by (apply Z.pow_le_mono_r; lia).
  destruct (shr_nearest J (Zpos (ms * ms)) (Zpos m) (es + es))
    as (mrs & -> & ->); try lia.
  cbn [Zdigits2].
  replace (fexp prec emax (Zpos (digits2_pos m) + (es + es + J)) - (es + es + J))
    with 0 by (unfold fexp, SpecFloat.emin, prec, emax in *; lia).
  cbn [shr shr_m].
  replace (es + es + J <=? emax - prec) with true
    by (symmetry; apply Z.leb_le; unfold prec, emax; lia).
  f_equal. lia.
Qed.

(** A finite number divided by itself is [1]. *)
Lemma SFdiv_self : forall m e,
  SFdiv prec emax (S754_finite false m e) (S754_finite false m e) =
  S754_finite false 4503599627370496 (-52).
Proof.
  intros m e. unfold SFdiv, SFdiv_core_binary. cbn [Zdigits2 xorb].
  replace (Zpos (digits2_pos m) + e - (Zpos (digits2_pos m) + e)) with 0 by lia.
  replace (e - e) with 0 by lia.
  change (Z.min (fexp prec emax 0) 0) with (-53).
  change (0 - -53) with 53. cbv iota.
  rewrite Z.shiftl_mul_pow2 by lia.
  pose proof (Z_div_mod (Zpos m * 2 ^ 53) (Zpos m) ltac:(lia)) as Hdiv.
  destruct (Z.div_eucl (Zpos m * 2 ^ 53) (Zpos m)) as [q r].
  destruct Hdiv as [Hq Hr].
  assert (Eq : q = 2 ^ 53) by nia. assert (Er : r = 0) by nia. subst q r.
  assert (El : new_location (Zpos m) 0 = loc_Exact).
  { unfold new_location, new_location_even, new_location_odd.
    destruct (Z.even (Zpos m)); reflexivity. }
  rewrite El. reflexivity.
Qed.

(** [n / (sqrt n * sqrt n)] for a subnormal [n] is [1]. *)
Lemma self_ratio_subnormal : forall m,
  Zpos (digits2_pos m) < prec ->
  nearOne
    (SFdiv prec emax (S754_finite false m (-1074))
       (SFmul prec emax (SFsqrt prec emax (S754_finite false m (-1074)))
                        (SFsqrt prec emax (S754_finite false m (-1074))))).
Proof.
  intros m Hd.
  destruct (SFsqrt_subnormal m Hd) as (ms & es & J & -> & Hes & HJ & Hms & Hnear).
  rewrite (SFmul_sqrt_subnormal m ms es J Hd Hes HJ Hms Hnear), SFdiv_self.
  exists 4503599627370496%positive, (-52). split; [reflexivity|].
  right. split; [reflexivity|]. lia.
Qed.

End FloatNearest.

(** ** Cosine similarity *)

Module SimilaritySpec.

Import Num NumFacts Binary64 FloatRound SelfSimilarity FloatNearest Similarity.

Section Generic.

Variable num : Type.
Variable A : arith num.

Lemma accumulate_self : forall a d,
  accumulate A a a (Sums d d d) =
  Sums (sumSquares A a d) (sumSquares A a d) (sumSquares A a d).
Proof.
  induction a as [|x a IH]; intro d; simpl; [reflexivity|]. apply IH.
Qed.

Lemma cosineSimilarityOver_self : forall a,
  cosineSimilarityOver A a a =
  let n := sumSquares A a (zero A) in
  div A n (mul A (sqrt A n) (sqrt A n)).
Proof.
  intro a. unfold cosineSimilarityOver.
  rewrite Nat.eqb_refl. simpl. now rewrite accumulate_self.
Qed.

Hypothesis mul_comm : forall x y, mul A x y = mul A y x.

Lemma accumulate_swap : forall a b s,
  accumulate A b a (swap s) = swap (accumulate A a b s).
Proof.
  induction a as [|x a IH]; intros [|y b] s; simpl; try reflexivity.
  rewrite <- IH. unfold swap; simpl. now rewrite (mul_comm y x).
Qed.

Lemma cosineSimilarityOver_sym : forall a b,
  cosineSimilarityOver A a b = cosineSimilarityOver A b a.
Proof.
  intros a b. unfold cosineSimilarityOver.
  rewrite (Nat.eqb_sym (List.length b) (List.length a)).
  destruct (Nat.eqb (List.length a) (List.length b)); simpl; [|reflexivity].
  change (accumulate A b a (Sums (zero A) (zero A) (zero A)))
    with (accumulate A b a (swap (Sums (zero A) (zero A) (zero A)))).
  rewrite accumulate_swap. simpl. f_equal. apply mul_comm.
Qed.

End Generic.

Local Open Scope float_scope.

Lemma cosineSimilarity_sym : forall a b,
  cosineSimilarity a b = cosineSimilarity b a.
Proof.
  intros a b. unfold cosineSimilarity.
  apply cosineSimilarityOver_sym. exact mul_comm.
Qed.

Lemma cosineSimilarity_mismatch : forall a b,
  List.length a <> List.length b -> cosineSimilarity a b = 0.
Proof.
  intros a b H. unfold cosineSimilarity, cosineSimilarityOver.
  apply Nat.eqb_neq in H. now rewrite H.
Qed.

(** With a vector of zeros on the left the dot product stays a zero or
    NaN and the left norm stays [+0]. *)
Lemma accumulate_zero_left : forall a b s,
  all_zero a = true ->
  zero_or_nan (dotProduct s) -> normA s = 0 ->
  zero_or_nan (dotProduct (accumulate float64 a b s)) /\
  normA (accumulate float64 a b s) = 0.
Proof.
  induction a as [|x a IH]; intros [|y b] s Ha Hd Hn; simpl; auto.
  simpl in Ha. apply andb_prop in Ha. destruct Ha as [Hx Ha].
  apply IH; simpl; auto.
  - apply add_zero_or_nan; [assumption | now apply mul_zero_l].
  - rewrite Hn, (mul_zero_self x Hx). reflexivity.
Qed.

Lemma cosineSimilarity_zero_left : forall a b,
  List.length a = List.length b -> all_zero a = true ->
  cosineSimilarity a b = nan.
Proof.
  intros a b Hlen Ha. unfold cosineSimilarity, cosineSimilarityOver.
  rewrite Hlen, Nat.eqb_refl. cbn [negb].
  destruct (accumulate_zero_left a b (Sums 0 0 0) Ha) as [Hd Hn];
    [exact I | reflexivity |].
  cbv zeta. cbn [float64 zero div mul sqrt] in *.
  rewrite Hn. apply div_zero_or_nan; [exact Hd|].
  change (PrimFloat.sqrt 0) with 0. now apply mul_zero_l.
Qed.

(** *** The similarity of a vector with itself *)

Local Open Scope Z_scope.

(** Squares and their sums are not below zero. *)
Lemma binary_round_aux_notNegative : forall mx ex l,
  notNegative (binary_round_aux prec emax false mx ex l).
Proof.
  intros mx ex l. unfold binary_round_aux.
  destruct (shr_fexp prec emax mx ex l) as [mrs' e'].
  destruct (shr_fexp prec emax _ e' loc_Exact) as [mrs'' e''].
  destruct (shr_m mrs''); [exact I| |exact I].
  destruct (e'' <=? emax - prec); exact I.
Qed.

Lemma SFmul_self_notNegative : forall x, notNegative (SF64mul x x).
Proof.
  intros [s|s| |s m e]; unfold SF64mul; cbn [SFmul].
  - now destruct s.
  - now destruct s.
  - exact I.
  - replace (xorb s s) with false by (now destruct s).
    apply binary_round_aux_notNegative.
Qed.

Lemma SFadd_notNegative : forall x y,
  notNegative x -> notNegative y -> notNegative (SF64add x y).
Proof.
  intros [[|]|[|]| |[|] mx ex] [[|]|[|]| |[|] my ey] Hx Hy;
    unfold SF64add; cbn [SFadd notNegative] in *; try exact I;
    try contradiction.
  cbn [cond_Zopp].
  destruct (Zpos (fst (shl_align mx ex (Z.min ex ey))) +
            Zpos (fst (shl_align my ey (Z.min ex ey)))) as [|q|q] eqn:E;
    cbn [binary_normalize]; [exact I| |lia].
  unfold binary_round.
  destruct (shl_align q (Z.min ex ey) _) as [mz ez].
  apply binary_round_aux_notNegative.
Qed.

Local Close Scope Z_scope.
Local Open Scope float_scope.

Lemma sumSquares_notNegative : forall a acc,
  notNegative (Prim2SF acc) ->
  notNegative (Prim2SF (sumSquares float64 a acc)).
Proof.
  induction a as [|x a IH]; intros acc H; cbn [sumSquares].
  - exact H.
  - apply IH. cbn [float64 add mul]. rewrite add_spec, mul_spec.
    apply SFadd_notNegative; [exact H | apply SFmul_self_notNegative].
Qed.

Lemma sumSquares_not_below_zero : forall a,
  (sumSquares float64 a 0 <? 0) = false.
Proof.
  intro a. rewrite ltb_spec.
  pose proof (sumSquares_notNegative a 0 I) as H.
  change (Prim2SF 0) with (S754_zero false).
  destruct (Prim2SF (sumSquares float64 a 0)) as [[|]|[|]| |[|] m e];
    cbn in H; try contradiction; reflexivity.
Qed.

(** A positive finite number is normal or subnormal. *)
Lemma positive_finite : forall x,
  (0 <? x) = true -> isFinite x = true ->
  exists m e,
    Prim2SF x = S754_finite false m e /\
    (normal m e \/ ((Zpos (digits2_pos m) < prec)%Z /\ e = (-1074)%Z)).
Proof.
  intros x Hpos Hfin. rewrite ltb_spec in Hpos. unfold isFinite in Hfin.
  pose proof (Prim2SF_valid x) as Hv.
  change (Prim2SF 0) with (S754_zero false) in Hpos.
  destruct (Prim2SF x) as [s|s| |[|] m e]; try discriminate Hfin;
    try discriminate Hpos.
  exists m, e. split; [reflexivity|].
  cbn [valid_binary] in Hv. unfold bounded, canonical_mantissa in Hv.
  apply andb_prop in Hv. destruct Hv as [Hc He].
  apply Z.eqb_eq in Hc. apply Z.leb_le in He.
  unfold normal. unfold fexp, SpecFloat.emin, prec, emax in *. lia.
Qed.

Lemma cosineSimilarity_self_positive : forall a,
  (0 <? sumSquares float64 a 0) = true ->
  isFinite (sumSquares float64 a 0) = true ->
  approx_one 0x1p-50 (cosineSimilarity a a) = true.
Proof.
  intros a Hpos Hfin. unfold cosineSimilarity. rewrite cosineSimilarityOver_self.
  cbv zeta. cbn [float64 zero div mul sqrt] in *.
  destruct (positive_finite _ Hpos Hfin) as (m & e & E & [Hn|[Hd ->]]);
    apply nearOne_approx_one; rewrite div_spec, mul_spec, sqrt_spec, E.
  - apply self_ratio_near_one. exact Hn.
  - apply self_ratio_subnormal. exact Hd.
Qed.

Lemma cosineSimilarity_self_nan : forall a,
  is_zero (sumSquares float64 a 0) = true \/
  isFinite (sumSquares float64 a 0) = false ->
  cosineSimilarity a a = nan.
Proof.
  intros a H. unfold cosineSimilarity. rewrite cosineSimilarityOver_self.
  cbv zeta. cbn [float64 zero div mul sqrt] in *.
  set (n := sumSquares float64 a 0) in *.
  apply Prim2SF_inj. rewrite div_spec, mul_spec, sqrt_spec.
  change (Prim2SF nan) with S754_nan.
  destruct H as [H|H].
  - destruct (is_zero_spec n H) as [s ->]. destruct s; reflexivity.
  - unfold isFinite in H.
    destruct (Prim2SF n) as [s|[|]| |s m e]; try discriminate H; reflexivity.
Qed.

(** C10.  Some inputs make [cosineSimilarity] return no number of
    [[-1, 1]]: when one argument is a vector of zeros of the length of
    the other, the denominator is zero and the unguarded division yields
    NaN, while vectors of different lengths yield [0]. *)
Theorem cosineSimilarity_zero_vector_nan : forall a b,
  List.length a = List.length b ->
  all_zero a = true \/ all_zero b = true ->
  cosineSimilarity a b = nan /\
  is_nan (cosineSimilarity a b) = true /\
  in_unit_range (cosineSimilarity a b) = false.
Proof.
  intros a b Hlen H.
  assert (E : cosineSimilarity a b = nan).
  { destruct H as [H|H].
    - now apply cosineSimilarity_zero_left.
    - rewrite cosineSimilarity_sym. now apply cosineSimilarity_zero_left. }
  rewrite E. repeat split; reflexivity.
Qed.

Lemma cosineSimilarity_zero_vector_nan_witness :
  cosineSimilarity [0; -0; 0] [1; 2; 3] = nan /\
  is_nan (cosineSimilarity [0; -0; 0] [1; 2; 3]) = true /\
  in_unit_range (cosineSimilarity [0; -0; 0] [1; 2; 3]) = false.
Proof.
  apply (cosineSimilarity_zero_vector_nan [0; -0; 0] [1; 2; 3]).
  - reflexivity.
  - left. reflexivity.
Defined.

(** C6, as the code has it.  [cosineSimilarity] is symmetric (the two
    results are the same binary64 value, NaN included); vectors of
    different lengths have similarity exactly [0]; the sum of squares
    that the loop computes for a vector is never below zero; when that
    sum is positive and finite the similarity of the vector with itself
    is within [2^-50] of [1]; and when it is zero, as for a vector of
    zeros or for squares that underflow, infinite or NaN, that
    similarity is NaN. *)
Theorem cosineSimilarity_laws :
  (forall a b, cosineSimilarity a b = cosineSimilarity b a) /\
  (forall a b, List.length a <> List.length b -> cosineSimilarity a b = 0) /\
  (forall a, (sumSquares float64 a 0 <? 0) = false) /\
  (forall a,
     (0 <? sumSquares float64 a 0) = true ->
     isFinite (sumSquares float64 a 0) = true ->
     approx_one 0x1p-50 (cosineSimilarity a a) = true) /\
  (forall a,
     is_zero (sumSquares float64 a 0) = true \/
     isFinite (sumSquares float64 a 0) = false ->
     is_nan (cosineSimilarity a a) = true).
Proof.
  split; [exact cosineSimilarity_sym|].
  split; [exact cosineSimilarity_mismatch|].
  split; [exact sumSquares_not_below_zero|].
  split; [exact cosineSimilarity_self_positive|].
  intros a H. now rewrite (cosineSimilarity_self_nan a H).
Qed.

Lemma cosineSimilarity_laws_witness :
  cosineSimilarity [1; 2] [3; 4] = cosineSimilarity [3; 4] [1; 2] /\
  cosineSimilarity [1] [1; 2] = 0 /\
  approx_one 0x1p-50 (cosineSimilarity [1; 2] [1; 2]) = true /\
  approx_one 0x1p-50 (cosineSimilarity [0x1p-520] [0x1p-520]) = true /\
  is_nan (cosineSimilarity [0x1p-600] [0x1p-600]) = true /\
  is_nan (cosineSimilarity [0x1p600] [0x1p600]) = true.
Proof.
  destruct cosineSimilarity_laws as (Hsym & Hlen & _ & Hself & Hnan).
  split; [apply Hsym|].
  split; [apply Hlen; simpl; lia|].
  split; [apply Hself; reflexivity|].
  split; [apply Hself; reflexivity|].
  split; apply Hnan; [left | right]; reflexivity.
Defined.

(** The similarity of a vector with itself is near [1], not always
    [1]: two runs, one below and one above. *)
Example self_similarity_rounds :
  cosineSimilarity [1; 2] [1; 2] = 0x1.ffffffffffffep-1 /\
  cosineSimilarity [1; 1; 1] [1; 1; 1] = 0x1.0000000000001p+0.
Proof. split; reflexivity. Qed.

(** C6, as stated, fails: [[2^-600]] is a non-zero vector whose square
    underflows to zero, and its similarity with itself is NaN, which is
    within no tolerance of [1]. *)
Lemma self_similarity_underflow :
  let a := [0x1p-600] in
  existsb (fun x => negb (is_zero x)) a = true /\
  cosineSimilarity a a = nan /\
  forall tolerance, approx_one tolerance (cosineSimilarity a a) = false.
Proof.
  cbv zeta. split; [reflexivity|]. split; [reflexivity|].
  intro tolerance.
  change (cosineSimilarity [0x1p-600] [0x1p-600]) with nan.
  unfold approx_one. rewrite leb_spec.
  change (Prim2SF (abs (nan - 1))) with S754_nan. reflexivity.
Qed.

End SimilaritySpec.

(** ** Arrays: [slice] and [sort] *)

Module JsFacts.

Import Js.

Section Lists.

Context {A : Type}.

Lemma slice_prefix : forall (l : list A) (k : Z),
  (0 <= k)%Z -> slice l 0 k = firstn (Z.to_nat k) l.
Proof.
  intros l k Hk. unfold slice, relativeIndex.
  assert (E0 : (0 <? 0)%Z = false) by reflexivity. rewrite E0.
  assert (Ek : (k <? 0)%Z = false) by (apply Z.ltb_ge; lia). rewrite Ek.
  rewrite (Z.min_l 0) by lia. simpl skipn. rewrite Z.sub_0_r.
  destruct (Z.min_spec k (Z.of_nat (List.length l))) as [[H E]|[H E]]; rewrite E.
  - reflexivity.
  - rewrite Nat2Z.id, firstn_all.
    symmetry. apply firstn_all2. lia.
Qed.

Lemma firstn_incl : forall (n : nat) (l : list A) (x : A),
  In x (firstn n l) -> In x l.
Proof.
  intros n l x H. rewrite <- (firstn_skipn n l). apply in_or_app. now left.
Qed.

Lemma skipn_incl : forall (n : nat) (l : list A) (x : A),
  In x (skipn n l) -> In x l.
Proof.
  intros n l x H. rewrite <- (firstn_skipn n l). apply in_or_app. now right.
Qed.

Lemma slice_incl : forall (l : list A) (from to : Z) (x : A),
  In x (slice l from to) -> In x l.
Proof.
  intros l from to x H. unfold slice in H.
  apply firstn_incl in H. eapply skipn_incl; eassumption.
Qed.

Variable before : A -> A -> bool.

Lemma insertBy_perm : forall (x : A) (l : list A),
  Permutation (insertBy before x l) (x :: l).
Proof.
  induction l as [|y l IH]; simpl; [reflexivity|].
  destruct (before y x); [|reflexivity].
  rewrite IH. apply perm_swap.
Qed.

Lemma sortBy_perm : forall l : list A, Permutation (sortBy before l) l.
Proof.
  induction l as [|x l IH]; simpl; [reflexivity|].
  rewrite insertBy_perm. now constructor.
Qed.

Lemma sortBy_In : forall (l : list A) (x : A), In x (sortBy before l) <-> In x l.
Proof.
  intros l x; split; apply Permutation_in;
    [apply sortBy_perm | symmetry; apply sortBy_perm].
Qed.

Lemma sortBy_length : forall l : list A,
  List.length (sortBy before l) = List.length l.
Proof. intro l. apply Permutation_length, sortBy_perm. Qed.

(** A list that is already in order is left as it is. *)
Lemma sortBy_fixed : forall l : list A,
  (forall x y, In x l -> In y l -> before y x = false) -> sortBy before l = l.
Proof.
  induction l as [|x l IH]; intro H; simpl; [reflexivity|].
  rewrite IH by (intros; apply H; now right).
  destruct l as [|y l]; simpl; [reflexivity|].
  now rewrite H by (simpl; auto).
Qed.

End Lists.

(** *** Sorting with a comparison that behaves on the elements at hand *)

Section Sorting.

Context {A : Type}.
Variable before : A -> A -> bool.
Variable le : A -> A -> Prop.
Variable ok : A -> Prop.

Hypothesis le_trans : forall x y z, le x y -> le y z -> le x z.
Hypothesis before_true : forall x y, ok x -> ok y -> before y x = true -> le y x.
Hypothesis before_false : forall x y, ok x -> ok y -> before y x = false -> le x y.

Lemma insertBy_sorted : forall (x : A) (l : list A),
  ok x -> Forall ok l -> StronglySorted le l ->
  StronglySorted le (insertBy before x l).
Proof.
  intros x l Hx. induction l as [|y l IH]; intros Hl Hs; cbn [insertBy].
  - constructor; constructor.
  - inversion Hl as [|? ? Hy Hl']; subst.
    inversion Hs as [|? ? Hs' Hall]; subst.
    destruct (before y x) eqn:E.
    + constructor; [now apply IH|].
      apply Forall_forall. intros z Hz.
      apply (Permutation_in _ (insertBy_perm before x l)) in Hz.
      destruct Hz as [<-|Hz].
      * now apply before_true.
      * rewrite Forall_forall in Hall. now apply Hall.
    + assert (Hxy : le x y) by now apply before_false.
      constructor; [exact Hs|].
      constructor; [exact Hxy|].
      eapply Forall_impl; [|exact Hall]. intros z Hz. now apply (le_trans x y z).
Qed.

Lemma sortBy_sorted : forall l : list A,
  Forall ok l -> StronglySorted le (sortBy before l).
Proof.
  induction l as [|x l IH]; intro H; cbn [sortBy fold_right].
  - constructor.
  - inversion H as [|? ? Hx Hl]; subst.
    apply insertBy_sorted; [exact Hx| |now apply IH].
    apply Forall_forall. intros z Hz. apply sortBy_In in Hz.
    rewrite Forall_forall in Hl. now apply Hl.
Qed.

End Sorting.

Section SortedLists.

Context {A : Type}.
Variable R : A -> A -> Prop.

Lemma StronglySorted_filter : forall (f : A -> bool) (l : list A),
  StronglySorted R l -> StronglySorted R (filter f l).
Proof.
  intros f l H. induction H as [|x l Hs IH Hall]; cbn [filter].
  - constructor.
  - destruct (f x); [|exact IH].
    constructor; [exact IH|].
    apply Forall_forall. intros z Hz. apply filter_In in Hz.
    rewrite Forall_forall in Hall. apply Hall. tauto.
Qed.

Lemma StronglySorted_firstn : forall (n : nat) (l : list A),
  StronglySorted R l -> StronglySorted R (firstn n l).
Proof.
  intros n l H. revert n. induction H as [|x l Hs IH Hall]; intros [|n];
    cbn [firstn]; try constructor.
  - apply IH.
  - apply Forall_forall. intros z Hz. apply firstn_incl in Hz.
    rewrite Forall_forall in Hall. now apply Hall.
Qed.

Lemma StronglySorted_map : forall (B : Type) (f : B -> A) (l : list B),
  StronglySorted (fun a b => R (f a) (f b)) l -> StronglySorted R (map f l).
Proof.
  intros B f l H. induction H as [|x l Hs IH Hall]; cbn [map].
  - constructor.
  - constructor; [exact IH|].
    apply Forall_forall. intros z Hz. apply in_map_iff in Hz.
    destruct Hz as (b & <- & Hb). rewrite Forall_forall in Hall. now apply Hall.
Qed.

End SortedLists.

(** Two comparisons that agree on a list sort it alike. *)
Lemma insertBy_ext : forall (A : Type) (before before' : A -> A -> bool)
  (x : A) (l : list A),
  (forall y, In y l -> before y x = before' y x) ->
  insertBy before x l = insertBy before' x l.
Proof.
  intros A before before' x. induction l as [|y l IH]; intro H; cbn [insertBy].
  - reflexivity.
  - rewrite <- (H y) by now left.
    destruct (before y x); [|reflexivity].
    f_equal. apply IH. intros z Hz. apply H. now right.
Qed.

Lemma sortBy_ext : forall (A : Type) (before before' : A -> A -> bool)
  (l : list A),
  (forall x y, In x l -> In y l -> before y x = before' y x) ->
  sortBy before l = sortBy before' l.
Proof.
  intros A before before'. induction l as [|x l IH]; intro H;
    cbn [sortBy fold_right]; [reflexivity|].
  fold (sortBy before l). fold (sortBy before' l).
  rewrite <- IH by (intros; apply H; now right).
  apply insertBy_ext. intros y Hy. apply sortBy_In in Hy.
  apply H; [now left | now right].
Qed.

End JsFacts.

(** ** The vector store *)

Module StoreSpec.

Import Js JsFacts Similarity Store.

Lemma eq_user_id_In : forall userId l r,
  In r (eq_user_id userId l) <-> In r l /\ user_id r = userId.
Proof.
  intros userId l r. unfold eq_user_id.
  rewrite filter_In, String.eqb_eq. reflexivity.
Qed.

Lemma eq_user_id_other : forall A B l added,
  A <> B -> Forall (fun r => user_id r = A) added ->
  eq_user_id B (l ++ added) = eq_user_id B l.
Proof.
  intros A B l added HAB Hadded. unfold eq_user_id.
  rewrite filter_app.
  assert (E : filter (fun row => String.eqb (user_id row) B) added = []).
  { induction Hadded as [|r added Hr _ IH]; simpl; [reflexivity|].
    rewrite Hr. apply String.eqb_neq in HAB. now rewrite HAB. }
  rewrite E. apply app_nil_r.
Qed.

(** [addDocuments] appends rows of the inserting user and touches
    nothing else, whether it returns or throws midway. *)
Lemma addLoop_appends : forall chunks db uuidv4 n userId ids,
  exists added,
    rows (snd (addLoop db uuidv4 n chunks userId ids)) = rows db ++ added /\
    Forall (fun r => user_id r = userId) added /\
    sameService db (snd (addLoop db uuidv4 n chunks userId ids)).
Proof.
  induction chunks as [|chunk rest IH]; intros db uuidv4 n userId ids.
  - exists []. simpl. rewrite app_nil_r. repeat split; constructor.
  - simpl. unfold insert.
    destruct (insertError db _) as [message|] eqn:E; simpl.
    + exists []. rewrite app_nil_r. repeat split; constructor.
    + match goal with
      | |- context [addLoop ?d uuidv4 (S n) rest userId ?i] =>
          destruct (IH d uuidv4 (S n) userId i) as (added & Hrows & Hall & Hsame)
      end.
      simpl in Hrows. rewrite <- app_assoc in Hrows.
      eexists. split; [exact Hrows|]. split.
      * constructor; [reflexivity | exact Hall].
      * exact Hsame.
Qed.

Lemma searchWithDirectQuery_fromOwner : forall db queryEmbedding topK userId,
  exists found,
    searchWithDirectQuery db queryEmbedding topK userId = Returned found /\
    fromOwner db userId found.
Proof.
  intros db q k u. unfold searchWithDirectQuery, select.
  destruct (selectError db) as [message|]; cbn [error data fail succeed].
  - exists []. split; [reflexivity|]. intros c [].
  - eexists. split; [reflexivity|].
    intros c Hc. apply in_map_iff in Hc. destruct Hc as (item & <- & Hitem).
    apply filter_In in Hitem. destruct Hitem as [Hitem _].
    apply slice_incl in Hitem. unfold sort in Hitem.
    apply sortBy_In in Hitem. apply in_map_iff in Hitem.
    destruct Hitem as (r & <- & Hr). unfold limit in Hr.
    apply firstn_incl in Hr. apply eq_user_id_In in Hr.
    exists r. cbn [row]. tauto.
Qed.

Lemma match_documents_incl : forall table q threshold count r,
  In r (match_documents table q threshold count) -> In r table.
Proof.
  intros table q threshold count r H. unfold match_documents in H.
  apply firstn_incl in H. apply sortBy_In in H.
  apply filter_In in H. tauto.
Qed.

Lemma search_fromOwner : forall db queryEmbedding topK userId,
  exists found,
    search db queryEmbedding topK userId = Returned found /\
    fromOwner db userId found.
Proof.
  intros db q k u. unfold search, rpc.
  destruct (searchWithDirectQuery_fromOwner db q k u) as (direct & E & H).
  destruct (rpc_match_documents db) as [|message|e];
    cbn [bind tryCatch error data fail succeed orEmpty];
    rewrite ?E; cbn [tryCatch]; try (now exists direct).
  eexists. split; [reflexivity|].
  intros c Hc. apply in_map_iff in Hc. destruct Hc as (r & <- & Hr).
  apply filter_In in Hr. destruct Hr as [Hr Hu].
  apply match_documents_incl in Hr. apply String.eqb_eq in Hu.
  exists r. tauto.
Qed.

Lemma getAllDocuments_fromOwner : forall db userId,
  exists found,
    getAllDocuments db userId = Returned found /\ fromOwner db userId found.
Proof.
  intros db u. unfold getAllDocuments, select.
  destruct (selectError db) as [message|]; simpl.
  - exists []. split; [reflexivity|]. intros c [].
  - eexists. split; [reflexivity|].
    intros c Hc. apply in_map_iff in Hc. destruct Hc as (r & <- & Hr).
    unfold order_created_at_desc in Hr. apply sortBy_In in Hr.
    apply eq_user_id_In in Hr. exists r. tauto.
Qed.

(** Rows of owner [A] appended to the table are invisible to [B]. *)
Lemma fromOwner_before : forall db db' A B added found,
  A <> B -> rows db' = rows db ++ added ->
  Forall (fun r => user_id r = A) added ->
  fromOwner db' B found -> fromOwner db B found.
Proof.
  intros db db' A B added found HAB Hrows Hadded H c Hc.
  destruct (H c Hc) as (r & Hr & Hu & ->).
  exists r. split; [|tauto].
  rewrite Hrows in Hr. apply in_app_or in Hr. destruct Hr as [Hr|Hr]; [exact Hr|].
  rewrite Forall_forall in Hadded. specialize (Hadded r Hr). congruence.
Qed.

(** C2.  Owner isolation: after chunks are inserted under owner [A], in
    any store state, everything [search] returns for another owner [B],
    on the server-side path and on the fallback path alike, and
    everything [getAllDocuments] returns for [B], is a row that [B]
    already owned before the insertion, and [getCount] for [B] is what
    it was. *)
Theorem owner_isolation :
  forall db uuidv4 chunks A B queryEmbedding topK,
  A <> B ->
  let db' := snd (addDocuments db uuidv4 chunks A) in
  (exists found,
     search db' queryEmbedding topK B = Returned found /\ fromOwner db B found) /\
  (exists found,
     searchWithDirectQuery db' queryEmbedding topK B = Returned found /\
     fromOwner db B found) /\
  (exists found,
     getAllDocuments db' B = Returned found /\ fromOwner db B found) /\
  getCount db' B = getCount db B.
Proof.
  intros db uuidv4 chunks A B q k HAB db'.
  destruct (addLoop_appends chunks db uuidv4 0 A [])
    as (added & Hrows & Hadded & Hrpc & Hsel & Hcnt).
  fold (addDocuments db uuidv4 chunks A) in Hrows, Hrpc, Hsel, Hcnt.
  fold db' in Hrows, Hrpc, Hsel, Hcnt.
  repeat split.
  - destruct (search_fromOwner db' q k B) as (found & E & H).
    exists found. split; [exact E|]. eapply fromOwner_before; eassumption.
  - destruct (searchWithDirectQuery_fromOwner db' q k B) as (found & E & H).
    exists found. split; [exact E|]. eapply fromOwner_before; eassumption.
  - destruct (getAllDocuments_fromOwner db' B) as (found & E & H).
    exists found. split; [exact E|]. eapply fromOwner_before; eassumption.
  - unfold getCount, selectCount. rewrite Hcnt, Hrows.
    now rewrite (eq_user_id_other A B) by assumption.
Qed.

Lemma owner_isolation_witness :
  getCount (snd (addDocuments (Samples.withRpc [Samples.r1]) Samples.uuids
                   [Samples.newChunk] "alice")) "u" =
  getCount (Samples.withRpc [Samples.r1]) "u".
Proof.
  assert (H : "alice"%string <> "u"%string) by discriminate.
  destruct (owner_isolation (Samples.withRpc [Samples.r1]) Samples.uuids
              [Samples.newChunk] "alice" "u" [1%float; 0%float] 5 H)
    as (_ & _ & _ & E).
  exact E.
Defined.

(** C9, as the code has it.  A failing read is logged and answered with
    the empty value: [getAllDocuments] and the fallback search return
    [[]], [getCount] returns [0].  Failing writes do surface:
    [clear] and [addDocuments] throw an error that carries the message
    of the store. *)
Theorem read_failures_return_defaults : forall db userId message,
  (selectError db = Some message ->
     getAllDocuments db userId = Returned [] /\
     forall queryEmbedding topK,
       searchWithDirectQuery db queryEmbedding topK userId = Returned []) /\
  (countError db = Some message -> getCount db userId = Returned 0%Z) /\
  (deleteError db = Some message ->
     fst (clear db userId) =
     Threw (ErrorObject ("Failed to clear documents: " ++ message))) /\
  (forall uuidv4 chunk rest,
     insertError db
       (Row (uuidv4 0%nat) (new_text chunk) (new_embedding chunk)
            (fileName (new_metadata chunk)) (chunkIndex (new_metadata chunk))
            (timestamp (new_metadata chunk)) userId) = Some message ->
     fst (addDocuments db uuidv4 (chunk :: rest) userId) =
     Threw (ErrorObject ("Failed to insert document chunk: " ++ message))).
Proof.
  intros db userId message.
  split; [intro H; split | split; [intro H | split; [intro H|]]].
  - unfold getAllDocuments, select. now rewrite H.
  - intros q k. unfold searchWithDirectQuery, select. now rewrite H.
  - unfold getCount, selectCount. now rewrite H.
  - unfold clear. now rewrite H.
  - intros uuidv4 chunk rest H. unfold addDocuments. cbn [addLoop].
    unfold insert. now rewrite H.
Qed.

Lemma read_failures_return_defaults_witness :
  getCount (Samples.unreachable [Samples.r1]) "u" = Returned 0%Z.
Proof.
  destruct (read_failures_return_defaults (Samples.unreachable [Samples.r1])
              "u" "connection refused") as (_ & H & _).
  apply H. reflexivity.
Defined.

(** C9, as stated, fails: with a store whose reads fail, the three
    readers return a value, for an owner who has a stored chunk, and
    no error reaches the caller. *)
Lemma read_failure_is_not_surfaced :
  let db := Samples.unreachable [Samples.r1] in
  selectError db = Some "connection refused"%string /\
  countError db = Some "connection refused"%string /\
  getCount db "u" = Returned 0%Z /\
  getAllDocuments db "u" = Returned [] /\
  searchWithDirectQuery db [1%float; 0%float] 5 "u" = Returned [] /\
  search db [1%float; 0%float] 5 "u" = Returned [] /\
  (forall e, getCount db "u" <> Threw e).
Proof.
  cbv zeta. repeat split; try reflexivity. intros e H. discriminate H.
Qed.

(** *** The contract of [search] away from NaN *)


Lemma filter_length_le : forall (A : Type) (f : A -> bool) (l : list A),
  (List.length (filter f l) <= List.length l)%nat.
Proof.
  intros A f. induction l as [|x l IH]; cbn [filter List.length]; [lia|].
  destruct (f x); cbn [List.length]; lia.
Qed.



Lemma StronglySorted_weaken : forall (A : Type) (R R' : A -> A -> Prop)
  (P : A -> Prop) (l : list A),
  Forall P l -> (forall a b, P a -> P b -> R a b -> R' a b) ->
  StronglySorted R l -> StronglySorted R' l.
Proof.
  intros A R R' P l HP Himp H. induction H as [|x l Hs IH Hall].
  - constructor.
  - inversion HP as [|? ? Hx Hl]; subst.
    constructor; [now apply IH|].
    rewrite Forall_forall in *. intros z Hz. apply Himp; auto.
Qed.





(** *** [clear] *)

Lemma eq_user_id_cleared : forall userId other l,
  eq_user_id other
    (filter (fun row => negb (String.eqb (user_id row) userId)) l) =
  if String.eqb other userId then [] else eq_user_id other l.
Proof.
  intros userId other l. unfold eq_user_id.
  induction l as [|r l IH]; cbn [filter].
  - now destruct (String.eqb other userId).
  - destruct (String.eqb (user_id r) userId) eqn:Eu; cbn [negb filter].
    + rewrite IH. destruct (String.eqb other userId) eqn:Eo; [reflexivity|].
      apply String.eqb_eq in Eu. rewrite Eu.
      now rewrite String.eqb_sym, Eo.
    + destruct (String.eqb (user_id r) other) eqn:Er.
      * rewrite IH. apply String.eqb_eq in Er. subst other. now rewrite Eu.
      * rewrite IH. now destruct (String.eqb other userId).
Qed.

(** [clear] succeeds when the store accepts the deletion, whether or
    not the owner has rows; afterwards the owner counts zero chunks and
    every other owner counts what it counted before. *)
Theorem clear_semantics : forall db userId,
  deleteError db = None ->
  fst (clear db userId) = Returned tt /\
  (countError db = None ->
     getCount (snd (clear db userId)) userId = Returned 0%Z) /\
  (forall other, other <> userId ->
     getCount (snd (clear db userId)) other = getCount db other).
Proof.
  intros db userId Hdel. unfold clear. rewrite Hdel. cbn [fst snd].
  split; [reflexivity|]. split.
  - intro Hc. unfold getCount, selectCount. cbn [countError rows]. rewrite Hc.
    cbn [error data succeed orZero].
    now rewrite eq_user_id_cleared, String.eqb_refl.
  - intros other Hne. unfold getCount, selectCount. cbn [countError rows].
    rewrite eq_user_id_cleared.
    apply String.eqb_neq in Hne. now rewrite Hne.
Qed.

Lemma clear_semantics_witness :
  fst (clear (Samples.withRpc [Samples.r1; Samples.r2]) "u") = Returned tt /\
  getCount (snd (clear (Samples.withRpc [Samples.r1; Samples.r2]) "u")) "u" =
  Returned 0%Z.
Proof.
  destruct (clear_semantics (Samples.withRpc [Samples.r1; Samples.r2]) "u" eq_refl)
    as (H1 & H2 & _).
  split; [exact H1 | now apply H2].
Defined.

End StoreSpec.

(** ** PDF extraction *)

Module ExtractorSpec.

Import Js Extractor.

(** C7.  [processPDF] tries pdf-parse, then pdf2json, then pdfjs-dist,
    each only after the one before it threw, as the log of attempts
    shows; the document of the first method that returns is the result
    and the earlier errors are dropped; when all three throw, the result
    is one error whose message says that the PDF may be image-based,
    encrypted, or corrupted and ends with the message of the last
    error. *)
Theorem processPDF_fallback_chain : forall extractWith buffer fileName,
  run (processPDF extractWith buffer fileName) =
  match extractWith PdfParse buffer fileName with
  | Returned doc => (Returned doc, [PdfParse])
  | Threw error1 =>
      match extractWith Pdf2Json buffer fileName with
      | Returned doc => (Returned doc, [PdfParse; Pdf2Json])
      | Threw error2 =>
          match extractWith PdfjsDist buffer fileName with
          | Returned doc => (Returned doc, [PdfParse; Pdf2Json; PdfjsDist])
          | Threw error3 =>
              (Threw (aggregate error3), [PdfParse; Pdf2Json; PdfjsDist])
          end
      end
  end.
Proof.
  intros extractWith buffer fileName.
  unfold run, processPDF, tryCatchT, attempt, call, raise, aggregate.
  destruct (extractWith PdfParse buffer fileName); [reflexivity|].
  destruct (extractWith Pdf2Json buffer fileName); [reflexivity|].
  destruct (extractWith PdfjsDist buffer fileName); reflexivity.
Qed.

End ExtractorSpec.

(** ** The chat route *)

Module ChatSpec.

Import Js Store Chat.

(** C8.  When the request is authenticated, carries a non-empty string
    message and [getCount] returns [0] for the user, [POST] answers with
    the fixed guidance message, and the calls it made are the
    authentication, the reading of the body and the count: neither the
    embedding model nor the completion model is called. *)
Theorem empty_corpus_short_circuit : forall env userId c rest,
  getUser env = Returned (Some userId) ->
  requestMessage env = Returned (JsonString (String c rest)) ->
  getCount (database env) userId = Returned 0%Z ->
  exists log,
    run (POST env) =
      (Returned
         (Http 200
            (ReplyBody
               "Please upload business documents first before asking questions."
               None)),
       log) /\
    log = [AuthGetUser; RequestJson; StoreGetCount userId] /\
    forall text, ~ In (EmbedContent text) log /\ ~ In (GenerateContent text) log.
Proof.
  intros env userId c rest Hauth Hbody Hcount.
  eexists. split; [|split; [reflexivity|]].
  - unfold run, POST, tryCatchT, bindT, call, ret.
    rewrite Hauth, Hbody, Hcount. reflexivity.
  - intro text. split; intros [H|[H|[H|[]]]]; discriminate H.
Qed.

Lemma empty_corpus_short_circuit_witness :
  exists log,
    run (POST Samples.emptyCorpus) =
      (Returned
         (Http 200
            (ReplyBody
               "Please upload business documents first before asking questions."
               None)),
       log) /\
    log = [AuthGetUser; RequestJson; StoreGetCount "u"] /\
    forall text, ~ In (EmbedContent text) log /\ ~ In (GenerateContent text) log.
Proof.
  eapply (empty_corpus_short_circuit Samples.emptyCorpus); reflexivity.
Defined.

End ChatSpec.

(** ** The embedding client *)

Module EmbeddingsSpec.

Import Js Embeddings.

Lemma issue_length : forall embedContent texts i,
  List.length (issue embedContent i texts) = List.length texts.
Proof.
  intros embedContent texts. induction texts as [|t texts IH]; intro i; simpl;
    [reflexivity | now rewrite IH].
Qed.


Lemma earliestRejection_none : forall ps,
  earliestRejection ps = None <-> Forall (fun p => ~ rejects p) ps.
Proof.
  induction ps as [|p ps IH]; simpl.
  - split; [constructor | reflexivity].
  - destruct (settles p) as [r|e] eqn:E.
    + rewrite IH. split; intro H.
      * constructor; [|exact H]. intros [e He]. congruence.
      * now inversion H.
    + split; intro H.
      * destruct (earliestRejection ps) as [[t e']|];
          [destruct (t <? settledAt p)%nat|]; discriminate H.
      * inversion H as [|? ? Hp _]; subst. exfalso. apply Hp. now exists e.
Qed.

Lemma earliestRejection_some : forall ps t e,
  earliestRejection ps = Some (t, e) ->
  Exists (fun p => settles p = Rejected e /\ settledAt p = t) ps.
Proof.
  induction ps as [|p ps IH]; simpl; intros t e H; [discriminate|].
  destruct (settles p) as [r|e0] eqn:E.
  - apply Exists_cons_tl. now apply IH.
  - destruct (earliestRejection ps) as [[t' e']|].
    + destruct (t' <? settledAt p)%nat; inversion H; subst.
      * apply Exists_cons_tl. now apply IH.
      * now apply Exists_cons_hd.
    + inversion H; subst. now apply Exists_cons_hd.
Qed.

(** Without rejection the values are those of all promises, in order. *)
Lemma fulfilments_all : forall ps,
  Forall (fun p => ~ rejects p) ps ->
  Forall2 (fun p r => settles p = Fulfilled r) ps (fulfilments ps).
Proof.
  induction ps as [|p ps IH]; intro H; simpl; [constructor|].
  inversion H as [|? ? Hp Hps]; subst.
  destruct (settles p) as [r|e] eqn:E.
  - constructor; [exact E | now apply IH].
  - exfalso. apply Hp. now exists e.
Qed.

Lemma mapOutcome_returned : forall (ps : list promise) rs vectors,
  Forall2 (fun p r => settles p = Fulfilled r) ps rs ->
  mapOutcome (vectorOf missing) rs = Returned vectors ->
  Forall2 carries ps vectors.
Proof.
  intros ps rs vectors H. revert vectors.
  induction H as [|p r ps rs Hp _ IH]; simpl; intros vectors E.
  - inversion E. constructor.
  - destruct (vectorOf missing r) as [v|e] eqn:Ev; simpl in E; [|discriminate].
    destruct (mapOutcome (vectorOf missing) rs) as [vs|e]; simpl in E;
      [|discriminate].
    inversion E; subst. constructor; [|now apply IH].
    exists r. now split.
Qed.


Lemma Forall2_carries_nth : forall embedContent texts i vectors,
  Forall2 carries (issue embedContent i texts) vectors ->
  List.length vectors = List.length texts /\
  forall k text v,
    nth_error texts k = Some text -> nth_error vectors k = Some v ->
    carries (embedContent (i + k)%nat text) v.
Proof.
  intros embedContent texts.
  induction texts as [|t texts IH]; intros i vectors H; simpl in H.
  - inversion H. split; [reflexivity|]. intros [|k] text v E; discriminate E.
  - inversion H as [|p v0 ps vs Hp Hrest]; subst.
    destruct (IH (S i) vs Hrest) as [Hlen Hnth].
    split; [simpl; now rewrite Hlen|].
    intros [|k] text v Et Ev; simpl in Et, Ev.
    + inversion Et; inversion Ev; subst. now rewrite Nat.add_0_r.
    + rewrite Nat.add_succ_r. now apply (Hnth k).
Qed.







End EmbeddingsSpec.

(** ** The chunker *)

Module ChunkerSpec.

Import Js JsFacts Chunker.
Local Open Scope Z_scope.

(** *** Slices and [lastIndexOf] *)

Lemma slice_range {A : Type} (l : list A) (a b : Z) :
  0 <= a <= b -> b <= Z.of_nat (List.length l) ->
  slice l a b = firstn (Z.to_nat (b - a)) (skipn (Z.to_nat a) l).
Proof.
  intros Hab Hb. unfold slice, relativeIndex.
  assert (Ea : (a <? 0) = false) by (apply Z.ltb_ge; lia).
  assert (Eb : (b <? 0) = false) by (apply Z.ltb_ge; lia).
  rewrite Ea, Eb, (Z.min_l a), (Z.min_l b) by lia. reflexivity.
Qed.

Lemma slice_length {A : Type} (l : list A) (a b : Z) :
  0 <= a <= b -> b <= Z.of_nat (List.length l) ->
  Z.of_nat (List.length (slice l a b)) = b - a.
Proof.
  intros Hab Hb. rewrite slice_range by assumption.
  rewrite length_firstn, length_skipn. lia.
Qed.

(** A prefix of a slice is a slice. *)
Lemma slice_slice_prefix {A : Type} (l : list A) (a b k : Z) :
  0 <= a <= b -> b <= Z.of_nat (List.length l) -> 0 <= k <= b - a ->
  slice (slice l a b) 0 k = slice l a (a + k).
Proof.
  intros Hab Hb Hk.
  rewrite (slice_range (slice l a b)); [|lia|rewrite slice_length; lia].
  rewrite (slice_range l a b), (slice_range l a (a + k)) by lia.
  cbn [Z.to_nat skipn]. rewrite firstn_firstn.
  f_equal. lia.
Qed.

Lemma lastIndexFrom_bound : forall s c i found,
  lastIndexFrom s c i found = found \/
  i <= lastIndexFrom s c i found < i + Z.of_nat (List.length s).
Proof.
  induction s as [|x s IH]; intros c i found; cbn [lastIndexFrom].
  - now left.
  - destruct (IH c (i + 1) (if Ascii.eqb x c then i else found)) as [E|H].
    + rewrite E. destruct (Ascii.eqb x c); [right | now left].
      cbn [List.length]. lia.
    + right. cbn [List.length]. lia.
Qed.

Lemma lastIndexOf_bound : forall s c,
  -1 <= lastIndexOf s c < Z.of_nat (List.length s).
Proof.
  intros s c. unfold lastIndexOf.
  destruct (lastIndexFrom_bound s c 0 (-1)) as [E|H]; lia.
Qed.

(** *** Trimming removes white space at the two ends and nothing else *)

Lemma trimStart_split : forall s,
  exists l, s = l ++ trimStart s /\ allWhiteSpace l.
Proof.
  induction s as [|c s IH]; cbn [trimStart].
  - exists []. split; [reflexivity | constructor].
  - destruct (isWhiteSpace c) eqn:E.
    + destruct IH as (l & Hs & Hl). exists (c :: l). split.
      * cbn [app]. now rewrite <- Hs.
      * now constructor.
    + exists []. split; [reflexivity | constructor].
Qed.

Lemma trimEnd_split : forall s,
  exists r, s = trimEnd s ++ r /\ allWhiteSpace r.
Proof.
  intro s. unfold trimEnd.
  destruct (trimStart_split (rev s)) as (l & Hs & Hl).
  exists (rev l). split.
  - rewrite <- rev_app_distr, <- Hs. now rewrite rev_involutive.
  - unfold allWhiteSpace in *. apply Forall_rev. exact Hl.
Qed.

Lemma trim_trimmedOf : forall s, trimmedOf s (trim s).
Proof.
  intro s. unfold trim.
  destruct (trimStart_split s) as (l & Hs & Hl).
  destruct (trimEnd_split (trimStart s)) as (r & Hr & Hrw).
  exists l, r. split; [|now split].
  now rewrite <- Hr.
Qed.

Lemma trim_nil_whitespace : forall s, trim s = [] -> allWhiteSpace s.
Proof.
  intros s E. destruct (trim_trimmedOf s) as (l & r & Hs & Hl & Hr).
  rewrite E in Hs. rewrite Hs. cbn [app]. unfold allWhiteSpace in *.
  apply Forall_app. now split.
Qed.

(** *** What coverage means *)

Lemma pushTrimmed_keeps : forall acc raw,
  exists kept, pushTrimmed acc raw = acc ++ kept /\
               forall raws chunks, keeps raws chunks ->
                                   keeps (raw :: raws) (kept ++ chunks).
Proof.
  intros acc raw. unfold pushTrimmed.
  destruct (trim raw) as [|c t] eqn:E.
  - exists []. cbn. rewrite app_nil_r. split; [reflexivity|].
    intros raws chunks H. apply keeps_drop; [|exact H].
    now apply trim_nil_whitespace.
  - exists [c :: t]. split; [reflexivity|].
    intros raws chunks H. cbn [app]. apply keeps_chunk; [| discriminate | exact H].
    rewrite <- E. apply trim_trimmedOf.
Qed.

Lemma cover_join : forall (text : jsstring) (s c e : Z),
  0 <= s <= c -> s < e -> e <= Z.of_nat (List.length text) ->
  c <= Z.of_nat (List.length text) ->
  skipn (Z.to_nat (c - s)) (slice text s e) ++ skipn (Z.to_nat (Z.max c e)) text =
  skipn (Z.to_nat c) text.
Proof.
  intros text s c e Hs He Hlen Hc.
  rewrite slice_range by lia.
  destruct (Z.le_gt_cases c e) as [Hce|Hce].
  - rewrite Z.max_r by lia.
    rewrite skipn_firstn_comm, skipn_skipn.
    replace (Z.to_nat (c - s) + Z.to_nat s)%nat with (Z.to_nat c) by lia.
    replace (Z.to_nat e) with (Z.to_nat (e - c) + Z.to_nat c)%nat by lia.
    rewrite <- skipn_skipn.
    replace (Z.to_nat (e - s) - Z.to_nat (c - s))%nat with (Z.to_nat (e - c)) by lia.
    apply firstn_skipn.
  - rewrite Z.max_l by lia.
    rewrite skipn_all2; [reflexivity|].
    rewrite length_firstn. lia.
Qed.

(** *** The loop under [0 < overlap < chunkSize] *)

Section ValidParameters.

Variable text : jsstring.
Variables chunkSize overlap : Z.
Hypothesis valid : 0 < overlap < chunkSize.

(** The three branches of the loop body. *)
Lemma step_cases : forall st,
  0 <= start st < textLength text ->
  let e := cutEnd text chunkSize (start st) in
  let bp := breakPointAt text chunkSize (start st) in
  (e < textLength text /\ chunkSize < 2 * bp /\ bp < chunkSize /\
   step text chunkSize overlap st =
   Loop (start st + (bp + 1))
        (pushTrimmed (chunks st) (slice text (start st) (start st + (bp + 1))))) \/
  (e < textLength text /\ 2 * bp <= chunkSize /\ e = start st + chunkSize /\
   step text chunkSize overlap st =
   Loop (e - overlap) (pushTrimmed (chunks st) (slice text (start st) e))) \/
  (e = textLength text /\
   step text chunkSize overlap st =
   Loop (textLength text) (pushTrimmed (chunks st) (slice text (start st) (textLength text)))).
Proof.
  intros st Hs e bp. unfold step. fold (cutEnd text chunkSize (start st)). fold e.
  assert (He : start st < e <= textLength text) by (unfold e, cutEnd; lia).
  destruct (e <? textLength text) eqn:Elt.
  - apply Z.ltb_lt in Elt.
    assert (Ee : e = start st + chunkSize) by (unfold e, cutEnd in *; lia).
    assert (Hlen : Z.of_nat (List.length (slice text (start st) e)) = chunkSize).
    { unfold textLength in *. rewrite slice_length; lia. }
    pose proof (lastIndexOf_bound (slice text (start st) e) period) as Hp.
    pose proof (lastIndexOf_bound (slice text (start st) e) newline) as Hn.
    assert (Ebp' : Z.max (lastIndexOf (slice text (start st) e) period)
                         (lastIndexOf (slice text (start st) e) newline) = bp)
      by reflexivity.
    rewrite Ebp'.
    assert (Hbp : -1 <= bp < chunkSize) by lia.
    destruct (chunkSize <? 2 * bp) eqn:Ebp.
    + apply Z.ltb_lt in Ebp. left. repeat split; try lia.
      unfold textLength in *. rewrite slice_slice_prefix by lia. reflexivity.
    + apply Z.ltb_ge in Ebp. right; left. repeat split; lia.
  - apply Z.ltb_ge in Elt. right; right.
    assert (Ee : e = textLength text) by lia. rewrite Ee. now split.
Qed.

(** One iteration takes a non-empty slice at the cursor and moves the
    cursor forward, to at most [overlap] characters before the end of
    the slice. *)
Lemma step_piece : forall s acc,
  0 <= s < textLength text ->
  exists e s',
    step text chunkSize overlap (Loop s acc) =
      Loop s' (pushTrimmed acc (slice text s e)) /\
    s < e <= textLength text /\ s < s' <= e /\ e - s' <= overlap.
Proof.
  intros s acc Hs.
  destruct (step_cases (Loop s acc) Hs) as
    [(He & Hbp & Hlt & E)|[(He & Hbp & Ee & E)|(Ee & E)]];
    cbn [start chunks] in *.
  - assert (Hc : cutEnd text chunkSize s = s + chunkSize) by (unfold cutEnd in *; lia).
    exists (s + (breakPointAt text chunkSize s + 1)), (s + (breakPointAt text chunkSize s + 1)).
    split; [exact E|]. lia.
  - exists (cutEnd text chunkSize s), (cutEnd text chunkSize s - overlap). split; [exact E|]. lia.
  - exists (textLength text), (textLength text). split; [exact E|]. lia.
Qed.

Lemma loop_terminates : forall fuel st,
  0 <= start st -> textLength text - start st <= Z.of_nat fuel ->
  exists result, loop text chunkSize overlap fuel st = Some result.
Proof.
  induction fuel as [|fuel IH]; intros [s acc] Hs Hfuel; cbn [start] in *;
    cbn [loop start]; destruct (s <? textLength text) eqn:E;
    try (eexists; reflexivity).
  - apply Z.ltb_lt in E. lia.
  - apply Z.ltb_lt in E.
    destruct (step_piece s acc) as (e & s' & Estep & He & Hs' & _); [lia|].
    rewrite Estep. apply IH; cbn [start]; lia.
Qed.

Lemma loop_covers : forall fuel s c acc,
  0 <= s <= c -> c <= textLength text -> c - s <= overlap ->
  textLength text - s <= Z.of_nat fuel ->
  exists out pieces,
    loop text chunkSize overlap fuel (Loop s acc) = Some (acc ++ out) /\
    Forall (isSliceOf text) pieces /\
    reassemble c pieces = skipn (Z.to_nat c) text /\
    overlapsWithin overlap c pieces /\
    keeps (map snd pieces) out.
Proof.
  induction fuel as [|fuel IH]; intros s c acc Hs Hc Hov Hfuel;
    cbn [loop start chunks]; destruct (s <? textLength text) eqn:E.
  - apply Z.ltb_lt in E. lia.
  - apply Z.ltb_ge in E. exists [], []. rewrite app_nil_r.
    repeat split; try constructor.
    cbn [reassemble]. symmetry. apply skipn_all2. unfold textLength in *. lia.
  - apply Z.ltb_lt in E.
    destruct (step_piece s acc) as (e & s' & Estep & He & Hs' & Hov'); [lia|].
    rewrite Estep.
    destruct (pushTrimmed_keeps acc (slice text s e)) as (kept & Epush & Hkeep).
    rewrite Epush.
    assert (Hraw : Z.of_nat (List.length (slice text s e)) = e - s).
    { unfold textLength in *. apply slice_length; lia. }
    destruct (IH s' (Z.max c e) (acc ++ kept)) as (out & pieces & El & Hsl & Hre & Hol & Hk);
      try lia.
    exists (kept ++ out), ((s, slice text s e) :: pieces).
    rewrite app_assoc. split; [exact El|].
    split; [constructor; [|exact Hsl]|].
    { unfold isSliceOf. cbn [fst snd]. rewrite Hraw.
      split; [lia|]. f_equal. lia. }
    cbn [reassemble overlapsWithin map snd]. rewrite Hraw.
    replace (s + (e - s)) with e by lia.
    split; [|split].
    + rewrite Hre. unfold textLength in *. apply cover_join; lia.
    + split; [lia | exact Hol].
    + apply Hkeep. exact Hk.
  - apply Z.ltb_ge in E. exists [], []. rewrite app_nil_r.
    repeat split; try constructor.
    cbn [reassemble]. symmetry. apply skipn_all2. unfold textLength in *. lia.
Qed.

End ValidParameters.

(** *** Chunks are non-empty and trimmed *)

Lemma trimStart_head : forall s c t,
  trimStart s = c :: t -> isWhiteSpace c = false.
Proof.
  induction s as [|x s IH]; intros c t E; cbn [trimStart] in E; [discriminate|].
  destruct (isWhiteSpace x) eqn:Ex.
  - now apply (IH c t).
  - now inversion E; subst.
Qed.

Lemma trimStart_whitespace : forall s, allWhiteSpace s -> trimStart s = [].
Proof.
  intros s H. induction H as [|c s Hc _ IH]; cbn [trimStart]; [reflexivity|].
  now rewrite Hc.
Qed.

Lemma trim_whitespace : forall s, allWhiteSpace s -> trim s = [].
Proof.
  intros s H. unfold trim. now rewrite (trimStart_whitespace s H).
Qed.

Lemma trim_wellTrimmed : forall s c t, trim s = c :: t -> wellTrimmed (trim s).
Proof.
  intros s c t E. exists c, t. split; [exact E|].
  unfold trim, trimEnd in *.
  destruct (trimStart_split (rev (trimStart s))) as (l & Hrev & Hl).
  assert (Hs : trimStart s = rev (trimStart (rev (trimStart s))) ++ rev l).
  { rewrite <- rev_app_distr, <- Hrev. now rewrite rev_involutive. }
  split.
  - rewrite E in Hs. cbn [app] in Hs. now apply (trimStart_head s c _ Hs).
  - destruct (trimStart (rev (trimStart s))) as [|x u] eqn:Eu;
      [discriminate E|].
    cbn [rev]. rewrite last_last.
    now apply (trimStart_head _ x u Eu).
Qed.

Lemma pushTrimmed_wellTrimmed : forall acc raw,
  Forall wellTrimmed acc -> Forall wellTrimmed (pushTrimmed acc raw).
Proof.
  intros acc raw H. unfold pushTrimmed.
  destruct (trim raw) as [|c t] eqn:E; cbn [List.length Z.of_nat Z.ltb Z.compare];
    [exact H|].
  apply Forall_app. split; [exact H|].
  constructor; [|constructor]. rewrite <- E. now apply (trim_wellTrimmed raw c t).
Qed.

Lemma step_wellTrimmed : forall text chunkSize overlap st,
  Forall wellTrimmed (chunks st) ->
  Forall wellTrimmed (chunks (step text chunkSize overlap st)).
Proof.
  intros text chunkSize overlap st H. unfold step.
  repeat match goal with
         | |- context [if ?b then _ else _] => destruct b
         end; cbn [chunks]; now apply pushTrimmed_wellTrimmed.
Qed.

Lemma loop_wellTrimmed : forall text chunkSize overlap fuel st result,
  Forall wellTrimmed (chunks st) ->
  loop text chunkSize overlap fuel st = Some result ->
  Forall wellTrimmed result.
Proof.
  intros text chunkSize overlap. induction fuel as [|fuel IH];
    intros st result H E; cbn [loop] in E;
    destruct (start st <? textLength text); try discriminate E.
  - now inversion E; subst.
  - eapply IH; [|exact E]. now apply step_wellTrimmed.
  - now inversion E; subst.
Qed.

Lemma slice_whitespace : forall (s : jsstring) a b,
  allWhiteSpace s -> allWhiteSpace (slice s a b).
Proof.
  intros s a b H. unfold allWhiteSpace in *. apply Forall_forall.
  intros c Hc. apply slice_incl in Hc. rewrite Forall_forall in H. now apply H.
Qed.

Lemma pushTrimmed_whitespace : forall raw,
  allWhiteSpace raw -> pushTrimmed [] raw = [].
Proof.
  intros raw H. unfold pushTrimmed. now rewrite (trim_whitespace raw H).
Qed.

Lemma loop_whitespace : forall text chunkSize overlap fuel st result,
  allWhiteSpace text -> chunks st = [] ->
  loop text chunkSize overlap fuel st = Some result -> result = [].
Proof.
  intros text chunkSize overlap. induction fuel as [|fuel IH];
    intros st result Hws Hnil E; cbn [loop] in E;
    destruct (start st <? textLength text); try discriminate E.
  - inversion E; subst. exact Hnil.
  - eapply IH; [exact Hws| |exact E].
    unfold step. rewrite Hnil.
    repeat match goal with
           | |- context [if ?b then _ else _] => destruct b
           end; cbn [chunks]; apply pushTrimmed_whitespace;
      repeat apply slice_whitespace; exact Hws.
  - inversion E; subst. exact Hnil.
Qed.

(** Whatever the parameters, when [splitTextIntoChunks] returns, every
    chunk is non-empty and has no white space at either end, and a text
    of white space only yields no chunk. *)
Theorem chunks_nonempty_trimmed : forall fuel text chunkSize overlap chunks,
  splitTextIntoChunks fuel text chunkSize overlap = Some chunks ->
  Forall wellTrimmed chunks /\ (allWhiteSpace text -> chunks = []).
Proof.
  intros fuel text chunkSize overlap chunks E. unfold splitTextIntoChunks in E.
  split.
  - eapply loop_wellTrimmed; [|exact E]. constructor.
  - intro Hws. eapply loop_whitespace; [exact Hws| |exact E]. reflexivity.
Qed.

Lemma chunks_nonempty_trimmed_witness :
  Forall wellTrimmed
    (map list_ascii_of_string
       ["Hello world."; "This is a test of t"; "of the chunker.";
        "It has  several sen"; "l sentences."]%string).
Proof.
  apply (chunks_nonempty_trimmed 100 Samples.sentences 20 5). reflexivity.
Defined.

(** A run: a cut at a sentence end, then a cut with overlap. *)
Example splitTextIntoChunks_sentences :
  option_map (map string_of_list_ascii)
    (splitTextIntoChunks 100 Samples.sentences 20 5) =
  Some ["Hello world."; "This is a test of t"; "of the chunker.";
        "It has  several sen"; "l sentences."]%string.
Proof. reflexivity. Qed.

(** With [overlap = chunkSize] the cursor stops advancing. *)
Example splitTextIntoChunks_stuck :
  splitTextIntoChunks 1000 (list_ascii_of_string "abcdefghijklmnopqrstuvwxyz") 10 10
  = None.
Proof. reflexivity. Qed.

(** *** Slices that leave no chunk *)

Lemma keeps_nil_whitespace : forall raws,
  keeps raws [] -> Forall allWhiteSpace raws.
Proof.
  intros raws H. remember [] as chunks eqn:E.
  induction H as [|raw raws chunks Hraw _ IH|]; subst.
  - constructor.
  - constructor; [exact Hraw | now apply IH].
  - discriminate E.
Qed.

Lemma skipn_whitespace : forall n (s : jsstring),
  allWhiteSpace s -> allWhiteSpace (skipn n s).
Proof.
  intros n s H. unfold allWhiteSpace in *. apply Forall_forall.
  intros c Hc. apply skipn_incl in Hc. rewrite Forall_forall in H. now apply H.
Qed.

Lemma reassemble_whitespace : forall pieces covered,
  Forall allWhiteSpace (map snd pieces) ->
  allWhiteSpace (reassemble covered pieces).
Proof.
  induction pieces as [|[offset raw] pieces IH]; intros covered H;
    cbn [reassemble].
  - constructor.
  - cbn [map snd] in H. inversion H as [|? ? Hraw Hrest]; subst.
    unfold allWhiteSpace. apply Forall_app. split.
    + now apply skipn_whitespace.
    + now apply IH.
Qed.

End ChunkerSpec.

(** ** [splitTextIntoChunks] on numbers *)

Module ChunkerNumSpec.

Import Js JsFacts Num NumFacts Binary64 FloatOrder FloatSub FloatExact.
Import FloatRound ChunkerSpec.
Import ChunkerNum.
Local Open Scope Z_scope.

(** *** Integers as numbers *)

Lemma ofInt_spec : forall z, 0 <= z < 2 ^ prec -> Prim2SF (ofInt z) = ofZ z.
Proof.
  intros z Hz. unfold ofInt.
  destruct (z <? 0) eqn:E; [apply Z.ltb_lt in E; lia|].
  rewrite of_uint63_spec. unfold ofZ. f_equal.
  rewrite Uint63.of_Z_spec. apply Z.mod_small.
  assert (2 ^ prec < Uint63.wB) by reflexivity. lia.
Qed.

Lemma ofInt_minus_one :
  Prim2SF (ofInt (-1)) = S754_finite true 4503599627370496 (-52).
Proof. reflexivity. Qed.

Lemma ofInt_add : forall a b,
  0 <= a -> 0 <= b -> a + b < 2 ^ prec ->
  (ofInt a + ofInt b)%float = ofInt (a + b).
Proof.
  intros a b Ha Hb Hab. apply Prim2SF_inj.
  rewrite add_spec, !ofInt_spec by lia. apply SFadd_ofZ; assumption.
Qed.

Lemma ofInt_sub : forall a b,
  0 <= b -> b <= a -> a < 2 ^ prec ->
  (ofInt a - ofInt b)%float = ofInt (a - b).
Proof.
  intros a b Hb Hba Ha. apply Prim2SF_inj.
  rewrite sub_spec, !ofInt_spec by lia. apply SFsub_ofZ; assumption.
Qed.

(** An integer result, [-1] included, as a float. *)
Lemma ofInt_cases : forall z,
  -1 <= z < 2 ^ prec ->
  (z = -1 /\ Prim2SF (ofInt z) = S754_finite true 4503599627370496 (-52)) \/
  (z = 0 /\ Prim2SF (ofInt z) = S754_zero false) \/
  (exists p m e, z = Zpos p /\ Prim2SF (ofInt z) = S754_finite false m e /\
     normal m e /\ - (prec - 1) <= e <= 0 /\ Zpos m = z * 2 ^ (- e)).
Proof.
  intros z Hz.
  destruct z as [|p|p].
  - right; left. split; reflexivity.
  - right; right. rewrite ofInt_spec by lia.
    destruct (ofZ_pos p ltac:(lia)) as (m & e & E & Hn & He & Hm).
    exists p, m, e. split; [reflexivity|]. split; [exact E|].
    split; [exact Hn|]. split; [lia|exact Hm].
  - left. assert (p = 1%positive) by lia. subst p. split; reflexivity.
Qed.

Lemma ofInt_compare : forall a b,
  -1 <= a < 2 ^ prec -> -1 <= b < 2 ^ prec ->
  SFcompare (Prim2SF (ofInt a)) (Prim2SF (ofInt b)) = Some (a ?= b).
Proof.
  intros a b Ha Hb.
  destruct (ofInt_cases a Ha) as
    [[-> Ea]|[[-> Ea]|(pa & ma & ea & -> & Ea & Hna & Hea & Hma)]];
  destruct (ofInt_cases b Hb) as
    [[-> Eb]|[[-> Eb]|(pb & mb & eb & -> & Eb & Hnb & Heb & Hmb)]];
  rewrite ?Ea, ?Eb; try reflexivity.
  rewrite SFcompare_normal by assumption.
  rewrite (scaled_ofZ (Zpos pa) ma ea), (scaled_ofZ (Zpos pb) mb eb)
    by (try assumption; try apply Hna; try apply Hnb; lia).
  f_equal. symmetry. apply Zmult_compare_compat_r. reflexivity.
Qed.

Lemma ofInt_ltb : forall a b,
  -1 <= a < 2 ^ prec -> -1 <= b < 2 ^ prec ->
  (ofInt a <? ofInt b)%float = (a <? b).
Proof.
  intros a b Ha Hb. rewrite ltb_spec. unfold SFltb.
  rewrite ofInt_compare by assumption. unfold Z.ltb.
  destruct (a ?= b); reflexivity.
Qed.

Lemma ofInt_not_nan : forall a, -1 <= a < 2 ^ prec -> is_nan (ofInt a) = false.
Proof.
  intros a Ha. unfold is_nan. rewrite eqb_spec. unfold SFeqb.
  rewrite ofInt_compare, Z.compare_refl by assumption. reflexivity.
Qed.

Lemma mathMin_ofInt : forall a b,
  -1 <= a < 2 ^ prec -> -1 <= b < 2 ^ prec ->
  mathMin (ofInt a) (ofInt b) = ofInt (Z.min a b).
Proof.
  intros a b Ha Hb. unfold mathMin.
  rewrite !ofInt_not_nan, !ofInt_ltb by assumption. cbn [orb].
  destruct (a <? b) eqn:E1.
  - apply Z.ltb_lt in E1. now rewrite Z.min_l by lia.
  - apply Z.ltb_ge in E1. destruct (b <? a) eqn:E2.
    + apply Z.ltb_lt in E2. now rewrite Z.min_r by lia.
    + apply Z.ltb_ge in E2. assert (a = b) by lia. subst b.
      rewrite Z.min_id. now destruct (get_sign (ofInt a)).
Qed.

Lemma mathMax_ofInt : forall a b,
  -1 <= a < 2 ^ prec -> -1 <= b < 2 ^ prec ->
  mathMax (ofInt a) (ofInt b) = ofInt (Z.max a b).
Proof.
  intros a b Ha Hb. unfold mathMax.
  rewrite !ofInt_not_nan, !ofInt_ltb by assumption. cbn [orb].
  destruct (a <? b) eqn:E1.
  - apply Z.ltb_lt in E1. now rewrite Z.max_r by lia.
  - apply Z.ltb_ge in E1. destruct (b <? a) eqn:E2.
    + apply Z.ltb_lt in E2. now rewrite Z.max_l by lia.
    + apply Z.ltb_ge in E2. assert (a = b) by lia. subst b.
      rewrite Z.max_id. now destruct (get_sign (ofInt a)).
Qed.

(** [breakPoint > chunkSize * 0.5] on integers. *)
Lemma ofInt_half_ltb : forall c bp,
  0 < c < 2 ^ prec -> -1 <= bp < 2 ^ prec ->
  (ofInt c * 0.5 <? ofInt bp)%float = (c <? 2 * bp).
Proof.
  intros c bp Hc Hbp. rewrite ltb_spec, mul_spec.
  change (Prim2SF 0.5) with (S754_finite false 4503599627370496 (-53)).
  destruct (ofInt_cases c ltac:(lia)) as
    [[-> _]|[[-> _]|(pc & mc & ec & Ec & -> & Hnc & Hec & Hmc)]]; [lia|lia|].
  unfold SF64mul. cbn [SFmul xorb].
  rewrite (binary_round_aux_exact false _ _ mc (ec - 1)).
  - assert (Hn' : normal mc (ec - 1)).
    { destruct Hnc as [Hd He]. split; [exact Hd|].
      unfold SpecFloat.emin, prec, emax in *. lia. }
    destruct (ofInt_cases bp Hbp) as
      [[-> Eb]|[[-> Eb]|(pb & mb & eb & Eb' & Eb & Hnb & Heb & Hmb)]];
      rewrite Eb.
    + cbn [SFltb SFcompare]. symmetry. apply Z.ltb_ge. lia.
    + cbn [SFltb SFcompare]. symmetry. apply Z.ltb_ge. lia.
    + unfold SFltb. rewrite SFcompare_normal by assumption.
      assert (Hs1 : Zpos mc * 2 ^ (ec - 1 - SpecFloat.emin prec emax) =
                    c * 2 ^ (- 1 - SpecFloat.emin prec emax)).
      { rewrite Hmc, <- Z.mul_assoc, <- pow2_split
          by (unfold SpecFloat.emin, prec, emax in *; lia).
        f_equal. f_equal. lia. }
      assert (Hs2 : Zpos mb * 2 ^ (eb - SpecFloat.emin prec emax) =
                    (2 * bp) * 2 ^ (- 1 - SpecFloat.emin prec emax)).
      { rewrite Hmb, <- Z.mul_assoc, <- pow2_split
          by (unfold SpecFloat.emin, prec, emax in *; lia).
        replace (- eb + (eb - SpecFloat.emin prec emax))
          with (Z.succ (- 1 - SpecFloat.emin prec emax)) by lia.
        rewrite Z.pow_succ_r by (unfold SpecFloat.emin, prec, emax; lia). lia. }
      rewrite Hs1, Hs2.
      rewrite <- (Zmult_compare_compat_r c (2 * bp)) by reflexivity.
      unfold Z.ltb. destruct (c ?= 2 * bp); reflexivity.
  - destruct Hnc as [Hd He]. split; [exact Hd|].
    unfold SpecFloat.emin, prec, emax in *. lia.
  - lia.
  - rewrite Pos2Z.inj_mul. f_equal.
    replace (ec - 1 - (ec + -53)) with 52 by lia. reflexivity.
Qed.

Lemma toInteger_ofInt : forall bound z,
  0 <= z < 2 ^ prec -> toInteger bound (ofInt z) = z.
Proof.
  intros bound z Hz. unfold toInteger.
  destruct (ofInt_cases z ltac:(lia)) as
    [[-> _]|[[-> ->]|(p & m & e & Ez & -> & Hn & He & Hm)]]; [lia|reflexivity|].
  destruct (0 <=? e) eqn:E.
  - apply Z.leb_le in E. assert (e = 0) by lia. subst e.
    rewrite Z.shiftl_0_r, Hm. cbn. lia.
  - rewrite Z.shiftr_div_pow2, Hm by lia.
    apply Z.div_mul. apply Z.pow_nonzero; lia.
Qed.

Lemma sliceNum_ofInt : forall (s : jsstring) a b,
  0 <= a < 2 ^ prec -> 0 <= b < 2 ^ prec ->
  sliceNum s (ofInt a) (ofInt b) = slice s a b.
Proof.
  intros s a b Ha Hb. unfold sliceNum. now rewrite !toInteger_ofInt.
Qed.

(** A sum of two integers below [2^53] that reaches [2^53] is rounded
    to a float that is not below [2^53]. *)
Lemma ofInt_add_large : forall a b,
  0 <= a < 2 ^ prec -> 0 <= b < 2 ^ prec -> 2 ^ prec <= a + b ->
  exists m e,
    Prim2SF (ofInt a + ofInt b) = S754_finite false m e /\
    normal m e /\ 1 <= e.
Proof.
  intros a b Ha Hb Hab.
  rewrite add_spec, !ofInt_spec by lia. unfold SF64add.
  destruct a as [|a|a]; [lia| |lia]. destruct b as [|b|b]; [lia| |lia].
  destruct (ofZ_pos a ltac:(lia)) as (ma & ea & -> & Hna & Hea & Hma).
  destruct (ofZ_pos b ltac:(lia)) as (mb & eb & -> & Hnb & Heb & Hmb).
  cbn [SFadd cond_Zopp]. rewrite !shl_align_value by lia.
  set (ez := Z.min ea eb).
  assert (Hsum : Zpos ma * 2 ^ (ea - ez) + Zpos mb * 2 ^ (eb - ez) =
                 Zpos (a + b) * 2 ^ (- ez)).
  { rewrite Hma, Hmb, <- !Z.mul_assoc, <- !pow2_split by lia.
    replace (- ea + (ea - ez)) with (- ez) by lia.
    replace (- eb + (eb - ez)) with (- ez) by lia.
    rewrite Pos2Z.inj_add. lia. }
  assert (Hpow : 0 < 2 ^ (- ez)) by (apply Z.pow_pos_nonneg; lia).
  destruct (Zpos ma * 2 ^ (ea - ez) + Zpos mb * 2 ^ (eb - ez)) as [|q|q] eqn:E;
    [lia| |lia].
  cbn [binary_normalize]. unfold binary_round.
  assert (Hdq : Zpos (digits2_pos q) = prec + (1 - ez)).
  { apply digits2_pos_unique. rewrite Hsum.
    replace (prec + (1 - ez) - 1) with (prec + - ez) by lia.
    replace (prec + (1 - ez)) with (prec + 1 + - ez) by lia.
    rewrite !pow2_split by (unfold prec; lia).
    change (Zpos (a + b)) with (Zpos a + Zpos b).
    assert (2 ^ (prec + 1) = 2 * 2 ^ prec) by reflexivity.
    split; nia. }
  rewrite Hdq.
  replace (fexp prec emax (prec + (1 - ez) + ez)) with 1
    by (unfold fexp, SpecFloat.emin, prec, emax; lia).
  assert (Hal : shl_align q ez 1 = (q, ez)).
  { unfold shl_align. destruct (1 - ez) as [|p|p] eqn:Ed; try reflexivity. lia. }
  rewrite Hal.
  destruct (binary_round_aux_enclosure false q ez loc_Exact (1 - ez))
    as (mr & er & -> & Hnr & Hcase).
  - exact Hdq.
  - lia.
  - unfold SpecFloat.emin, prec, emax. lia.
  - unfold prec, emax. lia.
  - left. unfold prec, emax. lia.
  - exists mr, er. split; [reflexivity|]. split; [exact Hnr|].
    destruct Hcase as [[-> _]|[-> _]]; lia.
Qed.

(** A float that is not below [2^53] is above every length. *)
Lemma large_above : forall m e len,
  normal m e -> 1 <= e -> 0 <= len < 2 ^ prec ->
  SFcompare (Prim2SF (ofInt len)) (S754_finite false m e) = Some Lt.
Proof.
  intros m e len Hn He Hlen.
  destruct (ofInt_cases len ltac:(lia)) as
    [[-> _]|[[-> ->]|(p & ml & el & El & -> & Hnl & Hel & Hml)]];
    [lia|reflexivity|].
  rewrite SFcompare_normal by assumption. f_equal.
  apply Z.compare_lt_iff.
  rewrite (scaled_ofZ len ml el) by (try assumption; try apply Hnl; lia).
  pose proof (digits2_pos_bounds m) as Hb.
  destruct Hn as [Hd Hr]. rewrite Hd in Hb.
  assert (Hp : 2 ^ (e - SpecFloat.emin prec emax) =
               2 ^ (e - 1) * 2 * 2 ^ (- SpecFloat.emin prec emax)).
  { rewrite <- Z.mul_assoc, <- Z.pow_succ_r, <- pow2_split
      by (unfold SpecFloat.emin, prec, emax; lia).
    f_equal. lia. }
  assert (0 < 2 ^ (e - 1)) by (apply Z.pow_pos_nonneg; lia).
  assert (0 < 2 ^ (- SpecFloat.emin prec emax)) by reflexivity.
  assert (2 ^ prec = 2 * 2 ^ (prec - 1)) by reflexivity.
  rewrite Hp. nia.
Qed.

(** [Math.min] of a float that is not below [2^53] and a length. *)
Lemma mathMin_large : forall x m e len,
  Prim2SF x = S754_finite false m e -> normal m e -> 1 <= e ->
  0 <= len < 2 ^ prec ->
  mathMin x (ofInt len) = ofInt len.
Proof.
  intros x m e len Ex Hn He Hlen.
  assert (Hcmp : SFcompare (Prim2SF (ofInt len)) (Prim2SF x) = Some Lt)
    by (rewrite Ex; now apply large_above).
  unfold mathMin.
  assert (Hx : is_nan x = false).
  { unfold is_nan. rewrite eqb_spec, Ex. unfold SFeqb, SFcompare.
    rewrite Z.compare_refl, Pos.compare_cont_refl. reflexivity. }
  rewrite Hx, ofInt_not_nan by lia. cbn [orb].
  assert (E1 : (x <? ofInt len)%float = false).
  { rewrite ltb_spec. unfold SFltb.
    rewrite Ex in *.
    destruct (ofInt_cases len ltac:(lia)) as
      [[-> _]|[[-> E0]|(p & ml & el & El & E0 & Hnl & Hel & Hml)]];
      [lia| |]; rewrite E0 in *; [reflexivity|].
    cbn [SFcompare] in *. inversion Hcmp as [Hc].
    destruct (el ?= e) eqn:Ec.
    - apply Z.compare_eq in Ec. subst el. rewrite Z.compare_refl.
      rewrite Pos.compare_cont_spec in *. unfold Pos.switch_Eq in *.
      rewrite (Pos.compare_antisym ml m).
      destruct (ml ?= m)%positive; try discriminate Hc. reflexivity.
    - rewrite (Z.compare_antisym el e), Ec. reflexivity.
    - discriminate Hc. }
  assert (E2 : (ofInt len <? x)%float = true).
  { rewrite ltb_spec. unfold SFltb. now rewrite Hcmp. }
  now rewrite E1, E2.
Qed.

(** *** On integer parameters the loop on numbers is the loop on integers *)

Section IntegerParameters.

Variable text : jsstring.
Variables chunkSize overlap : Z.
Hypothesis valid : 0 < overlap < chunkSize.
Hypothesis safeSize : chunkSize < 2 ^ prec.
Hypothesis safeLength : Chunker.textLength text < 2 ^ prec.

Lemma end_inject : forall s,
  0 <= s < Chunker.textLength text ->
  mathMin (ofInt s + ofInt chunkSize) (ofInt (Chunker.textLength text)) =
  ofInt (Z.min (s + chunkSize) (Chunker.textLength text)).
Proof.
  intros s Hs.
  destruct (Z.lt_ge_cases (s + chunkSize) (2 ^ prec)) as [Hlt|Hge].
  - rewrite ofInt_add, mathMin_ofInt by lia. reflexivity.
  - destruct (ofInt_add_large s chunkSize) as (m & e & E & Hn & He); try lia.
    rewrite (mathMin_large _ m e) by (try assumption; lia).
    f_equal. lia.
Qed.

Lemma step_inject : forall st,
  0 <= Chunker.start st < Chunker.textLength text ->
  step text (ofInt chunkSize) (ofInt overlap) (inject st) =
  inject (Chunker.step text chunkSize overlap st).
Proof.
  intros [s acc] Hs. cbn [Chunker.start] in Hs.
  unfold step, Chunker.step, inject, textLength.
  cbn [start chunks Chunker.start Chunker.chunks].
  fold (Chunker.textLength text).
  rewrite end_inject by exact Hs.
  set (len := Chunker.textLength text) in *.
  assert (Hlen0 : 0 <= len) by lia.
  set (e := Z.min (s + chunkSize) len).
  assert (He : s < e <= len) by (unfold e; lia).
  rewrite sliceNum_ofInt, ofInt_ltb by lia.
  destruct (e <? len) eqn:Elt.
  - apply Z.ltb_lt in Elt.
    set (chunk := slice text s e).
    assert (Hchunk : Z.of_nat (List.length chunk) = chunkSize).
    { unfold chunk, len, Chunker.textLength in *. rewrite slice_length; lia. }
    pose proof (lastIndexOf_bound chunk period) as Hp.
    pose proof (lastIndexOf_bound chunk newline) as Hn.
    rewrite mathMax_ofInt, ofInt_half_ltb by lia.
    set (bp := Z.max (lastIndexOf chunk period) (lastIndexOf chunk newline)).
    assert (Hbp : -1 <= bp < chunkSize) by (unfold bp; lia).
    destruct (chunkSize <? 2 * bp) eqn:Ebp.
    + apply Z.ltb_lt in Ebp.
      change 1%float with (ofInt 1). change 0%float with (ofInt 0).
      rewrite (ofInt_add bp 1), ofInt_add, sliceNum_ofInt by lia.
      reflexivity.
    + rewrite ofInt_sub by lia. reflexivity.
  - reflexivity.
Qed.

End IntegerParameters.

(** *** Numbers that are integers *)

(** A positive integer number is a normal number whose value is its
    integer. *)
Lemma positive_integer : forall x,
  isInteger x = true -> (0 <? x)%float = true ->
  exists m e,
    Prim2SF x = S754_finite false m e /\ normal m e /\
    0 < integerOf x /\
    (0 <= e -> integerOf x = Zpos m * 2 ^ e) /\
    (e <= 0 -> Zpos m = integerOf x * 2 ^ (- e)).
Proof.
  intros x Hint Hpos. unfold isInteger, integerOf, toInteger in *.
  rewrite ltb_spec in Hpos. change (Prim2SF 0) with (S754_zero false) in Hpos.
  pose proof (Prim2SF_valid x) as Hv.
  destruct (Prim2SF x) as [s|s| |[|] m e]; try discriminate Hint;
    try discriminate Hpos; try (destruct s; discriminate Hpos).
  exists m, e. split; [reflexivity|].
  cbn [valid_binary] in Hv. unfold bounded, canonical_mantissa in Hv.
  apply andb_prop in Hv. destruct Hv as [Hc He].
  apply Z.eqb_eq in Hc. apply Z.leb_le in He.
  pose proof (digits2_pos_bounds m) as Hb.
  destruct (0 <=? e) eqn:E0.
  - apply Z.leb_le in E0.
    assert (Hd : Zpos (digits2_pos m) = prec)
      by (unfold fexp, SpecFloat.emin, prec, emax in *; lia).
    rewrite Z.shiftl_mul_pow2 by lia.
    assert (0 < 2 ^ e) by (apply Z.pow_pos_nonneg; lia).
    split; [split; [exact Hd | unfold SpecFloat.emin, prec, emax in *; lia]|].
    split; [nia|]. split; [reflexivity|].
    intro H0. assert (e = 0) by lia. subst e. cbn. lia.
  - apply Z.leb_gt in E0. cbn [orb] in Hint. apply Z.eqb_eq in Hint.
    rewrite Z.shiftr_div_pow2 by lia.
    assert (Hp : 0 < 2 ^ (- e)) by (apply Z.pow_pos_nonneg; lia).
    assert (Hm : Zpos m = Zpos m / 2 ^ (- e) * 2 ^ (- e)).
    { pose proof (Z.div_mod (Zpos m) (2 ^ (- e)) ltac:(lia)). lia. }
    assert (Hq : 0 < Zpos m / 2 ^ (- e)) by nia.
    assert (Hd : Zpos (digits2_pos m) = prec).
    { destruct (Z.eq_dec (Zpos (digits2_pos m)) prec) as [Hd|Hd]; [exact Hd|].
      exfalso.
      assert (Ee : e = -1074 /\ Zpos (digits2_pos m) < prec)
        by (unfold fexp, SpecFloat.emin, prec, emax in *; lia).
      destruct Ee as [-> Hlt].
      assert (2 ^ Zpos (digits2_pos m) <= 2 ^ 1074)
        by (apply Z.pow_le_mono_r; unfold prec in *; lia).
      change (- -1074) with 1074 in *. nia. }
    split; [split; [exact Hd | unfold fexp, SpecFloat.emin, prec, emax in *; lia]|].
    split; [exact Hq|]. split; [lia|]. intros _. exact Hm.
Qed.

Lemma integer_small : forall x,
  isInteger x = true -> (0 <? x)%float = true -> integerOf x < 2 ^ prec ->
  x = ofInt (integerOf x).
Proof.
  intros x Hint Hpos Hsmall.
  destruct (positive_integer x Hint Hpos) as (m & e & E & Hn & Hz & Hhi & Hlo).
  apply Prim2SF_inj. rewrite ofInt_spec by lia. rewrite E.
  destruct (integerOf x) as [|z|z] eqn:Ez; try lia.
  unfold ofZ. cbn [binary_normalize]. symmetry.
  apply binary_round_exact; [exact Hn| |].
  - intro H0. rewrite Z.sub_0_r. apply Hhi. exact H0.
  - intro H0. replace (0 - e) with (- e) by lia. apply Hlo. exact H0.
Qed.

Lemma integer_large : forall x,
  isInteger x = true -> (0 <? x)%float = true -> 2 ^ prec <= integerOf x ->
  exists m e, Prim2SF x = S754_finite false m e /\ normal m e /\ 1 <= e.
Proof.
  intros x Hint Hpos Hlarge.
  destruct (positive_integer x Hint Hpos) as (m & e & E & Hn & Hz & Hhi & Hlo).
  exists m, e. split; [exact E|]. split; [exact Hn|].
  destruct (Z.le_gt_cases 1 e) as [H|H]; [exact H|]. exfalso.
  pose proof (digits2_pos_bounds m) as Hb. destruct Hn as [Hd _].
  rewrite Hd in Hb.
  assert (0 < 2 ^ (- e)) by (apply Z.pow_pos_nonneg; lia).
  specialize (Hlo ltac:(lia)). nia.
Qed.

(** Positive integer numbers are ordered as their integers. *)
Lemma integer_ltb : forall x y,
  isInteger x = true -> (0 <? x)%float = true ->
  isInteger y = true -> (0 <? y)%float = true ->
  (x <? y)%float = (integerOf x <? integerOf y).
Proof.
  intros x y Hix Hpx Hiy Hpy.
  destruct (positive_integer x Hix Hpx) as (mx & ex & Ex & Hnx & Hzx & Hhx & Hlx).
  destruct (positive_integer y Hiy Hpy) as (my & ey & Ey & Hny & Hzy & Hhy & Hly).
  rewrite ltb_spec, Ex, Ey. unfold SFltb.
  rewrite SFcompare_normal by assumption.
  assert (Hscale : forall z m e,
            normal m e -> (0 <= e -> z = Zpos m * 2 ^ e) ->
            (e <= 0 -> Zpos m = z * 2 ^ (- e)) ->
            Zpos m * 2 ^ (e - SpecFloat.emin prec emax) =
            z * 2 ^ (- SpecFloat.emin prec emax)).
  { intros z m e [_ He] Hh Hl.
    destruct (Z.le_gt_cases 0 e) as [H0|H0].
    - rewrite (Hh H0), <- Z.mul_assoc, <- pow2_split
        by (unfold SpecFloat.emin, prec, emax in *; lia).
      apply f_equal, f_equal. lia.
    - rewrite (Hl ltac:(lia)), <- Z.mul_assoc, <- pow2_split
        by (unfold SpecFloat.emin, prec, emax in *; lia).
      apply f_equal, f_equal. lia. }
  rewrite (Hscale _ mx ex Hnx Hhx Hlx), (Hscale _ my ey Hny Hhy Hly).
  rewrite <- (Zmult_compare_compat_r (integerOf x) (integerOf y)) by reflexivity.
  unfold Z.ltb. destruct (integerOf x ?= integerOf y); reflexivity.
Qed.

Section IntegerNumbers.

Variable text : jsstring.
Variables chunkSize overlap : float.
Hypothesis integerSize : isInteger chunkSize = true.
Hypothesis integerOverlap : isInteger overlap = true.
Hypothesis positive : (0 <? overlap)%float = true.
Hypothesis below : (overlap <? chunkSize)%float = true.
Hypothesis safeLength : Chunker.textLength text < 2 ^ prec.

Lemma positiveSize : (0 <? chunkSize)%float = true.
Proof.
  pose proof positive as Hp. pose proof below as Hb.
  rewrite ltb_spec in *. change (Prim2SF 0) with (S754_zero false) in *.
  unfold SFltb in *.
  destruct (Prim2SF overlap) as [so|so| |so mo eo];
    destruct (Prim2SF chunkSize) as [sc|sc| |sc mc ec];
    cbn [SFcompare] in *; try discriminate Hp; try discriminate Hb;
    try reflexivity;
    repeat match goal with s : bool |- _ => destruct s end;
    try discriminate Hp; try discriminate Hb; reflexivity.
Qed.

Lemma valid_integers : 0 < integerOf overlap < integerOf chunkSize.
Proof.
  pose proof positiveSize as Hps.
  destruct (positive_integer overlap integerOverlap positive)
    as (m & e & _ & _ & Hz & _).
  split; [exact Hz|].
  apply Z.ltb_lt. rewrite <- integer_ltb by assumption. exact below.
Qed.

Lemma step_integers : forall st,
  0 <= Chunker.start st < Chunker.textLength text ->
  (2 ^ prec <= integerOf chunkSize -> Chunker.start st = 0) ->
  step text chunkSize overlap (inject st) =
  inject (Chunker.step text (integerOf chunkSize) (integerOf overlap) st).
Proof.
  intros [s acc] Hs Hbig. cbn [Chunker.start] in *.
  pose proof valid_integers as Hvalid. pose proof positiveSize as Hps.
  destruct (Z.lt_ge_cases (integerOf chunkSize) (2 ^ prec)) as [Hsmall|Hlarge].
  - rewrite (integer_small chunkSize) at 1 by assumption.
    rewrite (integer_small overlap) at 1 by (try assumption; lia).
    apply (ChunkerNumSpec.step_inject text _ _ Hvalid Hsmall safeLength).
    exact Hs.
  - specialize (Hbig Hlarge). subst s.
    destruct (integer_large chunkSize integerSize Hps Hlarge)
      as (m & e & E & Hn & He).
    unfold step, Chunker.step, inject, textLength.
    cbn [start chunks Chunker.start Chunker.chunks].
    fold (Chunker.textLength text).
    set (len := Chunker.textLength text) in *.
    assert (E0 : (ofInt 0 + chunkSize)%float = chunkSize).
    { apply Prim2SF_inj. rewrite add_spec, E. reflexivity. }
    rewrite E0, (mathMin_large chunkSize m e len) by (try assumption; lia).
    rewrite Z.min_r by lia.
    rewrite sliceNum_ofInt, ofInt_ltb, Z.ltb_irrefl by lia.
    reflexivity.
Qed.

(** The cursor at the head of every iteration is an integer. *)
Lemma reaches_integer : forall st,
  reaches text chunkSize overlap st ->
  exists zst,
    st = inject zst /\
    0 <= Chunker.start zst <= Chunker.textLength text /\
    (2 ^ prec <= integerOf chunkSize ->
     Chunker.start zst = 0 \/ Chunker.start zst = Chunker.textLength text).
Proof.
  pose proof valid_integers as Hvalid.
  induction 1 as [|st Hreach IH Hlt].
  - exists (Chunker.Loop 0 []). split; [reflexivity|]. cbn [Chunker.start].
    unfold Chunker.textLength. split; [lia|]. intros _. now left.
  - destruct IH as ([s acc] & -> & Hs & Hbig). cbn [Chunker.start] in *.
    cbn [inject start Chunker.start] in Hlt. unfold textLength in Hlt.
    fold (Chunker.textLength text) in Hlt.
    rewrite ofInt_ltb in Hlt by lia. apply Z.ltb_lt in Hlt.
    assert (Hbig0 : 2 ^ prec <= integerOf chunkSize -> s = 0).
    { intro H. destruct (Hbig H); lia. }
    exists (Chunker.step text (integerOf chunkSize) (integerOf overlap)
              (Chunker.Loop s acc)).
    split; [apply step_integers; cbn [Chunker.start]; [lia | exact Hbig0]|].
    destruct (step_cases text _ _ Hvalid (Chunker.Loop s acc)) as
      [(Hlt' & Hbp & Hcs & E)|[(Hlt' & Hbp & Ee & E)|(Ee & E)]];
      [cbn [Chunker.start]; lia| | |];
      rewrite E; cbn [Chunker.start] in *; unfold Chunker.cutEnd in *;
      (split; [lia|]); intro H; specialize (Hbig0 H); lia.
Qed.

Lemma loop_integers : forall fuel st,
  0 <= Chunker.start st <= Chunker.textLength text ->
  (2 ^ prec <= integerOf chunkSize ->
   Chunker.start st = 0 \/ Chunker.start st = Chunker.textLength text) ->
  loop text chunkSize overlap fuel (inject st) =
  Chunker.loop text (integerOf chunkSize) (integerOf overlap) fuel st.
Proof.
  pose proof valid_integers as Hvalid.
  induction fuel as [|fuel IH]; intros [s acc] Hs Hbig;
    cbn [Chunker.start] in *;
    cbn [loop Chunker.loop inject start chunks Chunker.start Chunker.chunks];
    unfold textLength; fold (Chunker.textLength text);
    rewrite ofInt_ltb by lia;
    destruct (s <? Chunker.textLength text) eqn:E; try reflexivity.
  apply Z.ltb_lt in E.
  assert (Hbig0 : 2 ^ prec <= integerOf chunkSize -> s = 0).
  { intro H. destruct (Hbig H); lia. }
  change (Loop (ofInt s) acc) with (inject (Chunker.Loop s acc)).
  rewrite step_integers by (cbn [Chunker.start]; first [lia | exact Hbig0]).
  apply IH;
    destruct (step_cases text _ _ Hvalid (Chunker.Loop s acc)) as
      [(Hlt' & Hbp & Hcs & E')|[(Hlt' & Hbp & Ee & E')|(Ee & E')]];
      try (cbn [Chunker.start]; lia);
      rewrite E'; cbn [Chunker.start] in *; unfold Chunker.cutEnd in *;
      try lia; intro H; specialize (Hbig0 H); lia.
Qed.

Lemma splitTextIntoChunks_integers : forall fuel,
  splitTextIntoChunks fuel text chunkSize overlap =
  Chunker.splitTextIntoChunks fuel text
    (integerOf chunkSize) (integerOf overlap).
Proof.
  intro fuel. unfold splitTextIntoChunks, Chunker.splitTextIntoChunks.
  change (Loop 0 []) with (inject (Chunker.Loop 0 [])).
  apply loop_integers; cbn [Chunker.start].
  - unfold Chunker.textLength. lia.
  - intros _. now left.
Qed.

End IntegerNumbers.


(** *** Fractional parameters *)

(** The cursor of the run with [chunkSize = 1] and
    [overlap = 0.9999999999999999]: after the first iteration it is
    [2^-53], and [2^-53 + 1] rounds to [1]. *)
Lemma step_stalls : forall acc,
  step (list_ascii_of_string "ab") 1 0x1.fffffffffffffp-1
       (Loop 0x1p-53 acc) =
  Loop 0x1p-53 (acc ++ [list_ascii_of_string "a"]).
Proof. intro acc. vm_compute. reflexivity. Qed.

Lemma loop_stalls : forall fuel acc,
  loop (list_ascii_of_string "ab") 1 0x1.fffffffffffffp-1 fuel
       (Loop 0x1p-53 acc) = None.
Proof.
  induction fuel as [|fuel IH]; intro acc.
  - reflexivity.
  - change (loop (list_ascii_of_string "ab") 1 0x1.fffffffffffffp-1 (S fuel)
              (Loop 0x1p-53 acc))
      with (loop (list_ascii_of_string "ab") 1 0x1.fffffffffffffp-1 fuel
              (step (list_ascii_of_string "ab") 1 0x1.fffffffffffffp-1
                 (Loop 0x1p-53 acc))).
    rewrite step_stalls. apply IH.
Qed.

(** *** Termination and coverage on integers *)

(** C4.  For numbers [chunkSize] and [overlap] that are integers with
    [0 < overlap < chunkSize], and a text of fewer than [2^53]
    characters, as every string is, the cursor at the head of every
    iteration of the loop is an integer, and the iteration moves it
    strictly forward: by [breakPoint + 1], which is more than half of
    [chunkSize], when it cuts at a boundary; by [chunkSize - overlap > 0]
    when it cuts with overlap; and to the end of the text on the last
    slice.  Hence the loop exits: with as many iterations allowed as the
    text has characters, [splitTextIntoChunks] returns. *)
Theorem splitTextIntoChunks_terminates : forall text chunkSize overlap,
  isInteger chunkSize = true -> isInteger overlap = true ->
  (0 <? overlap)%float = true -> (overlap <? chunkSize)%float = true ->
  Chunker.textLength text < 2 ^ 53 ->
  (forall st,
     reaches text chunkSize overlap st ->
     (start st <? textLength text)%float = true ->
     exists s next,
       start st = ofInt s /\
       start (step text chunkSize overlap st) = ofInt next /\
       (start st <? start (step text chunkSize overlap st))%float = true /\
       0 <= s /\ s < next <= Chunker.textLength text /\
       let size := integerOf chunkSize in
       let e := Chunker.cutEnd text size s in
       let bp := Chunker.breakPointAt text size s in
       (e < Chunker.textLength text -> size < 2 * bp ->
          next = s + (bp + 1) /\ size < 2 * (bp + 1)) /\
       (e < Chunker.textLength text -> 2 * bp <= size ->
          next = s + (size - integerOf overlap) /\
          0 < size - integerOf overlap) /\
       (e = Chunker.textLength text -> next = e)) /\
  (forall fuel,
     (List.length text <= fuel)%nat ->
     exists chunks,
       splitTextIntoChunks fuel text chunkSize overlap = Some chunks).
Proof.
  intros text chunkSize overlap Hsize Hoverlap Hpos Hbelow safeLength.
  change (2 ^ 53) with (2 ^ prec) in safeLength.
  pose proof (valid_integers chunkSize overlap Hsize Hoverlap Hpos Hbelow)
    as valid.
  split.
  - intros st Hreach Hlt.
    destruct (reaches_integer text chunkSize overlap Hsize Hoverlap Hpos
                Hbelow safeLength st Hreach)
      as ([s acc] & -> & Hs & Hbig).
    cbn [Chunker.start] in *. cbn [inject start Chunker.start] in Hlt.
    unfold textLength in Hlt. fold (Chunker.textLength text) in Hlt.
    rewrite ofInt_ltb in Hlt by lia. apply Z.ltb_lt in Hlt.
    assert (Hbig0 : 2 ^ prec <= integerOf chunkSize -> s = 0).
    { intro H. destruct (Hbig H); lia. }
    exists s,
      (Chunker.start
         (Chunker.step text (integerOf chunkSize) (integerOf overlap)
            (Chunker.Loop s acc))).
    rewrite (step_integers text chunkSize overlap Hsize Hoverlap Hpos Hbelow
               safeLength (Chunker.Loop s acc))
      by (cbn [Chunker.start]; first [lia | exact Hbig0]).
    cbn [inject start Chunker.start].
    split; [reflexivity|]. split; [reflexivity|].
    set (size := integerOf chunkSize) in *.
    set (e := Chunker.cutEnd text size s).
    set (bp := Chunker.breakPointAt text size s).
    assert (He : s < e <= Chunker.textLength text)
      by (unfold e, Chunker.cutEnd; lia).
    assert (Hnext :
      s < Chunker.start (Chunker.step text size (integerOf overlap)
                           (Chunker.Loop s acc))
        <= Chunker.textLength text /\
      (e < Chunker.textLength text -> size < 2 * bp ->
         Chunker.start (Chunker.step text size (integerOf overlap)
                          (Chunker.Loop s acc))
           = s + (bp + 1) /\ size < 2 * (bp + 1)) /\
      (e < Chunker.textLength text -> 2 * bp <= size ->
         Chunker.start (Chunker.step text size (integerOf overlap)
                          (Chunker.Loop s acc))
           = s + (size - integerOf overlap) /\
         0 < size - integerOf overlap) /\
      (e = Chunker.textLength text ->
         Chunker.start (Chunker.step text size (integerOf overlap)
                          (Chunker.Loop s acc))
           = e)).
    { destruct (step_cases text size (integerOf overlap) valid
                  (Chunker.Loop s acc)) as
        [(Hlt' & Hbp & Hcs & E)|[(Hlt' & Hbp & Ee & E)|(Ee & E)]];
        [cbn [Chunker.start]; lia| | |];
        rewrite E; cbn [Chunker.start] in *;
        subst e bp; unfold Chunker.cutEnd in *; repeat split; lia. }
    split; [rewrite ofInt_ltb by lia; apply Z.ltb_lt; lia|].
    split; [lia|]. split; [lia|]. cbv zeta. fold e bp. tauto.
  - intros fuel Hfuel.
    rewrite (splitTextIntoChunks_integers text chunkSize overlap Hsize
               Hoverlap Hpos Hbelow safeLength).
    unfold Chunker.splitTextIntoChunks.
    apply loop_terminates with (1 := valid); cbn [Chunker.start];
      unfold Chunker.textLength; lia.
Qed.

Lemma splitTextIntoChunks_terminates_witness :
  exists chunks,
    splitTextIntoChunks 70 Samples.sentences 20 5 = Some chunks.
Proof.
  destruct (splitTextIntoChunks_terminates Samples.sentences 20 5) as [_ H];
    try reflexivity.
  apply H. cbn. lia.
Defined.

(** C4 fails for numbers that are not integers: with [chunkSize = 1] and
    [overlap = 0.9999999999999999], which satisfy
    [0 < overlap < chunkSize], the cursor of a two-character text is
    [2^-53] after the first iteration and after every later one, and the
    loop exits for no number of iterations. *)
Lemma cursor_stalls_on_fractions :
  (0 <? 0x1.fffffffffffffp-1)%float = true /\
  (0x1.fffffffffffffp-1 <? 1)%float = true /\
  start (step (list_ascii_of_string "ab") 1 0x1.fffffffffffffp-1 (Loop 0 []))
    = 0x1p-53%float /\
  (forall acc,
     start (step (list_ascii_of_string "ab") 1 0x1.fffffffffffffp-1
              (Loop 0x1p-53 acc)) = 0x1p-53%float) /\
  (forall fuel,
     splitTextIntoChunks fuel (list_ascii_of_string "ab")
       1 0x1.fffffffffffffp-1 = None).
Proof.
  split; [reflexivity|]. split; [reflexivity|]. split; [reflexivity|].
  split.
  - intro acc. now rewrite step_stalls.
  - intros [|fuel]; [reflexivity|].
    unfold splitTextIntoChunks.
    change (loop (list_ascii_of_string "ab") 1 0x1.fffffffffffffp-1 (S fuel)
              (Loop 0 []))
      with (loop (list_ascii_of_string "ab") 1 0x1.fffffffffffffp-1 fuel
              (step (list_ascii_of_string "ab") 1 0x1.fffffffffffffp-1
                 (Loop 0 []))).
    replace (step (list_ascii_of_string "ab") 1 0x1.fffffffffffffp-1 (Loop 0 []))
      with (Loop 0x1p-53 [list_ascii_of_string "a"])
      by (vm_compute; reflexivity).
    apply loop_stalls.
Qed.

(** A chunk longer than [chunkSize]: with [chunkSize = 2.2] and
    [overlap = 0.3] the second slice is [slice(1.9, 4.1)], three
    characters. *)
Example fractional_chunkSize_exceeded :
  option_map (map string_of_list_ascii)
    (splitTextIntoChunks 100 (list_ascii_of_string "abcdefgh")
       0x1.199999999999ap+1 0x1.3333333333333p-2) =
  Some ["ab"; "bcd"; "def"; "fg"; "h"]%string.
Proof. reflexivity. Qed.

(** C3.  For numbers [chunkSize] and [overlap] that are integers with
    [0 < overlap < chunkSize], and a text of fewer than [2^53]
    characters, as every string is, the chunks of the text are the
    trimmed forms of slices of the text (a slice that is white space
    only leaving no chunk) such that the slices, each without the prefix
    it shares with the text before it, concatenate to the text, and no
    slice repeats more than [overlap] characters: nothing but white
    space at the ends of a slice is lost. *)
Theorem chunk_coverage : forall text chunkSize overlap,
  isInteger chunkSize = true -> isInteger overlap = true ->
  (0 <? overlap)%float = true -> (overlap <? chunkSize)%float = true ->
  Chunker.textLength text < 2 ^ 53 ->
  exists chunks pieces,
    splitTextIntoChunks (List.length text) text chunkSize overlap
      = Some chunks /\
    Forall (Chunker.isSliceOf text) pieces /\
    Chunker.reassemble 0 pieces = text /\
    Chunker.overlapsWithin (integerOf overlap) 0 pieces /\
    Chunker.keeps (map snd pieces) chunks.
Proof.
  intros text chunkSize overlap Hsize Hoverlap Hpos Hbelow safeLength.
  change (2 ^ 53) with (2 ^ prec) in safeLength.
  pose proof (valid_integers chunkSize overlap Hsize Hoverlap Hpos Hbelow)
    as valid.
  rewrite (splitTextIntoChunks_integers text chunkSize overlap Hsize
             Hoverlap Hpos Hbelow safeLength).
  destruct (loop_covers text (integerOf chunkSize) (integerOf overlap) valid
              (List.length text) 0 0 [])
    as (out & pieces & E & Hsl & Hre & Hol & Hk); try lia.
  - unfold Chunker.textLength. lia.
  - unfold Chunker.textLength. lia.
  - exists out, pieces. repeat split; assumption.
Qed.

Lemma chunk_coverage_witness :
  exists chunks pieces,
    splitTextIntoChunks (List.length Samples.sentences) Samples.sentences
      20 5 = Some chunks /\
    Forall (Chunker.isSliceOf Samples.sentences) pieces /\
    Chunker.reassemble 0 pieces = Samples.sentences /\
    Chunker.overlapsWithin 5 0 pieces /\
    Chunker.keeps (map snd pieces) chunks.
Proof.
  apply (chunk_coverage Samples.sentences 20 5); reflexivity.
Defined.

(** C3 fails for numbers that are not integers: with [chunkSize = 1.5]
    and [overlap = 0.5000000000000001], which satisfy
    [0 < overlap < chunkSize], the slices of the text made of two line
    feeds, [X] and two line feeds are taken at the cursors [0], [1] and
    [3.5], none of them holds the [X] at index 2, and no chunk is
    returned: no sequence of pieces that leaves no chunk concatenates to
    the text. *)
Lemma fractional_parameters_lose_text :
  let text := [newline; newline; "X"%char; newline; newline] in
  (0 <? 0x1.0000000000001p-1)%float = true /\
  (0x1.0000000000001p-1 <? 1.5)%float = true /\
  splitTextIntoChunks (List.length text) text 1.5 0x1.0000000000001p-1
    = Some [] /\
  ~ (exists pieces,
       Chunker.reassemble 0 pieces = text /\
       Chunker.keeps (map snd pieces) []).
Proof.
  cbv zeta. split; [reflexivity|]. split; [reflexivity|].
  split; [reflexivity|].
  intros (pieces & Hre & Hk).
  apply keeps_nil_whitespace in Hk.
  pose proof (reassemble_whitespace pieces 0 Hk) as Hws.
  rewrite Hre in Hws.
  inversion Hws as [|? ? _ H1]; subst.
  inversion H1 as [|? ? _ H2]; subst.
  inversion H2 as [|? ? HX _]; subst.
  discriminate HX.
Qed.

End ChunkerNumSpec.

(** * Part II, continued: further properties *)

(** ** The chunker: sizes, short texts, empty results *)

Module ChunkerMore.

Import Js JsFacts Chunker ChunkerSpec.
Local Open Scope Z_scope.

Lemma loop_more_fuel : forall text chunkSize overlap fuel extra st result,
  loop text chunkSize overlap fuel st = Some result ->
  loop text chunkSize overlap (fuel + extra) st = Some result.
Proof.
  intros text chunkSize overlap. induction fuel as [|fuel IH];
    intros extra st result E; cbn [loop] in E.
  - destruct (start st <? textLength text) eqn:Es; [discriminate E|].
    destruct (0 + extra)%nat; cbn [loop]; now rewrite Es.
  - cbn [Nat.add loop]. destruct (start st <? textLength text); [|exact E].
    now apply IH.
Qed.

Lemma trimmedOf_length : forall raw chunk,
  trimmedOf raw chunk -> (List.length chunk <= List.length raw)%nat.
Proof.
  intros raw chunk (l & r & -> & _ & _). rewrite !length_app. lia.
Qed.

Lemma no_chunk_whitespace : forall fuel text chunkSize overlap,
  0 < overlap < chunkSize ->
  splitTextIntoChunks fuel text chunkSize overlap = Some [] ->
  allWhiteSpace text.
Proof.
  intros fuel text chunkSize overlap valid E.
  destruct (loop_covers text chunkSize overlap valid
              (fuel + List.length text) 0 0 [])
    as (out & pieces & El & _ & Hre & _ & Hk);
    try (unfold textLength; lia).
  unfold splitTextIntoChunks in E.
  apply (loop_more_fuel _ _ _ _ (List.length text)) in E.
  rewrite E in El. cbn [app] in El. inversion El; subst out.
  cbn [Z.to_nat skipn] in Hre. rewrite <- Hre.
  apply reassemble_whitespace. now apply keeps_nil_whitespace.
Qed.

(** On numbers [chunkSize] and [overlap] that are integers with
    [0 < overlap < chunkSize], and a text of fewer than [2^53]
    characters, the loop on numbers returns what the loop on integers
    returns for the integers they are, and exits when it does; the
    defaults [1000] and [200] are such numbers. *)
Theorem integer_parameters_run_exactly :
  forall fuel text chunkSize overlap,
  ChunkerNum.isInteger chunkSize = true ->
  ChunkerNum.isInteger overlap = true ->
  (0 <? overlap)%float = true -> (overlap <? chunkSize)%float = true ->
  textLength text < 2 ^ 53 ->
  ChunkerNum.splitTextIntoChunks fuel text chunkSize overlap =
  splitTextIntoChunks fuel text
    (ChunkerNum.integerOf chunkSize) (ChunkerNum.integerOf overlap) /\
  0 < ChunkerNum.integerOf overlap < ChunkerNum.integerOf chunkSize /\
  ChunkerNum.integerOf 1000 = defaultChunkSize /\
  ChunkerNum.integerOf 200 = defaultOverlap.
Proof.
  intros fuel text chunkSize overlap Hsize Hoverlap Hpos Hbelow safeLength.
  split; [|split; [|split; reflexivity]].
  - exact (ChunkerNumSpec.splitTextIntoChunks_integers
             text chunkSize overlap Hsize Hoverlap Hpos Hbelow safeLength fuel).
  - exact (ChunkerNumSpec.valid_integers
             chunkSize overlap Hsize Hoverlap Hpos Hbelow).
Qed.

Lemma integer_parameters_run_exactly_witness :
  ChunkerNum.splitTextIntoChunks 100 Samples.sentences 1000 200 =
  splitTextIntoChunks 100 Samples.sentences 1000 200 /\
  0 < 200 < 1000 /\
  ChunkerNum.integerOf 1000 = defaultChunkSize /\
  ChunkerNum.integerOf 200 = defaultOverlap.
Proof.
  apply (integer_parameters_run_exactly 100 Samples.sentences 1000 200);
    reflexivity.
Defined.

(** For numbers [chunkSize] and [overlap] that are integers with
    [0 < overlap < chunkSize], and a text of fewer than [2^53]
    characters, when [splitTextIntoChunks] returns, the chunk sequence
    is empty exactly when the text is white space only: a text with one
    visible character always yields a chunk. *)
Theorem chunks_empty_iff_whitespace :
  forall fuel text chunkSize overlap chunks,
  ChunkerNum.isInteger chunkSize = true ->
  ChunkerNum.isInteger overlap = true ->
  (0 <? overlap)%float = true -> (overlap <? chunkSize)%float = true ->
  textLength text < 2 ^ 53 ->
  ChunkerNum.splitTextIntoChunks fuel text chunkSize overlap = Some chunks ->
  (chunks = [] <-> allWhiteSpace text).
Proof.
  intros fuel text chunkSize overlap chunks Hsize Hoverlap Hpos Hbelow
    safeLength E.
  rewrite (ChunkerNumSpec.splitTextIntoChunks_integers
             text chunkSize overlap Hsize Hoverlap Hpos Hbelow safeLength) in E.
  pose proof (ChunkerNumSpec.valid_integers
                chunkSize overlap Hsize Hoverlap Hpos Hbelow) as valid.
  split.
  - intros ->. now apply (no_chunk_whitespace fuel text _ _ valid).
  - intro Hws. unfold splitTextIntoChunks in E.
    eapply loop_whitespace; [exact Hws| |exact E]. reflexivity.
Qed.

Lemma chunks_empty_iff_whitespace_witness :
  (map list_ascii_of_string
     ["Hello world."; "This is a test of t"; "of the chunker.";
      "It has  several sen"; "l sentences."]%string = [] <->
   allWhiteSpace Samples.sentences) /\
  (([] : list jsstring) = [] <->
   allWhiteSpace (list_ascii_of_string "   ")).
Proof.
  split.
  - apply (chunks_empty_iff_whitespace 100 Samples.sentences 20 5);
      reflexivity.
  - apply (chunks_empty_iff_whitespace 10 (list_ascii_of_string "   ") 10 3);
      reflexivity.
Defined.

Lemma trim_length : forall s : jsstring,
  (List.length (trim s) <= List.length s)%nat.
Proof. intro s. apply trimmedOf_length, trim_trimmedOf. Qed.

Lemma pushTrimmed_bounded : forall (bound : Z) acc raw,
  Z.of_nat (List.length raw) <= bound ->
  Forall (fun c => Z.of_nat (List.length c) <= bound) acc ->
  Forall (fun c => Z.of_nat (List.length c) <= bound) (pushTrimmed acc raw).
Proof.
  intros bound acc raw Hraw Hacc. unfold pushTrimmed.
  destruct (0 <? Z.of_nat (List.length (trim raw))); [|exact Hacc].
  apply Forall_app. split; [exact Hacc|].
  constructor; [|constructor]. pose proof (trim_length raw). lia.
Qed.

Lemma step_bounded : forall text chunkSize overlap st,
  0 < overlap < chunkSize ->
  0 <= start st < textLength text ->
  Forall (fun c => Z.of_nat (List.length c) <= chunkSize) (chunks st) ->
  0 <= start (step text chunkSize overlap st) /\
  Forall (fun c => Z.of_nat (List.length c) <= chunkSize)
         (chunks (step text chunkSize overlap st)).
Proof.
  intros text chunkSize overlap st valid Hs Hacc.
  destruct (step_cases text chunkSize overlap valid st Hs) as
    [(Hlt & Hbp & Hcs & E)|[(Hlt & Hbp & Ee & E)|(Ee & E)]];
    rewrite E; cbn [start chunks]; unfold cutEnd, textLength in *;
    (split; [lia|]); apply pushTrimmed_bounded; try exact Hacc;
    rewrite slice_length; lia.
Qed.

Lemma loop_bounded : forall text chunkSize overlap fuel st result,
  0 < overlap < chunkSize ->
  0 <= start st ->
  Forall (fun c => Z.of_nat (List.length c) <= chunkSize) (chunks st) ->
  loop text chunkSize overlap fuel st = Some result ->
  Forall (fun c => Z.of_nat (List.length c) <= chunkSize) result.
Proof.
  intros text chunkSize overlap fuel st result valid. revert st.
  induction fuel as [|fuel IH]; intros st Hs Hacc E; cbn [loop] in E;
    destruct (start st <? textLength text) eqn:Es; try discriminate E.
  - now inversion E; subst.
  - apply Z.ltb_lt in Es.
    destruct (step_bounded text chunkSize overlap st valid) as [Hs' Hacc'];
      [lia | exact Hacc |].
    now apply (IH (step text chunkSize overlap st)).
  - now inversion E; subst.
Qed.

(** For numbers [chunkSize] and [overlap] that are integers with
    [0 < overlap < chunkSize], and a text of fewer than [2^53]
    characters, no chunk that [splitTextIntoChunks] returns is longer
    than [chunkSize]. *)
Theorem chunks_within_chunkSize :
  forall fuel text chunkSize overlap chunks,
  ChunkerNum.isInteger chunkSize = true ->
  ChunkerNum.isInteger overlap = true ->
  (0 <? overlap)%float = true -> (overlap <? chunkSize)%float = true ->
  textLength text < 2 ^ 53 ->
  ChunkerNum.splitTextIntoChunks fuel text chunkSize overlap = Some chunks ->
  Forall (fun c => Z.of_nat (List.length c) <= ChunkerNum.integerOf chunkSize)
         chunks.
Proof.
  intros fuel text chunkSize overlap result Hsize Hoverlap Hpos Hbelow
    safeLength E.
  rewrite (ChunkerNumSpec.splitTextIntoChunks_integers
             text chunkSize overlap Hsize Hoverlap Hpos Hbelow safeLength) in E.
  pose proof (ChunkerNumSpec.valid_integers
                chunkSize overlap Hsize Hoverlap Hpos Hbelow) as valid.
  unfold splitTextIntoChunks in E.
  eapply loop_bounded; [exact valid| | |exact E]; cbn [start chunks];
    [lia | constructor].
Qed.

Lemma chunks_within_chunkSize_witness :
  Forall (fun c => Z.of_nat (List.length c) <= 20)
    (map list_ascii_of_string
       ["Hello world."; "This is a test of t"; "of the chunker.";
        "It has  several sen"; "l sentences."]%string).
Proof.
  apply (chunks_within_chunkSize 100 Samples.sentences 20 5);
    reflexivity.
Defined.

(** A non-empty text no longer than [chunkSize] comes back as one chunk,
    its trimmed form, or as no chunk when it is white space only; the
    overlap plays no part. *)
Theorem short_text_single_chunk : forall fuel text chunkSize overlap,
  (0 < fuel)%nat ->
  0 < Z.of_nat (List.length text) <= chunkSize ->
  splitTextIntoChunks fuel text chunkSize overlap =
  Some (match trim text with
        | [] => []
        | _ :: _ => [trim text]
        end).
Proof.
  intros fuel text chunkSize overlap Hfuel Hlen.
  destruct fuel as [|fuel]; [lia|].
  unfold splitTextIntoChunks. cbn [loop start].
  assert (E0 : (0 <? textLength text) = true)
    by (apply Z.ltb_lt; unfold textLength; lia).
  rewrite E0. unfold step. cbn [start chunks].
  assert (Eend : Z.min (0 + chunkSize) (textLength text) = textLength text)
    by (unfold textLength; lia).
  rewrite Eend, Z.ltb_irrefl.
  assert (Eslice : slice text 0 (textLength text) = text).
  { unfold textLength. rewrite slice_range by lia.
    cbn [Z.to_nat skipn]. rewrite Z.sub_0_r, Nat2Z.id. apply firstn_all. }
  rewrite Eslice.
  assert (Eloop : forall acc,
            loop text chunkSize overlap fuel (Loop (textLength text) acc) = Some acc).
  { intro acc. destruct fuel; cbn [loop start chunks];
      now rewrite Z.ltb_irrefl. }
  rewrite Eloop. unfold pushTrimmed.
  destruct (trim text) as [|c t]; reflexivity.
Qed.

Lemma short_text_single_chunk_witness :
  splitTextIntoChunks 1 (list_ascii_of_string " Opening hours: 9-17 ") 1000 200 =
  Some [list_ascii_of_string "Opening hours: 9-17"].
Proof.
  apply (short_text_single_chunk 1 (list_ascii_of_string " Opening hours: 9-17 ")
           1000 200).
  - lia.
  - cbn. lia.
Defined.

End ChunkerMore.

(** ** The vector store: insertion and listing *)

Module StoreMore.

Import Js JsFacts Store StoreSpec Inserted.

Lemma addLoop_prefix : forall chunks db uuidv4 n userId ids,
  let new := rowsFor uuidv4 n chunks userId in
  let run := addLoop db uuidv4 n chunks userId ids in
  exists k,
    (k <= List.length new)%nat /\
    rows (snd run) = rows db ++ firstn k new /\
    Forall (fun r => insertError db r = None) (firstn k new) /\
    sameService db (snd run) /\
    ((k = List.length new /\ fst run = Returned (ids ++ map id new)) \/
     (exists r message,
        nth_error new k = Some r /\ insertError db r = Some message /\
        fst run =
        Threw (ErrorObject ("Failed to insert document chunk: " ++ message)))).
Proof.
  induction chunks as [|chunk rest IH]; intros db uuidv4 n userId ids;
    cbn zeta; cbn [rowsFor addLoop].
  - exists 0%nat. cbn [firstn List.length map fst snd].
    rewrite !app_nil_r.
    split; [lia|]. split; [reflexivity|]. split; [constructor|].
    split; [repeat split|]. left. now split.
  - fold (rowFor (uuidv4 n) chunk userId). unfold insert.
    destruct (insertError db (rowFor (uuidv4 n) chunk userId))
      as [message|] eqn:E; cbn [error fail succeed fst snd].
    + exists 0%nat. cbn [firstn]. rewrite app_nil_r.
      split; [cbn [List.length]; lia|]. split; [reflexivity|].
      split; [constructor|]. split; [repeat split|].
      right. exists (rowFor (uuidv4 n) chunk userId), message.
      repeat split; assumption.
    + match goal with
      | |- context [addLoop ?d uuidv4 (S n) rest userId ?i] =>
          destruct (IH d uuidv4 (S n) userId i)
            as (k & Hk & Hrows & Hok & Hsame & Hres)
      end.
      cbn [rows insertError] in Hrows, Hok, Hres.
      exists (S k). cbn [firstn List.length map].
      split; [lia|]. split; [now rewrite Hrows, <- app_assoc|].
      split; [constructor; assumption|]. split; [exact Hsame|].
      destruct Hres as [[Ek Eres]|(r & message & Enth & Eerr & Eres)].
      * left. split; [lia|]. rewrite Eres, <- app_assoc. reflexivity.
      * right. exists r, message. repeat split; assumption.
Qed.

(** [addDocuments] stores the chunks in order, each under a fresh
    identifier and the given owner, up to the first row the store
    refuses.  When no row is refused it returns the identifiers in the
    order of the chunks; otherwise it throws the message of the store
    and the rows inserted before stay stored: there is no rollback. *)
Theorem addDocuments_stores_a_prefix : forall db uuidv4 chunks userId,
  let new := rowsFor uuidv4 0 chunks userId in
  let run := addDocuments db uuidv4 chunks userId in
  exists k,
    (k <= List.length new)%nat /\
    rows (snd run) = rows db ++ firstn k new /\
    Forall (fun r => insertError db r = None) (firstn k new) /\
    ((k = List.length new /\ fst run = Returned (map id new)) \/
     (exists r message,
        nth_error new k = Some r /\ insertError db r = Some message /\
        fst run =
        Threw (ErrorObject ("Failed to insert document chunk: " ++ message)))).
Proof.
  intros db uuidv4 chunks userId new run.
  destruct (addLoop_prefix chunks db uuidv4 0 userId [])
    as (k & Hk & Hrows & Hok & _ & Hres).
  exists k. repeat split; assumption.
Qed.

Lemma rowsFor_length : forall uuidv4 chunks n userId,
  List.length (rowsFor uuidv4 n chunks userId) = List.length chunks.
Proof.
  intros uuidv4 chunks. induction chunks as [|c rest IH]; intros n userId;
    cbn [rowsFor List.length]; [reflexivity | now rewrite IH].
Qed.

Lemma rowsFor_owner : forall uuidv4 chunks n userId,
  Forall (fun r => user_id r = userId) (rowsFor uuidv4 n chunks userId).
Proof.
  intros uuidv4 chunks. induction chunks as [|c rest IH]; intros n userId;
    cbn [rowsFor]; constructor; [reflexivity | apply IH].
Qed.

Lemma rowsFor_nth : forall uuidv4 chunks n userId i chunk,
  nth_error chunks i = Some chunk ->
  nth_error (rowsFor uuidv4 n chunks userId) i =
  Some (rowFor (uuidv4 (n + i)%nat) chunk userId).
Proof.
  intros uuidv4 chunks. induction chunks as [|c rest IH];
    intros n userId [|i] chunk E; cbn [nth_error rowsFor] in *; try discriminate.
  - inversion E; subst. now rewrite Nat.add_0_r.
  - rewrite (IH (S n) userId i chunk E). now rewrite Nat.add_succ_r.
Qed.

Lemma toChunk_rowFor : forall id chunk userId,
  toChunk (rowFor id chunk userId) = stored id chunk.
Proof.
  intros id [text embedding [f c t]] userId. reflexivity.
Qed.

Lemma eq_user_id_all : forall userId l,
  Forall (fun r => user_id r = userId) l -> eq_user_id userId l = l.
Proof.
  intros userId l H. unfold eq_user_id.
  induction H as [|r l Hr _ IH]; cbn [filter]; [reflexivity|].
  rewrite Hr, String.eqb_refl. now rewrite IH.
Qed.

(** Insert, then look up: when [addDocuments] returns, it has returned
    one identifier per chunk; the owner's count has grown by the number
    of chunks; and [getAllDocuments] lists every chunk under its
    identifier with the text, embedding and metadata it was given. *)
Theorem added_chunks_are_listed : forall db uuidv4 chunks userId ids,
  fst (addDocuments db uuidv4 chunks userId) = Returned ids ->
  let db' := snd (addDocuments db uuidv4 chunks userId) in
  List.length ids = List.length chunks /\
  (countError db = None ->
     exists before,
       getCount db userId = Returned before /\
       getCount db' userId =
       Returned (before + Z.of_nat (List.length chunks))%Z) /\
  (selectError db = None ->
     exists found,
       getAllDocuments db' userId = Returned found /\
       forall i chunk,
         nth_error chunks i = Some chunk ->
         nth_error ids i = Some (uuidv4 i) /\
         In (stored (uuidv4 i) chunk) found).
Proof.
  intros db uuidv4 chunks userId ids E db'.
  destruct (addLoop_prefix chunks db uuidv4 0 userId [])
    as (k & Hk & Hrows & Hok & (Hrpc & Hsel & Hcnt) & Hres).
  fold (addDocuments db uuidv4 chunks userId) in Hrows, Hres, Hrpc, Hsel, Hcnt.
  fold db' in Hrows, Hrpc, Hsel, Hcnt.
  destruct Hres as [[Ek Eres]|(r & message & _ & _ & Eres)];
    [|rewrite Eres in E; discriminate E].
  rewrite Eres in E. cbn [app] in E. inversion E; subst ids; clear E.
  rewrite Ek, firstn_all in Hrows.
  split; [now rewrite length_map, rowsFor_length|]. split.
  - intro Hc. exists (Z.of_nat (List.length (eq_user_id userId (rows db)))).
    unfold getCount, selectCount. rewrite Hcnt, Hc, Hrows.
    cbn [error data succeed orZero]. split; [reflexivity|].
    unfold eq_user_id at 1. rewrite filter_app. fold (eq_user_id userId (rows db)).
    fold (eq_user_id userId (rowsFor uuidv4 0 chunks userId)).
    rewrite (eq_user_id_all userId (rowsFor uuidv4 0 chunks userId))
      by apply rowsFor_owner.
    rewrite length_app, rowsFor_length. f_equal. lia.
  - intro Hs. unfold getAllDocuments, select. rewrite Hsel, Hs.
    cbn [error data succeed orEmpty]. eexists. split; [reflexivity|].
    intros i chunk Ei.
    pose proof (rowsFor_nth uuidv4 chunks 0 userId i chunk Ei) as Hnth.
    cbn [Nat.add] in Hnth. split.
    + rewrite nth_error_map, Hnth. reflexivity.
    + rewrite <- (toChunk_rowFor (uuidv4 i) chunk userId). apply in_map.
      unfold order_created_at_desc. apply sortBy_In. apply eq_user_id_In.
      split; [|reflexivity]. rewrite Hrows. apply in_or_app. right.
      eapply nth_error_In; exact Hnth.
Qed.

Lemma added_chunks_are_listed_witness :
  List.length ["id-0"%string] = List.length [Samples.newChunk].
Proof.
  destruct (added_chunks_are_listed (Samples.withRpc [Samples.r1]) Samples.uuids
              [Samples.newChunk] "u" ["id-0"%string] eq_refl) as [H _].
  exact H.
Defined.

(** When the selection succeeds, [getAllDocuments] lists exactly the
    rows of the owner, each once, the newest first. *)
Theorem getAllDocuments_newest_first : forall db userId,
  selectError db = None ->
  exists listed,
    getAllDocuments db userId = Returned (map toChunk listed) /\
    Permutation listed (eq_user_id userId (rows db)) /\
    StronglySorted (fun a b => (created_at b <= created_at a)%Z) listed.
Proof.
  intros db userId Hs. unfold getAllDocuments, select. rewrite Hs.
  cbn [error data succeed orEmpty]. eexists. split; [reflexivity|]. split.
  - unfold order_created_at_desc. apply sortBy_perm.
  - unfold order_created_at_desc.
    apply (sortBy_sorted _ _ (fun _ => True)).
    + intros x y z Hxy Hyz. lia.
    + intros x y _ _ H. apply Z.ltb_lt in H. lia.
    + intros x y _ _ H. apply Z.ltb_ge in H. lia.
    + apply Forall_forall. intros; exact I.
Qed.

Lemma getAllDocuments_newest_first_witness :
  exists listed,
    getAllDocuments (Samples.withRpc [Samples.r1; Samples.r3]) "u" =
    Returned (map toChunk listed) /\
    Permutation listed (eq_user_id "u" (rows (Samples.withRpc [Samples.r1; Samples.r3]))) /\
    StronglySorted (fun a b => (created_at b <= created_at a)%Z) listed.
Proof.
  apply (getAllDocuments_newest_first (Samples.withRpc [Samples.r1; Samples.r3]) "u").
  reflexivity.
Defined.

End StoreMore.

(** ** Ranking by a similarity, for any kind of scored item *)

Module RankingFacts.

Import Js JsFacts.

Section Ranked.

Context {A : Type}.
Variable sim : A -> float.

Lemma sort_ranked : forall items : list A,
  Forall (fun item => Num.isFinite (sim item) = true) items ->
  StronglySorted (fun a b => (sim b <=? sim a)%float = true)
    (sort (fun a b => (sim b - sim a)%float) items).
Proof.
  intros items Hfin. unfold sort.
  rewrite (sortBy_ext _ _ (fun a b => (sim b <? sim a)%float)).
  - apply (sortBy_sorted _ _ (fun item => Num.is_nan (sim item) = false)).
    + intros x y z Hxy Hyz. eapply FloatOrder.leb_trans; eassumption.
    + intros x y _ _ H. now apply FloatOrder.ltb_true_leb.
    + intros x y Hx Hy H. now apply FloatOrder.ltb_false_leb.
    + eapply Forall_impl; [|exact Hfin].
      intros item H. now apply FloatSub.isFinite_not_nan.
  - intros x y Hx Hy. rewrite Forall_forall in Hfin.
    apply FloatSub.sub_ltb_zero; now apply Hfin.
Qed.

End Ranked.

(** Sorting, slicing and filtering commute with a mapping. *)
Lemma insertBy_map : forall (A B : Type) (f : A -> B)
  (before : B -> B -> bool) (x : A) (l : list A),
  insertBy before (f x) (map f l) =
  map f (insertBy (fun a b => before (f a) (f b)) x l).
Proof.
  intros A B f before x. induction l as [|y l IH]; cbn [map insertBy].
  - reflexivity.
  - destruct (before (f y) (f x)); cbn [map]; [now rewrite IH | reflexivity].
Qed.

Lemma sortBy_map : forall (A B : Type) (f : A -> B)
  (before : B -> B -> bool) (l : list A),
  sortBy before (map f l) =
  map f (sortBy (fun a b => before (f a) (f b)) l).
Proof.
  intros A B f before. induction l as [|x l IH];
    cbn [map sortBy fold_right]; [reflexivity|].
  fold (sortBy before (map f l)).
  fold (sortBy (fun a b => before (f a) (f b)) l).
  rewrite IH. apply insertBy_map.
Qed.

Lemma slice_map : forall (A B : Type) (f : A -> B) (l : list A) (a b : Z),
  slice (map f l) a b = map f (slice l a b).
Proof.
  intros A B f l a b. unfold slice.
  now rewrite length_map, skipn_map, firstn_map.
Qed.

Lemma filter_map_commute : forall (A B : Type) (f : A -> B) (p : B -> bool)
  (l : list A),
  filter p (map f l) = map f (filter (fun a => p (f a)) l).
Proof.
  intros A B f p. induction l as [|x l IH]; cbn [map filter]; [reflexivity|].
  destruct (p (f x)); cbn [map]; now rewrite IH.
Qed.

End RankingFacts.

(** ** The in-memory vector store *)

Module MemoryStoreSpec.

Import Js JsFacts RankingFacts Similarity MemoryStore.

(** The contract of the in-memory [search]: for a non-negative [topK]
    and documents whose similarities to the query are finite, it returns
    at most [topK] of the stored documents, ranked by descending
    similarity, each strictly above [0.5]. *)
Theorem memory_search_contract : forall documents queryEmbedding topK,
  (0 <= topK)%Z ->
  Forall (fun doc =>
            Num.isFinite
              (cosineSimilarity queryEmbedding (Store.doc_embedding doc)) = true)
         documents ->
  (Z.of_nat (List.length (search documents queryEmbedding topK)) <= topK)%Z /\
  incl (search documents queryEmbedding topK) documents /\
  Store.descending queryEmbedding (search documents queryEmbedding topK) /\
  Store.aboveThreshold queryEmbedding (search documents queryEmbedding topK).
Proof.
  intros documents q k Hk Hfin. unfold search.
  set (items := map (fun doc =>
                       Scored doc (cosineSimilarity q (Store.doc_embedding doc)))
                    documents).
  assert (Hitems : Forall (fun item =>
            similarity item = cosineSimilarity q (Store.doc_embedding (document item)) /\
            Num.isFinite (similarity item) = true /\
            In (document item) documents) items).
  { apply Forall_forall. intros item Hitem. apply in_map_iff in Hitem.
    destruct Hitem as (doc & <- & Hdoc). cbn [similarity document].
    rewrite Forall_forall in Hfin. repeat split; auto. }
  set (sorted := sort (fun a b => (similarity b - similarity a)%float) items).
  assert (Hsorted : Forall (fun item =>
            similarity item = cosineSimilarity q (Store.doc_embedding (document item)) /\
            Num.isFinite (similarity item) = true /\
            In (document item) documents) sorted).
  { apply Forall_forall. intros item Hitem. unfold sorted, sort in Hitem.
    apply sortBy_In in Hitem. rewrite Forall_forall in Hitems. now apply Hitems. }
  assert (Hranked : StronglySorted
            (fun a b => (similarity b <=? similarity a)%float = true) sorted).
  { apply sort_ranked. eapply Forall_impl; [|exact Hitems].
    intros item (_ & H & _). exact H. }
  rewrite slice_prefix by assumption.
  set (kept := filter (fun item => (0.5 <? similarity item)%float)
                      (firstn (Z.to_nat k) sorted)).
  assert (Hkept : Forall (fun item =>
            similarity item = cosineSimilarity q (Store.doc_embedding (document item)) /\
            (0.5 <? similarity item)%float = true /\
            In (document item) documents) kept).
  { apply Forall_forall. intros item Hitem. unfold kept in Hitem.
    apply filter_In in Hitem. destruct Hitem as [Hitem Hthr].
    apply firstn_incl in Hitem. rewrite Forall_forall in Hsorted.
    destruct (Hsorted item Hitem) as (E & _ & Hin). repeat split; assumption. }
  rewrite Forall_forall in Hkept.
  split; [|split; [|split]].
  - rewrite length_map.
    pose proof (StoreSpec.filter_length_le _
                  (fun item => (0.5 <? similarity item)%float)
                  (firstn (Z.to_nat k) sorted)) as H1.
    pose proof (firstn_le_length (Z.to_nat k) sorted) as H2.
    fold kept in H1. lia.
  - intros doc Hdoc. apply in_map_iff in Hdoc.
    destruct Hdoc as (item & <- & Hitem). now apply Hkept.
  - unfold Store.descending. apply StronglySorted_map.
    apply (StoreSpec.StronglySorted_weaken _
             (fun a b => (similarity b <=? similarity a)%float = true) _
             (fun item => similarity item =
                          cosineSimilarity q (Store.doc_embedding (document item)))
             kept).
    + apply Forall_forall. intros item Hitem. now apply Hkept.
    + intros a b Ea Eb H. unfold Store.similarityTo. now rewrite <- Ea, <- Eb.
    + unfold kept. apply StronglySorted_filter, StronglySorted_firstn.
      exact Hranked.
  - unfold Store.aboveThreshold. apply Forall_forall. intros doc Hdoc.
    apply in_map_iff in Hdoc. destruct Hdoc as (item & <- & Hitem).
    destruct (Hkept item Hitem) as (E & H & _).
    unfold Store.similarityTo. now rewrite <- E.
Qed.

Lemma memory_search_contract_witness :
  (Z.of_nat (List.length
     (search [Store.toChunk Samples.r1; Store.toChunk Samples.r3]
             [1%float; 0%float] 1)) <= 1)%Z.
Proof.
  destruct (memory_search_contract
              [Store.toChunk Samples.r1; Store.toChunk Samples.r3]
              [1%float; 0%float] 1) as [H _].
  - lia.
  - repeat constructor.
  - exact H.
Defined.

Lemma addLoop_pushed : forall chunks documents uuidv4 n ids,
  addLoop documents uuidv4 n chunks ids =
  (ids ++ map Store.doc_id (pushed uuidv4 n chunks),
   documents ++ pushed uuidv4 n chunks).
Proof.
  induction chunks as [|chunk rest IH]; intros documents uuidv4 n ids;
    cbn [addLoop pushed map].
  - now rewrite !app_nil_r.
  - rewrite IH, <- !app_assoc. reflexivity.
Qed.

Lemma pushed_nth : forall uuidv4 chunks n i chunk,
  nth_error chunks i = Some chunk ->
  nth_error (pushed uuidv4 n chunks) i =
  Some (Inserted.stored (uuidv4 (n + i)%nat) chunk).
Proof.
  intros uuidv4 chunks. induction chunks as [|c rest IH];
    intros n [|i] chunk E; cbn [nth_error pushed] in *; try discriminate.
  - inversion E; subst. now rewrite Nat.add_0_r.
  - rewrite (IH (S n) i chunk E). now rewrite Nat.add_succ_r.
Qed.

Lemma pushed_length : forall uuidv4 chunks n,
  List.length (pushed uuidv4 n chunks) = List.length chunks.
Proof.
  intros uuidv4 chunks. induction chunks as [|c rest IH]; intro n;
    cbn [pushed List.length]; [reflexivity | now rewrite IH].
Qed.

(** Insert, then look up, in memory: after [addDocuments] the store
    lists the documents it had, followed by the new chunks in order;
    the identifier returned at a position is the one of the chunk stored
    for that position, with its text, embedding and metadata; and the
    count has grown by the number of chunks. *)
Theorem memory_added_chunks_are_listed : forall documents uuidv4 chunks,
  let ids := fst (addDocuments documents uuidv4 chunks) in
  let documents' := snd (addDocuments documents uuidv4 chunks) in
  List.length ids = List.length chunks /\
  firstn (List.length documents) (getAllDocuments documents') = documents /\
  getCount documents' = (getCount documents + Z.of_nat (List.length chunks))%Z /\
  forall i chunk,
    nth_error chunks i = Some chunk ->
    nth_error ids i = Some (uuidv4 i) /\
    nth_error (getAllDocuments documents') (List.length documents + i) =
    Some (Inserted.stored (uuidv4 i) chunk).
Proof.
  intros documents uuidv4 chunks. unfold addDocuments.
  rewrite addLoop_pushed. cbn [fst snd app]. unfold getAllDocuments, getCount.
  split; [now rewrite length_map, pushed_length|].
  split; [now rewrite firstn_app, Nat.sub_diag, firstn_all, app_nil_r|].
  split; [rewrite length_app, pushed_length; lia|].
  intros i chunk E.
  pose proof (pushed_nth uuidv4 chunks 0 i chunk E) as Hnth. cbn [Nat.add] in Hnth.
  split.
  - rewrite nth_error_map, Hnth. reflexivity.
  - rewrite nth_error_app2 by lia.
    replace (List.length documents + i - List.length documents)%nat with i by lia.
    exact Hnth.
Qed.

(** The two backends agree: on the fallback path, with a selection
    that succeeds and at most 500 rows of the owner, none with a NaN
    similarity to the query, the Supabase store returns what the
    in-memory store returns for the owner's chunks: the same chunks in
    the same order.  (With a NaN similarity the comparator of both is
    inconsistent and the order [Array.prototype.sort] gives is left to
    the implementation; the statement leaves that case out.) *)
Theorem backends_agree : forall db queryEmbedding topK userId,
  Store.selectError db = None ->
  (List.length (Store.eq_user_id userId (Store.rows db)) <= 500)%nat ->
  Store.numbers queryEmbedding (Store.eq_user_id userId (Store.rows db)) ->
  Store.searchWithDirectQuery db queryEmbedding topK userId =
  Returned
    (search (map Store.toChunk (Store.eq_user_id userId (Store.rows db)))
            queryEmbedding topK).
Proof.
  intros db q k u Hs Hlen _.
  unfold Store.searchWithDirectQuery, Store.select, search. rewrite Hs.
  cbn [Store.error Store.data Store.succeed]. unfold Store.limit.
  rewrite (firstn_all2 _ Hlen).
  set (l := Store.eq_user_id u (Store.rows db)).
  set (f := fun item : Store.SimilarityRow =>
              Scored (Store.toChunk (Store.row item)) (Store.similarity item)).
  assert (Eitems :
    map (fun doc => Scored doc (cosineSimilarity q (Store.doc_embedding doc)))
        (map Store.toChunk l) =
    map f (map (fun row => Store.WithSimilarity row
                             (cosineSimilarity q (Store.embedding row))) l)).
  { rewrite !map_map. apply map_ext. intro r. reflexivity. }
  rewrite Eitems. unfold sort.
  rewrite !sortBy_map, !slice_map, !filter_map_commute, !map_map.
  reflexivity.
Qed.

Lemma backends_agree_witness :
  Store.searchWithDirectQuery (Samples.withoutRpc [Samples.r1; Samples.r3])
    [1%float; 0%float] 5 "u" =
  Returned
    (search (map Store.toChunk
               (Store.eq_user_id "u"
                  (Store.rows (Samples.withoutRpc [Samples.r1; Samples.r3]))))
            [1%float; 0%float] 5).
Proof.
  apply (backends_agree (Samples.withoutRpc [Samples.r1; Samples.r3])).
  - reflexivity.
  - cbn. lia.
  - repeat constructor.
Defined.

End MemoryStoreSpec.

(** ** The chat route: every path *)

Module ChatMore.

Import Js JsFacts Store StoreSpec Chat.
Local Open Scope string_scope.

Lemma searchWithDirectQuery_length : forall db queryEmbedding topK userId found,
  (0 <= topK)%Z ->
  searchWithDirectQuery db queryEmbedding topK userId = Returned found ->
  (Z.of_nat (List.length found) <= topK)%Z.
Proof.
  intros db q k u found Hk. unfold searchWithDirectQuery, select.
  destruct (selectError db) as [message|]; cbn [error data fail succeed];
    intro E; inversion E; subst; clear E.
  - cbn [List.length]. lia.
  - rewrite length_map, slice_prefix by assumption.
    match goal with
    | |- context [filter ?f (firstn ?n ?l)] =>
        pose proof (filter_length_le _ f (firstn n l)) as H1;
        pose proof (firstn_le_length n l) as H2
    end.
    lia.
Qed.

Lemma search_length : forall db queryEmbedding topK userId found,
  (0 <= topK)%Z ->
  search db queryEmbedding topK userId = Returned found ->
  (Z.of_nat (List.length found) <= topK)%Z.
Proof.
  intros db q k u found Hk. unfold search, rpc.
  destruct (rpc_match_documents db) as [|message|e];
    cbn [bind tryCatch error data fail succeed orEmpty].
  - intro E. inversion E; subst; clear E. rewrite length_map.
    match goal with
    | |- context [filter ?f ?l] => pose proof (filter_length_le _ f l) as H1
    end.
    unfold match_documents in *.
    match type of H1 with
    | context [firstn ?n ?l] => pose proof (firstn_le_length n l) as H2
    end.
    lia.
  - destruct (searchWithDirectQuery db q k u) as [direct|e] eqn:E;
      cbn [tryCatch]; rewrite ?E; intro H; inversion H; subst.
    now apply (searchWithDirectQuery_length db q k u).
  - intro E. now apply (searchWithDirectQuery_length db q k u).
Qed.

(** The route never rejects.  Whatever the authentication, the request
    body, the store and the two models do, [POST] answers; a reply has
    status 200, an error body has status 400, 401 or 500. *)
Theorem POST_always_answers : forall env,
  exists resp log,
    run (POST env) = (Returned resp, log) /\
    match json resp with
    | ReplyBody _ _ => status resp = 200%Z
    | ErrorBody _ =>
        status resp = 400%Z \/ status resp = 401%Z \/ status resp = 500%Z
    end.
Proof.
  intro env. unfold run, POST, tryCatchT, bindT, call, ret.
  destruct (getUser env) as [[userId|]|e];
    [|do 2 eexists; split; [reflexivity|]; cbn; tauto ..].
  destruct (requestMessage env) as [[[|c rest]| |]|e];
    try (do 2 eexists; split; [reflexivity|]; cbn; tauto).
  destruct (getCount (database env) userId) as [n|e];
    [|do 2 eexists; split; [reflexivity|]; cbn; tauto].
  destruct (n =? 0)%Z;
    [do 2 eexists; split; [reflexivity|]; reflexivity|].
  destruct (Embeddings.generateEmbedding (embedContent env) (String c rest))
    as [q|e]; [|do 2 eexists; split; [reflexivity|]; cbn; tauto].
  destruct (search (database env) q 5 userId) as [docs|e];
    [|do 2 eexists; split; [reflexivity|]; cbn; tauto].
  match goal with
  | |- context [generateContent env ?p] => destruct (generateContent env p)
  end; do 2 eexists; (split; [reflexivity|]); cbn; tauto.
Qed.

(** What leaves the route comes from the caller's own documents.  For
    an authenticated user, when the completion model is called or the
    reply lists sources, the route has searched the store once, for the
    embedding of the user's message, and got at most five chunks, each a
    stored row of that user; the one prompt sent to the completion model
    is built from the message and these chunks, and the sources of the
    reply cite these same chunks, in the order of the search result. *)
Theorem POST_uses_only_owner_documents : forall env userId resp log,
  getUser env = Returned (Some userId) ->
  run (POST env) = (Returned resp, log) ->
  (exists prompt, In (GenerateContent prompt) log) \/
  (exists answer sources, json resp = ReplyBody answer (Some sources)) ->
  exists message queryEmbedding docs,
    requestMessage env = Returned (JsonString message) /\
    Embeddings.generateEmbedding (embedContent env) message =
      Returned queryEmbedding /\
    search (database env) queryEmbedding 5 userId = Returned docs /\
    fromOwner (database env) userId docs /\
    (List.length docs <= 5)%nat /\
    log = [AuthGetUser; RequestJson; StoreGetCount userId; EmbedContent message;
           StoreSearch userId;
           GenerateContent (buildPrompt (buildContext docs) message)] /\
    forall answer sources,
      json resp = ReplyBody answer (Some sources) ->
      sources = map (fun doc => SourceOf (fileName (metadata doc))
                                         (chunkIndex (metadata doc))) docs.
Proof.
  intros env userId resp log Hauth.
  unfold run, POST, tryCatchT, bindT, call, ret. rewrite Hauth.
  destruct (requestMessage env) as [[[|c rest]| |]|e];
    try (intro E; inversion E; subst; clear E;
         intros [[prompt [H|[H|[]]]]|(answer & sources & H)]; discriminate H).
  destruct (getCount (database env) userId) as [n|e];
    [|intro E; inversion E; subst; clear E;
      intros [[prompt [H|[H|[H|[]]]]]|(answer & sources & H)]; discriminate H].
  destruct (n =? 0)%Z;
    [intro E; inversion E; subst; clear E;
      intros [[prompt [H|[H|[H|[]]]]]|(answer & sources & H)]; discriminate H|].
  destruct (Embeddings.generateEmbedding (embedContent env) (String c rest))
    as [q|e] eqn:Eq;
    [|intro E; inversion E; subst; clear E;
      intros [[prompt [H|[H|[H|[H|[]]]]]]|(answer & sources & H)];
      discriminate H].
  destruct (search_fromOwner (database env) q 5 userId) as (docs & Es & Hown).
  assert (Hlen : (List.length docs <= 5)%nat).
  { pose proof (search_length (database env) q 5 userId docs) as H.
    specialize (H ltac:(lia) Es). lia. }
  rewrite Es.
  match goal with
  | |- context [generateContent env ?p] => destruct (generateContent env p)
  end; intro E; inversion E; subst; clear E; intros _;
    exists (String c rest), q, docs;
    (split; [reflexivity|]); (split; [exact Eq|]); (split; [exact Es|]);
    (split; [exact Hown|]); (split; [exact Hlen|]); (split; [reflexivity|]);
    intros answer sources H; cbn [json] in H; inversion H; reflexivity.
Qed.

Lemma POST_uses_only_owner_documents_witness :
  exists message queryEmbedding docs,
    requestMessage MoreSamples.withCorpus = Returned (JsonString message) /\
    Embeddings.generateEmbedding (embedContent MoreSamples.withCorpus) message =
      Returned queryEmbedding /\
    search (database MoreSamples.withCorpus) queryEmbedding 5 "u" =
      Returned docs /\
    fromOwner (database MoreSamples.withCorpus) "u" docs /\
    (List.length docs <= 5)%nat /\
    snd (run (POST MoreSamples.withCorpus)) =
      [AuthGetUser; RequestJson; StoreGetCount "u"; EmbedContent message;
       StoreSearch "u";
       GenerateContent (buildPrompt (buildContext docs) message)] /\
    forall answer sources,
      ReplyBody "From 9 to 17."
        (Some [SourceOf "handbook.txt" 0; SourceOf "handbook.txt" 0]) =
      ReplyBody answer (Some sources) ->
      sources = map (fun doc => SourceOf (fileName (metadata doc))
                                         (chunkIndex (metadata doc))) docs.
Proof.
  apply (POST_uses_only_owner_documents MoreSamples.withCorpus "u"
           (Http 200 (ReplyBody "From 9 to 17."
              (Some [SourceOf "handbook.txt" 0; SourceOf "handbook.txt" 0])))
           (snd (run (POST MoreSamples.withCorpus)))
           eq_refl eq_refl).
  right. now exists "From 9 to 17.",
                    [SourceOf "handbook.txt" 0; SourceOf "handbook.txt" 0].
Defined.

(** A failing count query looks like an empty library.  When the count
    query of the store fails, an authenticated user with a non-empty
    message is told to upload documents first, with status 200, whatever
    the user has stored; no model is called. *)
Theorem count_failure_reads_as_empty_library :
  forall env userId c rest cause,
  getUser env = Returned (Some userId) ->
  requestMessage env = Returned (JsonString (String c rest)) ->
  countError (database env) = Some cause ->
  run (POST env) =
  (Returned (Http 200 (ReplyBody guidance None)),
   [AuthGetUser; RequestJson; StoreGetCount userId]).
Proof.
  intros env userId c rest cause Hauth Hbody Hcount.
  unfold run, POST, tryCatchT, bindT, call, ret.
  rewrite Hauth, Hbody. unfold getCount, selectCount. rewrite Hcount.
  reflexivity.
Qed.

Lemma count_failure_reads_as_empty_library_witness :
  run (POST MoreSamples.countFails) =
  (Returned (Http 200 (ReplyBody guidance None)),
   [AuthGetUser; RequestJson; StoreGetCount "u"]).
Proof.
  apply (count_failure_reads_as_empty_library MoreSamples.countFails "u"
           "W"%char "hat are the opening hours?" "connection refused");
    reflexivity.
Defined.

(** A failing embedding stops the route.  For an authenticated user
    with a non-empty message and a non-zero count, when the embedding
    model rejects or answers without a vector the route answers 500 with
    a message that starts with [Failed to generate embedding: ], and
    neither the search nor the completion model is called. *)
Theorem embedding_failure_is_reported : forall env userId c rest n,
  getUser env = Returned (Some userId) ->
  requestMessage env = Returned (JsonString (String c rest)) ->
  getCount (database env) userId = Returned n -> n <> 0%Z ->
  (forall v, Embeddings.generateEmbedding (embedContent env) (String c rest)
             <> Returned v) ->
  exists cause,
    run (POST env) =
    (Returned (Http 500 (ErrorBody ("Failed to generate embedding: " ++ cause))),
     [AuthGetUser; RequestJson; StoreGetCount userId;
      EmbedContent (String c rest)]).
Proof.
  intros env userId c rest n Hauth Hbody Hcount Hn Hfail.
  unfold run, POST, tryCatchT, bindT, call, ret.
  rewrite Hauth, Hbody, Hcount.
  destruct (n =? 0)%Z eqn:En; [apply Z.eqb_eq in En; contradiction|].
  revert Hfail. unfold Embeddings.generateEmbedding, Embeddings.vectorOf.
  destruct (embedContent env (String c rest)) as [[v|[v|]|]|e];
    cbn [tryCatch throwError messageOr]; intro Hfail;
    try (exfalso; now apply (Hfail v));
    eexists; reflexivity.
Qed.

Lemma embedding_failure_is_reported_witness :
  exists cause,
    run (POST MoreSamples.embeddingFails) =
    (Returned (Http 500 (ErrorBody ("Failed to generate embedding: " ++ cause))),
     [AuthGetUser; RequestJson; StoreGetCount "u";
      EmbedContent "What are the opening hours?"]).
Proof.
  apply (embedding_failure_is_reported MoreSamples.embeddingFails "u"
           "W"%char "hat are the opening hours?" 2%Z);
    try reflexivity; [lia | intros v H; discriminate H].
Defined.

End ChatMore.

(** ** The embedding client: one text *)

Module EmbeddingsMore.

Import Js Embeddings.
Local Open Scope string_scope.

(** [generateEmbedding] returns a vector exactly when the provider
    fulfils the call with one, as an array or under [values], and then
    it returns that vector unchanged; every failure, the provider's own
    or a result without a vector, is thrown as an [Error] whose message
    starts with [Failed to generate embedding: ]. *)
Theorem generateEmbedding_outcomes : forall embedContent text,
  (forall v,
     generateEmbedding embedContent text = Returned v <->
     embedContent text = Fulfilled (AsArray v) \/
     embedContent text = Fulfilled (AsObject (Some v))) /\
  (forall e,
     generateEmbedding embedContent text = Threw e ->
     exists cause,
       e = ErrorObject ("Failed to generate embedding: " ++ cause) /\
       (cause = "No embedding returned from Gemini - unexpected response structure"
        \/ exists reason,
             embedContent text = Rejected reason /\
             cause = messageOr "Unknown error" reason)).
Proof.
  intros embedContent text. unfold generateEmbedding, vectorOf.
  destruct (embedContent text) as [[w|[w|]|]|reason];
    cbn [tryCatch throwError messageOr]; split.
  - intro v. split.
    + intro E. inversion E; subst. now left.
    + intros [E|E]; inversion E; subst; reflexivity.
  - intros e E. discriminate E.
  - intro v. split.
    + intro E. inversion E; subst. now right.
    + intros [E|E]; inversion E; subst; reflexivity.
  - intros e E. discriminate E.
  - intro v. split; [intro E; discriminate E | intros [E|E]; discriminate E].
  - intros e E. inversion E; subst. eexists. split; [reflexivity|]. now left.
  - intro v. split; [intro E; discriminate E | intros [E|E]; discriminate E].
  - intros e E. inversion E; subst. eexists. split; [reflexivity|]. now left.
  - intro v. split; [intro E; discriminate E | intros [E|E]; discriminate E].
  - intros e E. inversion E; subst. eexists. split; [reflexivity|].
    right. exists reason. now split.
Qed.

End EmbeddingsMore.

(** ** The documents route *)

Module DocumentsSpec.

Import Js JsFacts Store StoreSpec Documents.
Local Open Scope string_scope.

(** *** Sets in insertion order *)

Lemma existsb_eqb_In : forall (value : string) (set : list string),
  existsb (String.eqb value) set = true <-> In value set.
Proof.
  intros value set. rewrite existsb_exists. split.
  - intros (x & Hx & E). apply String.eqb_eq in E. now subst.
  - intro H. exists value. split; [exact H | apply String.eqb_refl].
Qed.

Lemma setAdd_NoDup : forall set value, NoDup set -> NoDup (setAdd set value).
Proof.
  intros set value H. unfold setAdd.
  destruct (existsb (String.eqb value) set) eqn:E; [exact H|].
  apply NoDup_app; [exact H | repeat constructor; intros [] |].
  intros x Hx [<-|[]]. apply existsb_eqb_In in Hx. congruence.
Qed.

Lemma setAdd_In : forall set value x,
  In x (setAdd set value) <-> In x set \/ x = value.
Proof.
  intros set value x. unfold setAdd.
  destruct (existsb (String.eqb value) set) eqn:E.
  - apply existsb_eqb_In in E. split; [now left|]. intros [H| ->]; assumption.
  - rewrite in_app_iff. cbn [In]. split; intros [H|H]; auto.
    destruct H as [<-|[]]. now right.
Qed.

Lemma fold_setAdd_NoDup : forall values set,
  NoDup set -> NoDup (fold_left setAdd values set).
Proof.
  induction values as [|value values IH]; intros set H; cbn [fold_left].
  - exact H.
  - apply IH. now apply setAdd_NoDup.
Qed.

Lemma fold_setAdd_In : forall values set x,
  In x (fold_left setAdd values set) <-> In x set \/ In x values.
Proof.
  induction values as [|value values IH]; intros set x; cbn [fold_left In].
  - tauto.
  - rewrite IH, setAdd_In. split; intros H; intuition (subst; auto).
Qed.

Lemma newSet_NoDup : forall values, NoDup (newSet values).
Proof. intro values. apply fold_setAdd_NoDup. constructor. Qed.

Lemma newSet_In : forall values x, In x (newSet values) <-> In x values.
Proof.
  intros values x. unfold newSet. rewrite fold_setAdd_In. cbn [In]. tauto.
Qed.

(** *** Counting by key *)

Section Counting.

Context {A : Type}.
Variable key : A -> string.

Lemma counts_partition : forall (names : list string) (l : list A),
  NoDup names ->
  total (map (fun name => Z.of_nat (List.length (withKey key name l))) names) =
  Z.of_nat (List.length (filter (fun x => existsb (String.eqb (key x)) names) l)).
Proof.
  intros names l. induction names as [|name names IH]; intro Hnd;
    cbn [map total fold_right existsb].
  - induction l as [|x l IHl]; cbn [filter List.length]; [reflexivity | exact IHl].
  - inversion Hnd as [|? ? Hnotin Hnd']; subst.
    fold (total (map (fun name => Z.of_nat (List.length (withKey key name l))) names)).
    rewrite (IH Hnd'). clear IH. unfold withKey.
    induction l as [|x l IHl]; cbn [filter List.length]; [reflexivity|].
    destruct (String.eqb (key x) name) eqn:E; cbn [orb].
    + apply String.eqb_eq in E.
      assert (En : existsb (String.eqb (key x)) names = false).
      { destruct (existsb (String.eqb (key x)) names) eqn:En; [|reflexivity].
        apply existsb_eqb_In in En. rewrite E in En. contradiction. }
      rewrite En. cbn [List.length]. lia.
    + destruct (existsb (String.eqb (key x)) names); cbn [List.length]; lia.
Qed.

Lemma filter_all : forall (f : A -> bool) (l : list A),
  (forall x, In x l -> f x = true) -> filter f l = l.
Proof.
  intros f l. induction l as [|x l IH]; intro H; cbn [filter]; [reflexivity|].
  rewrite (H x (or_introl eq_refl)). f_equal. apply IH.
  intros y Hy. apply H. now right.
Qed.

Lemma counts_total : forall l : list A,
  total (map (fun name => Z.of_nat (List.length (withKey key name l)))
             (newSet (map key l))) =
  Z.of_nat (List.length l).
Proof.
  intro l. rewrite counts_partition by apply newSet_NoDup.
  rewrite filter_all; [reflexivity|].
  intros x Hx. apply existsb_eqb_In, newSet_In. now apply in_map.
Qed.

End Counting.

(** *** The newest row of a file *)

Lemma order_created_at_desc_sorted : forall l,
  StronglySorted (fun a b => (created_at b <= created_at a)%Z)
                 (order_created_at_desc l).
Proof.
  intro l. unfold order_created_at_desc.
  apply (sortBy_sorted _ _ (fun _ => True)).
  - intros x y z Hxy Hyz. lia.
  - intros x y _ _ H. apply Z.ltb_lt in H. lia.
  - intros x y _ _ H. apply Z.ltb_ge in H. lia.
  - apply Forall_forall. intros; exact I.
Qed.

Lemma filter_map_toChunk : forall name l,
  fileDocs (map toChunk l) name =
  map toChunk (filter (fun r => String.eqb (file_name r) name) l).
Proof.
  intros name. induction l as [|r l IH]; cbn [map fileDocs filter];
    [reflexivity|].
  cbn [toChunk metadata fileName]. fold (fileDocs (map toChunk l) name).
  rewrite IH. destruct (String.eqb (file_name r) name); reflexivity.
Qed.

Lemma Permutation_filter_length : forall (A : Type) (f : A -> bool) (l l' : list A),
  Permutation l l' -> List.length (filter f l) = List.length (filter f l').
Proof.
  intros A f l l' H. induction H as [|x l1 l2 _ IH|x y l1|l1 l2 l3 _ IH1 _ IH2];
    cbn [filter].
  - reflexivity.
  - destruct (f x); cbn [List.length]; now rewrite IH.
  - destruct (f x), (f y); reflexivity.
  - now rewrite IH1.
Qed.

(** The answer of [GET] for a signed-in user whose rows can be read:
    every file of the user is listed exactly once; its count is the
    number of the user's rows of that file, so it is positive and the
    counts add up to [totalChunks], the number of the user's rows; and
    [uploadedAt] is the latest [created_at] among the rows of the
    file. *)
Theorem GET_lists_each_file_once : forall db userId,
  selectError db = None ->
  exists infos,
    GET (Returned (Some userId)) db =
    Returned (Http 200
                (ListBody infos
                   (Z.of_nat (List.length (eq_user_id userId (rows db)))))) /\
    NoDup (map info_fileName infos) /\
    (forall name,
       In name (map info_fileName infos) <-> rowsOfFile db userId name <> []) /\
    total (map info_chunks infos) =
    Z.of_nat (List.length (eq_user_id userId (rows db))) /\
    (forall info, In info infos ->
       info_chunks info =
       Z.of_nat (List.length (rowsOfFile db userId (info_fileName info))) /\
       exists newest,
         In newest (rowsOfFile db userId (info_fileName info)) /\
         uploadedAt info = Some (created_at newest) /\
         forall r, In r (rowsOfFile db userId (info_fileName info)) ->
                   (created_at r <= created_at newest)%Z).
Proof.
  intros db userId Hs.
  unfold GET, getAllDocuments, select. rewrite Hs.
  cbn [bind tryCatch error data succeed orEmpty].
  set (owned := eq_user_id userId (rows db)).
  set (listed := order_created_at_desc owned).
  assert (Hperm : Permutation listed owned) by apply sortBy_perm.
  assert (Hsorted : StronglySorted (fun a b => (created_at b <= created_at a)%Z)
                                   listed)
    by apply order_created_at_desc_sorted.
  assert (Hnames : map (fun doc => fileName (metadata doc)) (map toChunk listed)
                   = map file_name listed).
  { rewrite map_map. apply map_ext. intro r. reflexivity. }
  rewrite Hnames.
  assert (Hcount : forall name,
            List.length (fileDocs (map toChunk listed) name) =
            List.length (rowsOfFile db userId name)).
  { intro name. rewrite filter_map_toChunk, length_map.
    unfold rowsOfFile. fold owned. now apply Permutation_filter_length. }
  assert (Hin : forall name r,
            In r (filter (fun r => String.eqb (file_name r) name) listed) <->
            In r (rowsOfFile db userId name)).
  { intros name r. unfold rowsOfFile. fold owned. rewrite !filter_In.
    split; intros [H1 H2]; (split; [|exact H2]).
    - eapply Permutation_in; [exact Hperm | exact H1].
    - eapply Permutation_in; [apply Permutation_sym; exact Hperm | exact H1]. }
  eexists. split; [rewrite length_map, (Permutation_length Hperm); reflexivity|].
  rewrite !map_map. cbn [info_fileName info_chunks]. rewrite map_id.
  split; [apply newSet_NoDup|]. split; [|split].
  - intro name. rewrite newSet_In, in_map_iff. split.
    + intros (r & E & Hr) Hnil.
      assert (H : In r (rowsOfFile db userId name)).
      { apply Hin. apply filter_In. split; [exact Hr|]. now apply String.eqb_eq. }
      rewrite Hnil in H. exact H.
    + intro Hne. destruct (rowsOfFile db userId name) as [|r rest] eqn:E;
        [contradiction|].
      assert (H : In r (rowsOfFile db userId name)) by (rewrite E; now left).
      apply Hin, filter_In in H. destruct H as [Hr Hname].
      exists r. split; [now apply String.eqb_eq | exact Hr].
  - rewrite <- (Permutation_length Hperm).
    rewrite <- (counts_total file_name listed).
    f_equal. apply map_ext. intro name. f_equal.
    rewrite filter_map_toChunk, length_map. reflexivity.
  - intros info Hinfo. apply in_map_iff in Hinfo.
    destruct Hinfo as (name & <- & Hname). cbn [info_fileName info_chunks uploadedAt].
    split; [now rewrite Hcount|].
    rewrite filter_map_toChunk.
    apply newSet_In, in_map_iff in Hname. destruct Hname as (r0 & E0 & Hr0).
    assert (Hsub : StronglySorted (fun a b => (created_at b <= created_at a)%Z)
                     (filter (fun r => String.eqb (file_name r) name) listed))
      by now apply StronglySorted_filter.
    destruct (filter (fun r => String.eqb (file_name r) name) listed)
      as [|newest rest] eqn:Ef.
    + exfalso.
      assert (H : In r0 (filter (fun r => String.eqb (file_name r) name) listed)).
      { apply filter_In. split; [exact Hr0 | now apply String.eqb_eq]. }
      rewrite Ef in H. exact H.
    + exists newest. cbn [map hd_error option_map toChunk metadata timestamp].
      split; [apply Hin; rewrite Ef; now left|]. split; [reflexivity|].
      intros r Hr. apply Hin in Hr. rewrite Ef in Hr.
      apply StronglySorted_inv in Hsub. destruct Hsub as [_ Hall].
      destruct Hr as [<-|Hr]; [lia|].
      rewrite Forall_forall in Hall. now apply Hall.
Qed.

Lemma GET_lists_each_file_once_witness :
  exists infos,
    GET (Returned (Some "u")) (Samples.withRpc MoreSamples.library) =
    Returned (Http 200 (ListBody infos 3)) /\
    map info_fileName infos = ["b.pdf"; "a.txt"] /\
    map info_chunks infos = [1%Z; 2%Z] /\
    map uploadedAt infos = [Some 30%Z; Some 20%Z].
Proof.
  destruct (GET_lists_each_file_once (Samples.withRpc MoreSamples.library) "u"
              eq_refl) as (infos & E & _).
  exists infos. split; [exact E|].
  inversion E; subst. repeat split.
Defined.

(** [DELETE] answers every request, and deletes on one path only: a
    status 200 means that the caller was signed in, that none of the
    caller's rows is left and that the rows of every other user are as
    they were; with any other status (401 when nobody is signed in, 500
    when the authentication or the deletion fails) the table is
    unchanged. *)
Theorem DELETE_removes_only_the_callers_rows : forall getUser db,
  exists resp,
    fst (DELETE getUser db) = Returned resp /\
    (status resp = 200%Z \/ status resp = 401%Z \/ status resp = 500%Z) /\
    (status resp = 200%Z ->
       exists userId,
         getUser = Returned (Some userId) /\
         eq_user_id userId (rows (snd (DELETE getUser db))) = [] /\
         forall other, other <> userId ->
           eq_user_id other (rows (snd (DELETE getUser db))) =
           eq_user_id other (rows db)) /\
    (status resp <> 200%Z -> snd (DELETE getUser db) = db).
Proof.
  intros getUser db. unfold DELETE, clear.
  destruct getUser as [[userId|]|e].
  - destruct (deleteError db) as [cause|]; cbn [fst snd throwError].
    + eexists. split; [reflexivity|]. cbn [status]. split; [tauto|].
      split; [intro H; discriminate H | reflexivity].
    + eexists. split; [reflexivity|]. cbn [status rows]. split; [tauto|].
      split; [|intro H; now contradiction H].
      intros _. exists userId. split; [reflexivity|]. split.
      * rewrite eq_user_id_cleared. now rewrite String.eqb_refl.
      * intros other Hne. rewrite eq_user_id_cleared.
        apply String.eqb_neq in Hne. now rewrite Hne.
  - eexists. split; [reflexivity|]. cbn [status snd]. split; [tauto|].
    split; [intro H; discriminate H | reflexivity].
  - eexists. split; [reflexivity|]. cbn [status snd]. split; [tauto|].
    split; [intro H; discriminate H | reflexivity].
Qed.

End DocumentsSpec.

(** ** The document processor *)

Module ProcessorSpec.

Import Js JsFacts Chunker ChunkerSpec ChunkerMore Extractor Processor.
Local Open Scope string_scope.

(** *** The extension of a file name *)

Lemma split_not_nil : forall separator s, split separator s <> [].
Proof.
  intros separator s. destruct s as [|c rest]; cbn [split]; [discriminate|].
  destruct (Ascii.eqb c separator); [discriminate|].
  destruct (split separator rest); discriminate.
Qed.

Lemma split_noDot : forall s, noDot s = true -> split "."%char s = [s].
Proof.
  induction s as [|c rest IH]; cbn [noDot split]; intro H; [reflexivity|].
  apply andb_true_iff in H. destruct H as [Hc Hrest].
  apply negb_true_iff in Hc. rewrite Hc, (IH Hrest). reflexivity.
Qed.

Lemma split_app : forall separator a b,
  split separator (a ++ String separator b) =
  (split separator a ++ split separator b)%list.
Proof.
  intros separator a b. induction a as [|c a IH]; cbn [append split].
  - now rewrite Ascii.eqb_refl.
  - destruct (Ascii.eqb c separator); [now rewrite IH|].
    rewrite IH. pose proof (split_not_nil separator a) as Hne.
    destruct (split separator a) as [|segment segments]; [contradiction|].
    reflexivity.
Qed.

Lemma pop_app : forall (A : Type) (l1 l2 : list A),
  l2 <> [] -> pop (l1 ++ l2) = pop l2.
Proof.
  intros A l1 l2 Hne. unfold pop. rewrite rev_app_distr.
  destruct (rev l2) as [|x rest] eqn:E; [|reflexivity].
  apply (f_equal (@rev A)) in E. rewrite rev_involutive in E. contradiction.
Qed.

(** The extension is the text after the last dot in lower case, and the
    whole name in lower case when the name has no dot: a file named
    [PDF] is taken for a PDF. *)
Theorem fileExtension_is_last_segment : forall prefix extension,
  noDot extension = true ->
  fileExtension (prefix ++ "." ++ extension) = Some (toLowerCase extension) /\
  fileExtension extension = Some (toLowerCase extension).
Proof.
  intros prefix extension H. unfold fileExtension. split.
  - cbn [append]. rewrite split_app, pop_app by apply split_not_nil.
    now rewrite (split_noDot extension H).
  - now rewrite (split_noDot extension H).
Qed.

Lemma fileExtension_is_last_segment_witness :
  fileExtension ("Annual.Report" ++ "." ++ "PDF") = Some "pdf" /\
  fileExtension "PDF" = Some "pdf".
Proof.
  apply (fileExtension_is_last_segment "Annual.Report" "PDF"). reflexivity.
Defined.

(** A file of an unsupported type is rejected as soon as it is read:
    [processDocument] throws an [Error] that names the extension, and
    no parsing library is called. *)
Theorem unsupported_type_is_rejected : forall fuel libs file buffer extension,
  arrayBuffer file = Returned buffer ->
  fileExtension (name file) = Some extension ->
  supported extension = false ->
  processDocument fuel libs file =
  Some (Threw (ErrorObject ("Unsupported file type: " ++ extension)),
        [ReadFile]).
Proof.
  intros fuel libs file buffer extension Hbuf Hext Hsup.
  unfold supported in Hsup. apply orb_false_iff in Hsup.
  destruct Hsup as [Hsup Htxt]. apply orb_false_iff in Hsup.
  destruct Hsup as [Hsup Hdoc]. apply orb_false_iff in Hsup.
  destruct Hsup as [Hpdf Hdocx].
  unfold processDocument, extractDocument, run, bindT, call, raise.
  rewrite Hbuf, Hext. cbn [app isCase]. rewrite Hpdf, Hdocx, Hdoc, Htxt.
  reflexivity.
Qed.

Lemma unsupported_type_is_rejected_witness :
  processDocument 0 (MoreSamples.reading "pixels")
                  (FileOf "photo.PNG" (Returned [])) =
  Some (Threw (ErrorObject ("Unsupported file type: " ++ "png")), [ReadFile]).
Proof.
  apply (unsupported_type_is_rejected 0 (MoreSamples.reading "pixels")
           (FileOf "photo.PNG" (Returned [])) [] "png"); reflexivity.
Defined.

(** *** The text of a PDF *)

Lemma isBlank_false : forall text,
  isBlank text = false ->
  exists c t, trim (list_ascii_of_string text) = c :: t.
Proof.
  intros text H. unfold isBlank in H. destruct text as [|a rest]; [discriminate|].
  unfold trimString in H. apply Nat.eqb_neq in H.
  destruct (trim (list_ascii_of_string (String a rest))) as [|c t];
    [contradiction H; reflexivity|].
  now exists c, t.
Qed.

Lemma trimmed_document : forall text fileName,
  isBlank text = false ->
  extracted fileName (Processed (trimString text) fileName "pdf").
Proof.
  intros text fileName H. destruct (isBlank_false text H) as (c & t & E).
  repeat split. cbn [Extractor.text]. unfold trimString.
  rewrite list_ascii_of_string_of_list_ascii. now apply (trim_wellTrimmed _ c t).
Qed.

Lemma extractWith_extracted : forall libs m buffer fileName doc,
  extractWith libs m buffer fileName = Returned doc -> extracted fileName doc.
Proof.
  intros libs m buffer fileName doc. destruct m; cbn [extractWith].
  - unfold processPDFWithPDFParse.
    destruct (getText (pdfParse libs buffer)) as [textResult|e];
      cbn [bind]; [|discriminate].
    destruct (destroy (pdfParse libs buffer)) as [u|e]; cbn [bind]; [|discriminate].
    destruct (isBlank (orEmptyString textResult)) eqn:E; [discriminate|].
    intro H. inversion H; subst. now apply trimmed_document.
  - unfold processPDFWithPDF2JSON.
    destruct (pdf2json libs buffer) as [e|e|data|raw pdfData|]; try discriminate.
    destruct (readyText (decodeURIComponent libs) raw pdfData) as [text|e];
      [|discriminate].
    destruct (isBlank text) eqn:E; [discriminate|].
    intro H. inversion H; subst. now apply trimmed_document.
  - unfold processPDFWithPDFJSDist.
    destruct (pdfjs libs buffer) as [pages|e]; cbn [bind]; [|discriminate].
    destruct (readPages pages EmptyString) as [fullText|e]; cbn [bind];
      [|discriminate].
    destruct (isBlank fullText) eqn:E; [discriminate|].
    intro H. inversion H; subst. now apply trimmed_document.
Qed.

Lemma processPDF_extracted : forall libs buffer fileName doc log,
  run (processPDF (extractWith libs) buffer fileName) = (Returned doc, log) ->
  extracted fileName doc.
Proof.
  intros libs buffer fileName doc log.
  unfold run, processPDF, tryCatchT, attempt, call, raise.
  destruct (extractWith libs PdfParse buffer fileName) as [d|e] eqn:E1.
  { intro H. inversion H; subst. now apply (extractWith_extracted libs PdfParse buffer). }
  destruct (extractWith libs Pdf2Json buffer fileName) as [d|e2] eqn:E2.
  { intro H. inversion H; subst. now apply (extractWith_extracted libs Pdf2Json buffer). }
  destruct (extractWith libs PdfjsDist buffer fileName) as [d|e3] eqn:E3.
  { intro H. inversion H; subst. now apply (extractWith_extracted libs PdfjsDist buffer). }
  intro H. discriminate H.
Qed.

(** Whatever the three libraries do, a document [processPDF] returns
    carries the given file name, the type [pdf] and a text that is not
    empty and has no white space at either end: a PDF without visible
    text is never returned, it makes [processPDF] throw. *)
Theorem processPDF_returns_visible_text : forall libs buffer fileName,
  match fst (run (processPDF (extractWith libs) buffer fileName)) with
  | Returned doc =>
      Extractor.fileName doc = fileName /\ fileType doc = "pdf" /\
      text doc <> EmptyString /\ visible (text doc) /\
      wellTrimmed (list_ascii_of_string (text doc))
  | Threw e => exists message, e = ErrorObject message
  end.
Proof.
  intros libs buffer fileName.
  destruct (run (processPDF (extractWith libs) buffer fileName))
    as [[doc|e] log] eqn:E; cbn [fst].
  - destruct (processPDF_extracted libs buffer fileName doc log E)
      as (Hname & Htype & c & t & Ec & Hc & Hlast).
    repeat split; try assumption.
    + intro Hnil. rewrite Hnil in Ec. discriminate Ec.
    + unfold visible, allWhiteSpace. rewrite Ec. intro Hall.
      inversion Hall; subst. congruence.
    + exists c, t. repeat split; assumption.
  - revert E. unfold run, processPDF, tryCatchT, attempt, call, raise.
    destruct (extractWith libs PdfParse buffer fileName); [discriminate|].
    destruct (extractWith libs Pdf2Json buffer fileName); [discriminate|].
    destruct (extractWith libs PdfjsDist buffer fileName); [discriminate|].
    intro H. inversion H; subst. eexists. reflexivity.
Qed.

(** *** Chunks of a processed document *)

Lemma default_parameters : (0 < defaultOverlap < defaultChunkSize)%Z.
Proof. unfold defaultOverlap, defaultChunkSize. lia. Qed.

Lemma splitTextIntoChunks_returns : forall text fuel,
  (List.length text <= fuel)%nat ->
  exists result,
    splitTextIntoChunks fuel text defaultChunkSize defaultOverlap = Some result.
Proof.
  intros text fuel Hfuel. unfold splitTextIntoChunks.
  apply (loop_terminates text defaultChunkSize defaultOverlap default_parameters);
    cbn [start]; unfold textLength; lia.
Qed.

(** [processDocument] completes: with as many iterations allowed as the
    extracted text has characters, or more, the result is the same. *)
Lemma processDocument_returns : forall libs file,
  exists fuel result,
    forall extra, processDocument (fuel + extra) libs file = Some result.
Proof.
  intros libs file. unfold processDocument.
  destruct (run (extractDocument libs file)) as [[processed|e] log].
  - set (t := list_ascii_of_string (text processed)).
    destruct (splitTextIntoChunks_returns t (List.length t) (le_n _))
      as (result & E).
    exists (List.length t). eexists. intro extra.
    unfold splitTextIntoChunks in *.
    now rewrite (loop_more_fuel _ _ _ _ extra _ _ E).
  - exists 0%nat. eexists. intro extra. reflexivity.
Qed.

Lemma extractDocument_pdf : forall libs file processed log,
  isCase (fileExtension (name file)) "pdf" = true ->
  run (extractDocument libs file) = (Returned processed, log) ->
  extracted (name file) processed.
Proof.
  intros libs file processed log Hpdf.
  unfold run, extractDocument, bindT, call, lift.
  destruct (arrayBuffer file) as [buffer|e]; [|discriminate].
  rewrite Hpdf.
  destruct (run (processPDF (extractWith libs) buffer (name file)))
    as [result calls] eqn:E.
  intro H. inversion H; subst.
  now apply (processPDF_extracted libs buffer (name file) processed calls).
Qed.

Lemma wellTrimmed_visible : forall s, wellTrimmed s -> ~ allWhiteSpace s.
Proof.
  intros s (c & t & -> & Hc & _) Hall. inversion Hall; subst. congruence.
Qed.

(** A PDF that is processed always yields chunks.  When
    [processDocument] returns for a file whose extension is [pdf], the
    result has the type [pdf], the name of the file and at least one
    chunk, and every chunk is non-empty, at most 1000 characters long
    and free of white space at its two ends. *)
Theorem pdf_document_has_chunks : forall fuel libs file result log,
  isCase (fileExtension (name file)) "pdf" = true ->
  processDocument fuel libs file = Some (Returned result, log) ->
  chunked_fileName result = name file /\
  chunked_fileType result = "pdf" /\
  chunks result <> [] /\
  Forall (fun chunk =>
            chunk <> EmptyString /\ (String.length chunk <= 1000)%nat /\
            wellTrimmed (list_ascii_of_string chunk))
         (chunks result).
Proof.
  intros fuel libs file result log Hpdf. unfold processDocument.
  destruct (run (extractDocument libs file)) as [[processed|e] calls] eqn:E;
    [|intro H; inversion H].
  destruct (extractDocument_pdf libs file processed calls Hpdf E)
    as (Hname & Htype & Htrim).
  destruct (splitTextIntoChunks fuel (list_ascii_of_string (text processed))
              defaultChunkSize defaultOverlap) as [pieces|] eqn:Es;
    [|discriminate].
  intro H. inversion H; subst; clear H.
  cbn [chunked_fileName chunked_fileType chunks].
  split; [exact Hname|]. split; [exact Htype|]. split.
  - destruct pieces as [|piece rest]; [|discriminate].
    exfalso. apply (wellTrimmed_visible _ Htrim).
    now apply (no_chunk_whitespace fuel _ defaultChunkSize defaultOverlap
                 default_parameters).
  - apply Forall_forall. intros chunk Hin. apply in_map_iff in Hin.
    destruct Hin as (piece & <- & Hpiece).
    assert (Hwt : wellTrimmed piece).
    { assert (Hall : Forall wellTrimmed pieces).
      { unfold splitTextIntoChunks in Es.
        eapply loop_wellTrimmed; [|exact Es]. constructor. }
      rewrite Forall_forall in Hall. now apply Hall. }
    assert (Hlen : (Z.of_nat (List.length piece) <= defaultChunkSize)%Z).
    { assert (Hall : Forall (fun c => (Z.of_nat (List.length c)
                                        <= defaultChunkSize)%Z) pieces).
      { unfold splitTextIntoChunks in Es.
        eapply (loop_bounded _ _ _ _ _ _ default_parameters); [| |exact Es];
          cbn [start Chunker.chunks]; [lia | constructor]. }
      rewrite Forall_forall in Hall. now apply Hall. }
    rewrite list_ascii_of_string_of_list_ascii. split; [|split].
    + destruct Hwt as (c & t & -> & _). discriminate.
    + assert (El : String.length (string_of_list_ascii piece) = List.length piece).
      { clear. induction piece as [|c t IH]; cbn; [reflexivity | now rewrite IH]. }
      rewrite El. unfold defaultChunkSize in Hlen. lia.
    + exact Hwt.
Qed.

Lemma pdf_document_has_chunks_witness :
  chunked_fileName (ChunkedOf ["Opening hours: 9-17"] "hours.pdf" "pdf") =
  "hours.pdf" /\
  chunked_fileType (ChunkedOf ["Opening hours: 9-17"] "hours.pdf" "pdf") = "pdf" /\
  chunks (ChunkedOf ["Opening hours: 9-17"] "hours.pdf" "pdf") <> [] /\
  Forall (fun chunk =>
            chunk <> EmptyString /\ (String.length chunk <= 1000)%nat /\
            wellTrimmed (list_ascii_of_string chunk))
         (chunks (ChunkedOf ["Opening hours: 9-17"] "hours.pdf" "pdf")).
Proof.
  apply (pdf_document_has_chunks 30 (MoreSamples.reading " Opening hours: 9-17 ")
           (FileOf "hours.pdf" (Returned []))
           (ChunkedOf ["Opening hours: 9-17"] "hours.pdf" "pdf")
           [ReadFile; Extract PdfParse]);
    reflexivity.
Defined.

End ProcessorSpec.

(** ** The upload route *)

Module UploadSpec.

Import Js JsFacts Store StoreSpec StoreMore Inserted Chunker ChunkerSpec
       ChunkerMore Extractor Processor ProcessorSpec Upload.
Local Open Scope string_scope.

Lemma generateEmbeddings_returned : forall embedContent texts vectors,
  Embeddings.generateEmbeddings embedContent texts = Returned vectors ->
  List.length vectors = List.length texts /\
  forall k text v,
    nth_error texts k = Some text -> nth_error vectors k = Some v ->
    Embeddings.carries (embedContent k text) v.
Proof.
  intros embedContent texts vectors.
  unfold Embeddings.generateEmbeddings, Embeddings.promiseAll.
  fold Embeddings.missing.
  set (ps := Embeddings.issue embedContent 0 texts).
  destruct (Embeddings.earliestRejection ps) as [[t e]|] eqn:E;
    cbn [bind tryCatch throwError]; [discriminate|].
  apply EmbeddingsSpec.earliestRejection_none in E.
  pose proof (EmbeddingsSpec.fulfilments_all ps E) as Hall.
  destruct (Embeddings.mapOutcome (Embeddings.vectorOf Embeddings.missing)
              (Embeddings.fulfilments ps)) as [vs|e0] eqn:Em;
    cbn [tryCatch throwError]; [|discriminate].
  intro H. inversion H; subst.
  apply (EmbeddingsSpec.Forall2_carries_nth embedContent texts 0).
  exact (EmbeddingsSpec.mapOutcome_returned ps _ _ Hall Em).
Qed.

Lemma documentChunks_length : forall fileName now embeddings chunks index,
  List.length (documentChunks fileName now embeddings index chunks) =
  List.length chunks.
Proof.
  intros fileName now embeddings chunks.
  induction chunks as [|chunk rest IH]; intro index;
    cbn [documentChunks List.length]; [reflexivity | now rewrite IH].
Qed.

Lemma documentChunks_nth : forall fileName now embeddings chunks index i chunk,
  nth_error chunks i = Some chunk ->
  nth_error (documentChunks fileName now embeddings index chunks) i =
  Some (NewChunkOf chunk (nth (index + i) embeddings [])
                   (Meta fileName (Z.of_nat (index + i)) (now (index + i)%nat))).
Proof.
  intros fileName now embeddings chunks.
  induction chunks as [|c rest IH]; intros index [|i] chunk E;
    cbn [nth_error documentChunks] in *; try discriminate.
  - inversion E; subst. now rewrite Nat.add_0_r.
  - rewrite (IH (S index) i chunk E). now rewrite Nat.add_succ_r.
Qed.

Lemma rowsFor_ids : forall uuidv4 chunks n userId,
  map id (rowsFor uuidv4 n chunks userId) =
  map uuidv4 (seq n (List.length chunks)).
Proof.
  intros uuidv4 chunks. induction chunks as [|c rest IH]; intros n userId;
    cbn [rowsFor map List.length seq]; [reflexivity|].
  now rewrite IH.
Qed.

Lemma POST_more_fuel : forall env fuel result,
  (forall extra, POST (fuel + extra) env = Some result) ->
  POST fuel env = Some result.
Proof.
  intros env fuel result H. specialize (H 0%nat).
  now rewrite Nat.add_0_r in H.
Qed.

(** The route never rejects and always completes: with enough
    iterations allowed for the chunking loop, and with any number
    above, [POST] answers, with status 200, 400, 401 or 500. *)
Theorem upload_always_answers : forall env,
  exists fuel resp db',
    (forall extra, POST (fuel + extra) env = Some (Returned resp, db')) /\
    (status resp = 200%Z \/ status resp = 400%Z \/
     status resp = 401%Z \/ status resp = 500%Z).
Proof.
  intro env. unfold POST.
  destruct (getUser env) as [[userId|]|e0];
    [|exists 0%nat; do 2 eexists; split; [intro; reflexivity | cbn; tauto] ..].
  destruct (formFile env) as [entry|e1];
    [|exists 0%nat; do 2 eexists; split; [intro; reflexivity | cbn; tauto]].
  destruct (isMissing entry);
    [exists 0%nat; do 2 eexists; split; [intro; reflexivity | cbn; tauto]|].
  assert (Hproc : exists fuel processed,
            forall extra, processEntry (fuel + extra) env entry = Some processed).
  { destruct entry as [file|value|]; cbn [processEntry];
      [|exists 0%nat; eexists; intro; reflexivity ..].
    destruct (processDocument_returns (libraries env) file)
      as (fuel & result & Hres).
    exists fuel. eexists. intro extra. rewrite (Hres extra). reflexivity. }
  destruct Hproc as (fuel & processed & Hproc). exists fuel.
  destruct processed as [processed|pe].
  - destruct (chunks processed) as [|chunk rest] eqn:Hchunks.
    + do 2 eexists. split; [intro extra; rewrite (Hproc extra), Hchunks;
                             reflexivity | cbn; tauto].
    + destruct (Embeddings.generateEmbeddings (embedContent env) (chunk :: rest))
        as [vectors|e2] eqn:Hemb.
      * destruct (addDocuments (database env) (uuidv4 env)
                    (documentChunks (chunked_fileName processed) (now env)
                       vectors 0 (chunk :: rest)) userId)
          as [[ids|e3] db2] eqn:Hadd;
          do 2 eexists;
          (split; [intro extra; rewrite (Hproc extra), Hchunks, Hemb, Hadd;
                   reflexivity | cbn; tauto]).
      * do 2 eexists. split; [intro extra; rewrite (Hproc extra), Hchunks, Hemb;
                               reflexivity | cbn; tauto].
  - do 2 eexists. split; [intro extra; rewrite (Hproc extra); reflexivity
                         | cbn; tauto].
Qed.

(** What a successful upload stored.  When [POST] answers 200, the
    file was processed into at least one chunk; the body reports the
    name and type of the document, the number of chunks and one
    identifier per chunk, in the order they were generated; and the
    table is the old table followed by one row per chunk, in order: the
    row of chunk [i] has the identifier of position [i], the text of the
    chunk, the vector the embedding model returned for the call of
    position [i], the name of the document, the index [i], the clock
    reading taken for it, and the caller as its owner. *)
Theorem upload_stores_what_it_reports : forall fuel env resp db',
  POST fuel env = Some (Returned resp, db') ->
  status resp = 200%Z ->
  exists userId file result log,
    getUser env = Returned (Some userId) /\
    formFile env = Returned (FileEntry file) /\
    processDocument fuel (libraries env) file = Some (Returned result, log) /\
    chunks result <> [] /\
    json resp =
      SuccessBody "Document uploaded and processed successfully"
                  (chunked_fileName result) (chunked_fileType result)
                  (Z.of_nat (List.length (chunks result)))
                  (map (uuidv4 env) (seq 0 (List.length (chunks result)))) /\
    exists added,
      rows db' = (rows (database env) ++ added)%list /\
      List.length added = List.length (chunks result) /\
      forall i chunk,
        nth_error (chunks result) i = Some chunk ->
        exists vector,
          Embeddings.carries (embedContent env i chunk) vector /\
          nth_error added i =
          Some (Row (uuidv4 env i) chunk vector (chunked_fileName result)
                    (Z.of_nat i) (now env i) userId).
Proof.
  intros fuel env resp db'. unfold POST.
  destruct (getUser env) as [[userId|]|e0];
    try (intros E Hs; inversion E; subst; discriminate Hs).
  destruct (formFile env) as [entry|e1];
    try (intros E Hs; inversion E; subst; discriminate Hs).
  destruct (isMissing entry);
    try (intros E Hs; inversion E; subst; discriminate Hs).
  destruct (processEntry fuel env entry) as [[processed|pe]|] eqn:Hproc;
    try (intros E Hs; inversion E; subst; discriminate Hs).
  destruct entry as [file|value|]; cbn [processEntry] in Hproc;
    try discriminate Hproc.
  destruct (processDocument fuel (libraries env) file) as [[result log]|] eqn:Hdoc;
    cbn [option_map fst] in Hproc; [|discriminate Hproc].
  inversion Hproc; subst result; clear Hproc.
  destruct (chunks processed) as [|chunk rest] eqn:Hchunks;
    try (intros E Hs; inversion E; subst; discriminate Hs).
  destruct (Embeddings.generateEmbeddings (embedContent env) (chunk :: rest))
    as [vectors|e2] eqn:Hemb;
    try (intros E Hs; inversion E; subst; discriminate Hs).
  set (new := documentChunks (chunked_fileName processed) (now env) vectors 0
                (chunk :: rest)).
  destruct (addLoop_prefix new (database env) (uuidv4 env) 0 userId [])
    as (k & Hk & Hrows & _ & _ & Hres).
  fold (addDocuments (database env) (uuidv4 env) new userId) in Hrows, Hres.
  destruct (addDocuments (database env) (uuidv4 env) new userId)
    as [[ids|e3] db2] eqn:Hadd;
    try (intros E Hs; inversion E; subst; discriminate Hs).
  cbn [fst snd] in Hrows, Hres.
  destruct Hres as [[Ek Eids]|(r & message & _ & _ & Eres)]; [|discriminate Eres].
  cbn [app] in Eids. inversion Eids; subst ids; clear Eids.
  rewrite Ek, firstn_all in Hrows.
  intros E _. inversion E; subst; clear E.
  destruct (generateEmbeddings_returned _ _ _ Hemb) as [Hlen Hcarries].
  exists userId, file, processed, log. rewrite !Hchunks.
  split; [reflexivity|]. split; [reflexivity|]. split; [exact Hdoc|].
  split; [discriminate|]. split.
  { cbn [json]. rewrite rowsFor_ids. unfold new.
    now rewrite documentChunks_length. }
  exists (rowsFor (uuidv4 env) 0 new userId).
  split; [exact Hrows|]. split.
  { rewrite rowsFor_length. unfold new. now rewrite documentChunks_length. }
  intros i c Hc.
  assert (Hi : (i < List.length vectors)%nat).
  { rewrite Hlen. apply nth_error_Some. congruence. }
  destruct (nth_error vectors i) as [vector|] eqn:Ev;
    [|apply nth_error_None in Ev; lia].
  exists vector. split; [now apply (Hcarries i)|].
  rewrite (rowsFor_nth (uuidv4 env) new 0 userId i
             (NewChunkOf c (nth (0 + i) vectors [])
                (Meta (chunked_fileName processed) (Z.of_nat (0 + i))
                      (now env (0 + i)%nat)))).
  - cbn [Nat.add]. unfold rowFor.
    cbn [new_text new_embedding new_metadata fileName chunkIndex timestamp].
    now rewrite (nth_error_nth _ _ _ Ev).
  - unfold new. now apply documentChunks_nth.
Qed.

Lemma upload_stores_what_it_reports_witness :
  exists added,
    rows (Samples.withRpc
            (MoreSamples.library ++
             [Row "id-0" "Opening hours: 9-17" [1%float; 0%float]
                  "hours.txt" 0 0 "u"])) =
    (MoreSamples.library ++ added)%list /\
    List.length added = 1%nat.
Proof.
  destruct (upload_stores_what_it_reports 50
              (MoreSamples.uploading "hours.txt" " Opening hours: 9-17 "
                 (Samples.withRpc MoreSamples.library))
              (Http 200
                 (SuccessBody "Document uploaded and processed successfully"
                    "hours.txt" "txt" 1 ["id-0"]))
              (Samples.withRpc
                 (MoreSamples.library ++
                  [Row "id-0" "Opening hours: 9-17" [1%float; 0%float]
                       "hours.txt" 0 0 "u"]))
              eq_refl eq_refl)
    as (userId & file & result & log & _ & Hfile & Hdoc & _ & _ &
        added & Hrows & Hlen & _).
  exists added. split; [exact Hrows|].
  inversion Hfile; subst file. vm_compute in Hdoc.
  inversion Hdoc; subst result. exact Hlen.
Defined.

(** What a failed upload leaves.  When the answer is not 200, the
    table is the old table followed by rows of the caller: none when
    the answer is 400 or 401, and with 500 the rows of the chunks the
    store accepted before it refused one, since there is no rollback. *)
Theorem failed_upload_keeps_accepted_rows : forall fuel env resp db',
  POST fuel env = Some (Returned resp, db') ->
  status resp <> 200%Z ->
  exists added,
    rows db' = (rows (database env) ++ added)%list /\
    (status resp = 400%Z \/ status resp = 401%Z -> added = []) /\
    forall r, In r added -> getUser env = Returned (Some (user_id r)).
Proof.
  intros fuel env resp db'. unfold POST.
  destruct (getUser env) as [[userId|]|e0];
    try (intros E Hs; inversion E; subst; exists []; rewrite app_nil_r;
         split; [reflexivity|]; split; [intros _; reflexivity | intros r []]).
  destruct (formFile env) as [entry|e1];
    try (intros E Hs; inversion E; subst; exists []; rewrite app_nil_r;
         split; [reflexivity|]; split; [intros _; reflexivity | intros r []]).
  destruct (isMissing entry);
    try (intros E Hs; inversion E; subst; exists []; rewrite app_nil_r;
         split; [reflexivity|]; split; [intros _; reflexivity | intros r []]).
  destruct (processEntry fuel env entry) as [[processed|pe]|] eqn:Hproc;
    try (intros E Hs; inversion E; subst; exists []; rewrite app_nil_r;
         split; [reflexivity|]; split; [intros _; reflexivity | intros r []]);
    [|intros E; discriminate E].
  destruct (chunks processed) as [|chunk rest] eqn:Hchunks;
    try (intros E Hs; inversion E; subst; exists []; rewrite app_nil_r;
         split; [reflexivity|]; split; [intros _; reflexivity | intros r []]).
  destruct (Embeddings.generateEmbeddings (embedContent env) (chunk :: rest))
    as [vectors|e2] eqn:Hemb;
    try (intros E Hs; inversion E; subst; exists []; rewrite app_nil_r;
         split; [reflexivity|]; split; [intros _; reflexivity | intros r []]).
  set (new := documentChunks (chunked_fileName processed) (now env) vectors 0
                (chunk :: rest)).
  destruct (addLoop_prefix new (database env) (uuidv4 env) 0 userId [])
    as (k & Hk & Hrows & _ & _ & _).
  fold (addDocuments (database env) (uuidv4 env) new userId) in Hrows.
  destruct (addDocuments (database env) (uuidv4 env) new userId)
    as [[ids|e3] db2] eqn:Hadd; cbn [snd] in Hrows;
    intros E Hs; inversion E; subst; clear E; cbn [status] in *;
    [contradiction Hs; reflexivity|].
  exists (firstn k (rowsFor (uuidv4 env) 0 new userId)).
  split; [exact Hrows|]. split; [intros [H|H]; discriminate H|].
  intros r Hr. apply firstn_incl in Hr.
  pose proof (rowsFor_owner (uuidv4 env) new 0 userId) as Hown.
  rewrite Forall_forall in Hown. now rewrite (Hown r Hr).
Qed.

Lemma failed_upload_keeps_accepted_rows_witness :
  exists added,
    rows (Backend [Row "id-0" (MoreSamples.copies 600 "a" ++ ".")
                       [1%float; 0%float] "long.txt" 0 0 "u"]
                  RpcInstalled None None
                  (insertError MoreSamples.refusingSecond) None) =
    (rows MoreSamples.refusingSecond ++ added)%list /\
    (500 = 400 \/ 500 = 401 -> added = [])%Z /\
    forall r, In r added -> Returned (Some "u") = Returned (Some (user_id r)).
Proof.
  apply (failed_upload_keeps_accepted_rows 2000
           (MoreSamples.uploading "long.txt" MoreSamples.twoSentences
              MoreSamples.refusingSecond)
           (Http 500 (ErrorBody "Failed to insert document chunk: disk full" None))).
  - vm_compute. reflexivity.
  - cbn. lia.
Defined.

(** The answer [Document is empty or could not be processed] is given
    exactly when a signed-in user sends a file whose extraction
    succeeds with a text of white space only; the file is then a Word
    or text file, never a PDF, and nothing is stored. *)
Theorem empty_document_answer : forall fuel env resp db',
  POST fuel env = Some (Returned resp, db') ->
  (json resp = emptyDocument <->
   exists userId file processed log,
     getUser env = Returned (Some userId) /\
     formFile env = Returned (FileEntry file) /\
     run (extractDocument (libraries env) file) = (Returned processed, log) /\
     allWhiteSpace (list_ascii_of_string (text processed))) /\
  (json resp = emptyDocument ->
   status resp = 400%Z /\ db' = database env /\
   forall file, formFile env = Returned (FileEntry file) ->
                isCase (fileExtension (name file)) "pdf" = false).
Proof.
  intros fuel env resp db' Hpost.
  assert (Hiff : json resp = emptyDocument <->
    exists userId file processed log,
      getUser env = Returned (Some userId) /\
      formFile env = Returned (FileEntry file) /\
      run (extractDocument (libraries env) file) = (Returned processed, log) /\
      allWhiteSpace (list_ascii_of_string (text processed))).
  { revert Hpost. unfold POST.
    destruct (getUser env) as [[userId|]|e0];
      try (intro E; inversion E; subst; split;
           [intro H; discriminate H
           |intros (u & f & p & l & H & _); discriminate H]).
    destruct (formFile env) as [entry|e1];
      try (intro E; inversion E; subst; split;
           [intro H; discriminate H
           |intros (u & f & p & l & _ & H & _); discriminate H]).
    destruct entry as [file|value|]; cbn [isMissing processEntry];
      try (intro E; inversion E; subst; split;
           [intro H; discriminate H
           |intros (u & f & p & l & _ & H & _); discriminate H]).
    2:{ destruct value; intro E; inversion E; subst; split;
          try (intro H; discriminate H);
          intros (u & f & p & l & _ & H & _); discriminate H. }
    unfold processDocument.
    destruct (run (extractDocument (libraries env) file))
      as [[processed|pe] log] eqn:Hrun; cbn [option_map fst].
    2:{ intro E; inversion E; subst; split; [intro H; discriminate H|].
        intros (u & f & p & l & _ & Hf & Hr & _). inversion Hf; subst f.
        rewrite Hrun in Hr. discriminate Hr. }
    destruct (splitTextIntoChunks fuel (list_ascii_of_string (text processed))
                defaultChunkSize defaultOverlap) as [pieces|] eqn:Hsplit;
      cbn [option_map fst chunks]; [|intro E; discriminate E].
    destruct pieces as [|piece rest]; cbn [map].
    - intro E. inversion E; subst. split; [|reflexivity].
      intros _. exists userId, file, processed, log.
      split; [reflexivity|]. split; [reflexivity|]. split; [exact Hrun|].
      now apply (no_chunk_whitespace fuel _ defaultChunkSize defaultOverlap
                   default_parameters).
    - assert (Hvis : ~ allWhiteSpace (list_ascii_of_string (text processed))).
      { intro Hws. unfold splitTextIntoChunks in Hsplit.
        pose proof (loop_whitespace _ _ _ _ (Loop 0 []) _ Hws eq_refl Hsplit)
          as H.
        discriminate H. }
      destruct (Embeddings.generateEmbeddings (embedContent env) _)
        as [vectors|e2].
      + destruct (addDocuments (database env) (uuidv4 env) _ userId)
          as [[ids|e3] db2];
          intro E; inversion E; subst; (split; [intro H; discriminate H|]);
          intros (u & f & p & l & _ & Hf & Hr & Hws); inversion Hf; subst f;
          rewrite Hrun in Hr; inversion Hr; subst p; contradiction.
      + intro E; inversion E; subst; (split; [intro H; discriminate H|]);
          intros (u & f & p & l & _ & Hf & Hr & Hws); inversion Hf; subst f;
          rewrite Hrun in Hr; inversion Hr; subst p; contradiction. }
  split; [exact Hiff|].
  intro Hjson. pose proof Hjson as Hcase. apply Hiff in Hcase.
  destruct Hcase as (userId & file & processed & log & Hauth & Hform & Hrun & Hws).
  assert (Hnotpdf : isCase (fileExtension (name file)) "pdf" = false).
  { destruct (isCase (fileExtension (name file)) "pdf") eqn:Hpdf; [|reflexivity].
    exfalso.
    destruct (extractDocument_pdf (libraries env) file processed log Hpdf Hrun)
      as (_ & _ & Htrim).
    exact (wellTrimmed_visible _ Htrim Hws). }
  revert Hpost. unfold POST. rewrite Hauth, Hform.
  cbn [isMissing processEntry]. unfold processDocument. rewrite Hrun.
  destruct (splitTextIntoChunks fuel (list_ascii_of_string (text processed))
              defaultChunkSize defaultOverlap) as [pieces|] eqn:Hsplit;
    cbn [option_map fst chunks]; [|intro E; discriminate E].
  unfold splitTextIntoChunks in Hsplit.
  rewrite (loop_whitespace _ _ _ _ (Loop 0 []) _ Hws eq_refl Hsplit).
  cbn [map].
  intro E. inversion E; subst. split; [reflexivity|]. split; [reflexivity|].
  intros f Hf. inversion Hf; subst f. exact Hnotpdf.
Qed.

Lemma empty_document_answer_witness :
  status (Http 400 emptyDocument) = 400%Z /\
  Samples.withRpc MoreSamples.library = Samples.withRpc MoreSamples.library /\
  forall file,
    Returned (FileEntry (FileOf "blank.txt" (Returned []))) =
    Returned (FileEntry file) ->
    isCase (fileExtension (name file)) "pdf" = false.
Proof.
  destruct (empty_document_answer 10
              (MoreSamples.uploading "blank.txt" "   "
                 (Samples.withRpc MoreSamples.library))
              (Http 400 emptyDocument) (Samples.withRpc MoreSamples.library)
              eq_refl) as [_ H].
  exact (H eq_refl).
Defined.

End UploadSpec.

(** ** The chat page and the upload route agree on file types *)

Module ChatPageSpec.

Import Js Chunker Extractor Processor ProcessorSpec ChatPage.
Local Open Scope string_scope.

Lemma fileExtension_some : forall fileName,
  exists extension, fileExtension fileName = Some extension.
Proof.
  intro fileName. unfold fileExtension, pop.
  pose proof (split_not_nil "."%char fileName) as Hne.
  destruct (rev (split "."%char fileName)) as [|segment segments] eqn:E.
  - apply (f_equal (@rev string)) in E. rewrite rev_involutive in E.
    contradiction.
  - eexists. reflexivity.
Qed.

Ltac split_cases :=
  match goal with
  | |- context [splitTextIntoChunks ?f ?t ?c ?o] =>
      destruct (splitTextIntoChunks f t c o)
  end.

(** The guard of the page and the [switch] of the server agree: for a
    file whose bytes can be read, the page declines the file exactly
    when [processDocument] would reject it as an unsupported type
    without calling a parser; so a file the page sends is never
    answered with [Unsupported file type]. *)
Theorem page_guard_matches_processDocument : forall fuel libs file buffer,
  arrayBuffer file = Returned buffer ->
  (acceptsFile (name file) = false <->
   exists extension,
     processDocument fuel libs file =
     Some (Threw (ErrorObject ("Unsupported file type: " ++ extension)),
           [ReadFile])).
Proof.
  intros fuel libs file buffer Hbuf.
  destruct (fileExtension_some (name file)) as (extension & Hext).
  unfold acceptsFile. rewrite Hext. cbn [orEmptyString existsb].
  rewrite !(String.eqb_sym extension), orb_false_r.
  unfold processDocument, extractDocument, run, bindT, call, raise, lift.
  rewrite Hbuf, Hext. cbn [app isCase showExtension].
  rewrite !(String.eqb_sym extension).
  destruct (String.eqb "pdf" extension).
  { cbn [orb]. split; [intro H; discriminate H|]. intros (x & H). exfalso.
    revert H. unfold processPDF, tryCatchT, attempt, call, raise, run.
    destruct (extractWith libs PdfParse buffer (name file)) as [d|e1];
      [|destruct (extractWith libs Pdf2Json buffer (name file)) as [d|e2];
        [|destruct (extractWith libs PdfjsDist buffer (name file)) as [d|e3]]];
      cbn [app map]; try split_cases; intro H; inversion H. }
  destruct (String.eqb "docx" extension).
  { cbn [orb]. split; [intro H; discriminate H|]. intros (x & H). exfalso.
    revert H. destruct (processWord (mammoth libs) buffer (name file));
      try split_cases; intro H; inversion H. }
  destruct (String.eqb "doc" extension).
  { cbn [orb]. split; [intro H; discriminate H|]. intros (x & H). exfalso.
    revert H. destruct (processWord (mammoth libs) buffer (name file));
      try split_cases; intro H; inversion H. }
  destruct (String.eqb "txt" extension).
  { cbn [orb]. split; [intro H; discriminate H|]. intros (x & H). exfalso.
    revert H. destruct (processText (toStringUtf8 libs) buffer (name file));
      try split_cases; intro H; inversion H. }
  cbn [orb]. split; [|reflexivity].
  intros _. exists extension. reflexivity.
Qed.

Lemma page_guard_matches_processDocument_witness :
  acceptsFile "photo.PNG" = false <->
  exists extension,
    processDocument 0 (MoreSamples.reading "pixels")
                    (FileOf "photo.PNG" (Returned [])) =
    Some (Threw (ErrorObject ("Unsupported file type: " ++ extension)),
          [ReadFile]).
Proof.
  apply (page_guard_matches_processDocument 0 (MoreSamples.reading "pixels")
           (FileOf "photo.PNG" (Returned [])) []).
  reflexivity.
Defined.

End ChatPageSpec.

(** ** The middleware *)

Module MiddlewareSpec.

Import Js Middleware.
Local Open Scope string_scope.

(** Redirects settle in one step: whenever the middleware redirects a
    request, the same browser (same cookies, same session) asking for
    the target of the redirect is let through; there is no redirect
    loop.  The target is [/chat], [/landing] or [/clear-cookies]. *)
Theorem redirects_settle : forall request target,
  middleware request = Redirect target ->
  (target = "/chat" \/ target = "/landing" \/ target = "/clear-cookies") /\
  exists flag, middleware (follow request target) = Next flag.
Proof.
  intros [path cookie user] target. unfold middleware, follow.
  cbn [pathname cookieHeader getUser].
  destruct (skipped path) eqn:Hskip; [intro H; discriminate H|].
  destruct cookie as [cookie|e].
  - destruct (tooLarge cookie) eqn:Hlarge.
    + destruct (String.eqb path "/landing"); intro H; inversion H; subst.
      split; [tauto|]. eexists. reflexivity.
    + destruct user as [[u|]|e]; cbn [andb negb];
        destruct (String.eqb path "/");
        try (intro H; inversion H; subst; split; [tauto|];
             cbn -[tooLarge]; rewrite ?Hlarge; eexists; reflexivity).
      * destruct (String.eqb path "/signup" || String.eqb path "/signin");
          intro H; inversion H; subst. split; [tauto|].
        cbn -[tooLarge]. rewrite ?Hlarge. eexists. reflexivity.
      * destruct (includes publicRoutes path); cbn [negb];
          intro H; inversion H; subst. split; [tauto|].
        cbn -[tooLarge]. rewrite ?Hlarge. eexists. reflexivity.
      * destruct (includes publicRoutes path); intro H; inversion H.
      * destruct (includes publicRoutes path); cbn [negb];
          intro H; inversion H; subst. split; [tauto|].
        cbn -[tooLarge]. rewrite ?Hlarge. eexists. reflexivity.
  - destruct (negb (String.eqb path "/landing")
              && negb (String.eqb path "/clear-cookies"));
      intro H; inversion H; subst. split; [tauto|]. eexists. reflexivity.
Qed.

Lemma redirects_settle_witness :
  ("/landing" = "/chat" \/ "/landing" = "/landing" \/
   "/landing" = "/clear-cookies") /\
  exists flag,
    middleware (follow (RequestOf "/chat" (Returned None) (Returned None))
                       "/landing") = Next flag.
Proof.
  apply (redirects_settle (RequestOf "/chat" (Returned None) (Returned None))
           "/landing").
  reflexivity.
Defined.

(** Pages behind the middleware need a user.  When a request for a
    path that is neither skipped nor public is let through, its cookie
    header was read and is at most 8000 characters long, and either a
    user is signed in, or the path is [/] and the session check threw. *)
Theorem protected_pages_need_a_user : forall request flag,
  middleware request = Next flag ->
  skipped (pathname request) = false ->
  includes publicRoutes (pathname request) = false ->
  flag = false /\
  (exists cookie,
     cookieHeader request = Returned cookie /\ tooLarge cookie = false) /\
  ((exists user, getUser request = Returned (Some user)) \/
   (pathname request = "/" /\ exists e, getUser request = Threw e)).
Proof.
  intros [path cookie user] flag. unfold middleware.
  cbn [pathname cookieHeader getUser]. intros H Hskip Hpublic.
  rewrite Hskip in H.
  assert (Hlanding : String.eqb path "/landing" = false).
  { unfold includes, publicRoutes in Hpublic. cbn [existsb] in Hpublic.
    apply orb_false_iff in Hpublic. tauto. }
  assert (Hclear : String.eqb path "/clear-cookies" = false).
  { unfold skipped in Hskip. apply orb_false_iff in Hskip. tauto. }
  destruct cookie as [cookie|e].
  - destruct (tooLarge cookie) eqn:Hlarge.
    + rewrite Hlanding in H. discriminate H.
    + rewrite Hpublic in H. destruct user as [[u|]|e]; cbn [andb negb] in H.
      * destruct (String.eqb path "/"); [discriminate H|].
        destruct (String.eqb path "/signup" || String.eqb path "/signin");
          [discriminate H|].
        inversion H; subst. split; [reflexivity|]. split.
        -- exists cookie. now split.
        -- left. now exists u.
      * destruct (String.eqb path "/"); discriminate H.
      * destruct (String.eqb path "/") eqn:Hroot; cbn [negb] in H;
          [|discriminate H].
        inversion H; subst. split; [reflexivity|]. split.
        -- exists cookie. now split.
        -- right. apply String.eqb_eq in Hroot. split; [exact Hroot|].
           now exists e.
  - rewrite Hlanding, Hclear in H. discriminate H.
Qed.

Lemma protected_pages_need_a_user_witness :
  false = false /\
  (exists cookie,
     Returned (Some "sb=1") = Returned cookie /\ tooLarge cookie = false) /\
  ((exists user, Returned (Some "u") = Returned (Some user)) \/
   ("/chat" = "/" /\ exists e, Returned (Some "u") = Threw e)).
Proof.
  apply (protected_pages_need_a_user
           (RequestOf "/chat" (Returned (Some "sb=1")) (Returned (Some "u")))
           false); reflexivity.
Defined.

End MiddlewareSpec.
